(** * Adaptive Radix Tree nodes (execution/index/art/node.cpp)

    A shallow embedding of the ART node header operations of
    [src/execution/index/art/node.cpp]: the base-class constructor,
    [CopyPrefix], [PrefixMismatch] and the two type-tag dispatchers
    [InsertLeaf] and [Erase], followed by the node variants and the tree
    algorithms that the specification describes around them. *)

From Stdlib Require Import ZArith Lia.
From Stdlib Require Import Strings.Byte.
From stdpp Require Import base option list sorting gmap strings.

Local Open Scope Z_scope.

(** ** Machine data *)

Notation byte := Byte.byte.

#[global] Instance byte_eq_dec : EqDecision byte := Byte.byte_eq_dec.

(** [uint8_t], [uint16_t], [uint32_t] and [uint64_t] values are integers of
    [Z] inside the range of their width; arithmetic that can leave the
    range is wrapped where it happens. *)
Definition uint_range (w : Z) (z : Z) : Prop := 0 <= z < 2 ^ w.

Definition wrap (w : Z) (z : Z) : Z := z mod 2 ^ w.

(** [a[i]] on a C array whose cells are the elements of [a]: defined only
    inside the array. *)
Definition array_at {A} (a : list A) (i : Z) : option A :=
  if i <? 0 then None else a !! Z.to_nat i.

(** ** Outcomes of a call

    A call returns, throws a C++ exception, stops at a failed [assert]
    (assertions are compiled in), or leaves the defined behaviour of C++
    (an access outside an array, an invalid pointer). *)

Inductive Exception :=
| NotImplementedException (msg : string).

Inductive Outcome (A : Type) :=
| Returned (a : A)
| Thrown (e : Exception)
| AssertFailed
| Undefined.

Arguments Returned {A} a.
Arguments Thrown {A} e.
Arguments AssertFailed {A}.
Arguments Undefined {A}.

#[global] Instance Outcome_ret : MRet Outcome := @Returned.

#[global] Instance Outcome_bind : MBind Outcome := fun A B f m =>
  match m with
  | Returned a => f a
  | Thrown e => Thrown e
  | AssertFailed => AssertFailed
  | Undefined => Undefined
  end.

Definition defined {A} (o : option A) : Outcome A :=
  match o with
  | Some a => Returned a
  | None => Undefined
  end.

(** Calls whose array reads are observed: the reads attempted, in order,
    and the outcome. *)
Inductive Access :=
| KeyRead (i : Z)
| PrefixRead (i : Z).

Record Exec (A : Type) := mkExec {
  trace : list Access;
  outcome : Outcome A
}.

Arguments mkExec {A} trace outcome.
Arguments trace {A} e.
Arguments outcome {A} e.

#[global] Instance Exec_ret : MRet Exec := fun A a => mkExec [] (Returned a).

#[global] Instance Exec_bind : MBind Exec := fun A B f m =>
  match outcome m with
  | Returned a => mkExec (trace m ++ trace (f a)) (outcome (f a))
  | Thrown e => mkExec (trace m) (Thrown e)
  | AssertFailed => mkExec (trace m) AssertFailed
  | Undefined => mkExec (trace m) Undefined
  end.

Definition throw {A} (e : Exception) : Exec A := mkExec [] (Thrown e).

(** ** The tree handle and the node header *)

(** [ART]: the only member the node code reads is [maxPrefix], the number of
    prefix bytes every node reserves. [std::min(src->prefix_length,
    art.maxPrefix)] fixes its type to that of [prefix_length]. *)
Record ART := mkART {
  maxPrefix : Z
}.

Definition ART_typed (art : ART) : Prop := uint_range 32 (maxPrefix art).

(** [enum class NodeType]: the four tags the dispatchers name, and every
    other value the tag can hold. *)
Inductive NodeType :=
| N4
| N16
| N48
| N256
| NUnknown (raw : Z).

#[global] Instance NodeType_eq_dec : EqDecision NodeType.
Proof. solve_decision. Defined.

(** [class Node]: the header fields, and in [derived] the members of the
    subclass the object really is (its keys and children). [prefix] is the
    array the [unique_ptr<uint8_t[]>] owns. *)
Record Node (D : Type) := mkNode {
  prefix_length : Z;
  count : Z;
  type : NodeType;
  prefix : list byte;
  derived : D
}.

Arguments mkNode {D} prefix_length count type prefix derived.
Arguments prefix_length {D} n.
Arguments count {D} n.
Arguments type {D} n.
Arguments prefix {D} n.
Arguments derived {D} n.

Definition Node_typed {D} (n : Node D) : Prop :=
  uint_range 32 (prefix_length n) /\ uint_range 16 (count n).

Definition with_prefix_length {D} (n : Node D) (len : Z) : Node D :=
  mkNode len (count n) (type n) (prefix n) (derived n).

Definition with_prefix {D} (n : Node D) (bytes : list byte) : Node D :=
  mkNode (prefix_length n) (count n) (type n) bytes (derived n).

(** A [Key]: its bytes; [len] is an [index_t]. *)
Notation Key := (list byte) (only parsing).

Definition Key_typed (key : Key) : Prop := Z.of_nat (length key) < 2 ^ 64.

(** ** Node::Node

    [new uint8_t[art.maxPrefix]] leaves the cells indeterminate: [fresh]
    gives what they happen to hold. The subclass constructor supplies
    [derived]. *)
Definition Node_new {D} (art : ART) (ty : NodeType) (fresh : nat -> byte)
    (d : D) : Node D :=
  mkNode 0 0 ty (fresh <$> seq 0 (Z.to_nat (maxPrefix art))) d.

(** ** Node::CopyPrefix

    [src] and [dst] are raw pointers into the store of node objects, and
    may be the same one. *)
Notation addr := Z (only parsing).
Notation store D := (gmap Z (Node D)) (only parsing).

Definition deref {D} (h : store D) (p : addr) : Outcome (Node D) :=
  defined (h !! p).

(** The first [n] cells of [dst] overwritten by those of [src]; both
    arrays must have them. *)
Definition copy_bytes (dst src : list byte) (n : Z) : Outcome (list byte) :=
  if (n <=? Z.of_nat (length src)) && (n <=? Z.of_nat (length dst))
  then Returned (take (Z.to_nat n) src ++ drop (Z.to_nat n) dst)
  else Undefined.

(** [memcpy(dst, src, n)]: copying between objects that overlap is not
    defined. *)
Definition memcpy (overlap : bool) (dst src : list byte) (n : Z)
    : Outcome (list byte) :=
  if overlap && (0 <? n) then Undefined else copy_bytes dst src n.

Definition CopyPrefix {D} (art : ART) (src dst : addr) (h : store D)
    : Outcome (store D) :=
  (* dst->prefix_length = src->prefix_length; *)
  s ← deref h src;
  d ← deref h dst;
  let h1 := <[dst := with_prefix_length d (prefix_length s)]> h in
  (* memcpy(dst->prefix.get(), src->prefix.get(),
            std::min(src->prefix_length, art.maxPrefix)); *)
  s1 ← deref h1 src;
  d1 ← deref h1 dst;
  (* every node owns its prefix array: the two overlap when src and dst
     are one node *)
  bytes ← memcpy (bool_decide (src = dst)) (prefix d1) (prefix s1)
            (Z.min (prefix_length s1) (maxPrefix art));
  mret (<[dst := with_prefix d1 bytes]> h1).

(** ** Node::GetChild: the base class has no children. *)
Definition Node_GetChild {C} (pos : Z) : Outcome (option C) := AssertFailed.

(** ** Node::PrefixMismatch *)

Definition read_key (key : Key) (i : Z) : Exec byte :=
  mkExec [KeyRead i] (defined (array_at key i)).

Definition read_prefix {D} (node : Node D) (i : Z) : Exec byte :=
  mkExec [PrefixRead i] (defined (array_at (prefix node) i)).

(** The [for] loop with [todo] iterations left, [pos] being
    [prefix_length - todo]: the loop condition [pos < node->prefix_length]
    holds exactly while [todo] is not zero. [pos] stays below 2^32, so
    [pos++] never wraps; [depth + pos] is a [uint64_t] sum; the value
    returned is converted to [uint32_t]. *)
Fixpoint PrefixMismatch_loop {D} (node : Node D) (key : Key) (depth : Z)
    (pos : Z) (todo : nat) : Exec Z :=
  match todo with
  | O => mret (wrap 32 pos)
  | S todo' =>
      k ← read_key key (wrap 64 (depth + pos));
      p ← read_prefix node pos;
      if bool_decide (k ≠ p) then mret (wrap 32 pos)
      else PrefixMismatch_loop node key depth (pos + 1) todo'
  end.

Definition PrefixMismatch_exec {D} (art : ART) (node : Node D) (key : Key)
    (depth : Z) : Exec Z :=
  if prefix_length node <=? maxPrefix art then
    PrefixMismatch_loop node key depth 0 (Z.to_nat (prefix_length node))
  else
    throw (NotImplementedException "Operation not implemented").

Definition PrefixMismatch {D} (art : ART) (node : Node D) (key : Key)
    (depth : Z) : Outcome Z :=
  outcome (PrefixMismatch_exec art node key depth).

(** ** Node::InsertLeaf and Node::Erase

    Both switch on the type tag and hand over to the routine of the
    variant; the routines are those of the four subclasses. *)

Inductive SwitchArm :=
| CaseN4
| CaseN16
| CaseN48
| CaseN256
| CaseDefault.

Definition switch_type (t : NodeType) : SwitchArm :=
  match t with
  | N4 => CaseN4
  | N16 => CaseN16
  | N48 => CaseN48
  | N256 => CaseN256
  | NUnknown _ => CaseDefault
  end.

Section Dispatch.
Context {D C : Type}.
(** [Node4::insert] ... [Node256::insert]: the node handle is passed by
    reference, the routine leaves in it the node that now stands there. *)
Variables Node4_insert Node16_insert Node48_insert Node256_insert :
  ART -> Node D -> byte -> C -> Outcome (Node D).
(** [Node4::erase] ... [Node256::erase]. *)
Variables Node4_erase Node16_erase Node48_erase Node256_erase :
  ART -> Node D -> Z -> Outcome (Node D).

Definition InsertLeaf (art : ART) (node : Node D) (key : byte) (newNode : C)
    : Outcome (Node D) :=
  match switch_type (type node) with
  | CaseN4 => Node4_insert art node key newNode
  | CaseN16 => Node16_insert art node key newNode
  | CaseN48 => Node48_insert art node key newNode
  | CaseN256 => Node256_insert art node key newNode
  | CaseDefault => AssertFailed
  end.

Definition Erase (art : ART) (node : Node D) (pos : Z) : Outcome (Node D) :=
  match switch_type (type node) with
  | CaseN4 => Node4_erase art node pos
  | CaseN16 => Node16_erase art node pos
  | CaseN48 => Node48_erase art node pos
  | CaseN256 => Node256_erase art node pos
  | CaseDefault => AssertFailed
  end.
End Dispatch.


(** * The node variants

    Modelled from the spec: the subclasses Node4, Node16, Node48 and Node256
    (their files are not part of the sources at hand), after sections 3 and
    4.1 of the specification: the four child layouts, [GetChild], the
    insertion of a child with growth to the next variant, and the removal
    of a child with the shrink to the previous one. *)

(** Modelled from the spec: the variant-specific storage.
    Node4 and Node16 keep parallel arrays of key bytes and children, of
    which [key] and [child] are the occupied part; Node48 keeps a 256-entry
    index from byte to slot and 48 child slots; Node256 keeps 256 child
    pointers. *)
Inductive ChildStorage (C : Type) :=
| Storage4 (key : list byte) (child : list C)
| Storage16 (key : list byte) (child : list C)
| Storage48 (child_index : list (option nat)) (child : list (option C))
| Storage256 (child : list (option C)).

Arguments Storage4 {C} key child.
Arguments Storage16 {C} key child.
Arguments Storage48 {C} child_index child.
Arguments Storage256 {C} child.

(** Modelled from the spec: the capacity of each variant. *)
Definition capacity (t : NodeType) : Z :=
  match t with
  | N4 => 4
  | N16 => 16
  | N48 => 48
  | N256 => 256
  | NUnknown _ => 0
  end.

(** Modelled from the spec: the variant a node shrinks to, the previous
    one; Node4 is the smallest. *)
Definition previous_type (t : NodeType) : NodeType :=
  match t with
  | N256 => N48
  | N48 => N16
  | _ => N4
  end.

(** Modelled from the spec: the occupancy below which a variant is replaced
    by the previous one: a quarter of its capacity, as is the convention,
    and at most what the previous variant holds, so that the pairs that
    are left fit it and none is lost. The bound matters for Node256 alone,
    whose quarter, 64, is above the 48 slots of Node48. An erase that
    follows a growth does not shrink the node again. *)
Definition shrink_threshold (t : NodeType) : Z :=
  Z.min (capacity t / 4) (capacity (previous_type t)).

(** Modelled from the spec: the order of the key bytes, in which Node16
    keeps its keys. *)
Definition byte_lt (a b : byte) : Prop := (Byte.to_nat a < Byte.to_nat b)%nat.

#[global] Instance byte_lt_dec (a b : byte) : Decision (byte_lt a b).
Proof. unfold byte_lt. apply _. Defined.

(** Modelled from the spec: the 256 byte values in ascending order, the
    order in which the arrays of Node48 and Node256 are walked. *)
Definition all_bytes : list byte := omap Byte.of_nat (seq 0 256).

Section Variants.
Context {C : Type}.

(** What the cells of a newly allocated prefix array hold. *)
Variable fresh : nat -> byte.

(** Modelled from the spec: a node with another count and other children,
    its prefix and its tag kept. *)
Definition with_children (n : Node (ChildStorage C)) (cnt : Z)
    (d : ChildStorage C) : Node (ChildStorage C) :=
  mkNode (prefix_length n) cnt (type n) (prefix n) d.

(** *** GetChild *)

(** Modelled from the spec: the scan of the two parallel arrays of Node4
    and Node16 for a key byte. *)
Fixpoint scan (key : list byte) (child : list C) (b : byte) : option C :=
  match key, child with
  | k :: key', c :: child' =>
      if decide (k = b) then Some c else scan key' child' b
  | _, _ => None
  end.

(** Modelled from the spec: the array index at which the scan finds the
    key byte. *)
Fixpoint scan_pos (key : list byte) (b : byte) : option nat :=
  match key with
  | [] => None
  | k :: key' => if decide (k = b) then Some O else S <$> scan_pos key' b
  end.

(** Modelled from the spec: [GetChild(byte)]. Node4 and Node16 scan their
    key array; Node48 goes through its index and checks that the slot is
    occupied; Node256 indexes its child array and checks the entry. *)
Definition GetChild (n : Node (ChildStorage C)) (b : byte) : option C :=
  match derived n with
  | Storage4 key child => scan key child b
  | Storage16 key child => scan key child b
  | Storage48 idx slots =>
      s ← mjoin (idx !! Byte.to_nat b); mjoin (slots !! s)
  | Storage256 child => mjoin (child !! Byte.to_nat b)
  end.

(** Modelled from the spec: the position [Erase] is given for the child
    of a byte: the array index in Node4 and Node16, the byte itself in
    Node48 and Node256. *)
Definition GetChildPos (n : Node (ChildStorage C)) (b : byte) : option Z :=
  match derived n with
  | Storage4 key _ => Z.of_nat <$> scan_pos key b
  | Storage16 key _ => Z.of_nat <$> scan_pos key b
  | Storage48 _ _ | Storage256 _ =>
      _ ← GetChild n b; Some (Z.of_nat (Byte.to_nat b))
  end.

(** Modelled from the spec: the (byte, child) pairs of a node, in the
    order of its layout. *)
Definition entries (n : Node (ChildStorage C)) : list (byte * C) :=
  match derived n with
  | Storage4 key child => zip key child
  | Storage16 key child => zip key child
  | Storage48 _ _ | Storage256 _ =>
      omap (fun b => pair b <$> GetChild n b) all_bytes
  end.

(** *** Writing one more pair into a layout *)

(** Modelled from the spec: the shift-insert of Node16, which keeps the
    keys ascending: the pairs behind the place of the new key move up by
    one. *)
Fixpoint shift_insert (key : list byte) (child : list C) (b : byte) (c : C)
    : list byte * list C :=
  match key, child with
  | k :: key', ch :: child' =>
      if decide (byte_lt k b)
      then let '(ks, cs) := shift_insert key' child' b c in
           (k :: ks, ch :: cs)
      else (b :: key, c :: child)
  | _, _ => ([b], [c])
  end.

(** Modelled from the spec: the free slot Node48 picks, the first that
    holds no child. *)
Fixpoint free_slot (slots : list (option C)) : option nat :=
  match slots with
  | [] => None
  | None :: _ => Some O
  | Some _ :: slots' => S <$> free_slot slots'
  end.

(** Modelled from the spec: the write of a pair into a node that has
    room: appended in Node4, shift-inserted in Node16, put in a free slot
    recorded in the index in Node48, written at its byte in Node256. A
    write for which the arrays have no room is outside them. *)
Definition add_child (n : Node (ChildStorage C)) (b : byte) (c : C)
    : Outcome (Node (ChildStorage C)) :=
  match derived n with
  | Storage4 key child =>
      if count n <? 4
      then mret (with_children n (count n + 1)
                   (Storage4 (key ++ [b]) (child ++ [c])))
      else Undefined
  | Storage16 key child =>
      if count n <? 16
      then let '(ks, cs) := shift_insert key child b c in
           mret (with_children n (count n + 1) (Storage16 ks cs))
      else Undefined
  | Storage48 idx slots =>
      match free_slot slots with
      | Some s =>
          mret (with_children n (count n + 1)
                  (Storage48 (<[Byte.to_nat b := Some s]> idx)
                             (<[s := Some c]> slots)))
      | None => Undefined
      end
  | Storage256 child =>
      mret (with_children n (count n + 1)
              (Storage256 (<[Byte.to_nat b := Some c]> child)))
  end.

(** Modelled from the spec: the pairs of a list written into a node one
    after the other. *)
Fixpoint add_children (es : list (byte * C)) (n : Node (ChildStorage C))
    : Outcome (Node (ChildStorage C)) :=
  match es with
  | [] => mret n
  | (b, c) :: es' => n' ← add_child n b c; add_children es' n'
  end.

(** *** Replacing a node by another variant *)

(** Modelled from the spec: the storage of a new node of a variant, its
    arrays without a child. *)
Definition empty_storage (t : NodeType) : ChildStorage C :=
  match t with
  | N4 => Storage4 [] []
  | N16 => Storage16 [] []
  | N48 => Storage48 (replicate 256 None) (replicate 48 None)
  | _ => Storage256 (replicate 256 None)
  end.

(** [CopyPrefix(art, src, dst)] on two objects that are not in a store
    yet: they are put at two addresses, and [dst] is read back. *)
Definition copy_prefix {D} (art : ART) (src dst : Node D)
    : Outcome (Node D) :=
  h ← CopyPrefix art 0 1 (<[1 := dst]> {[0 := src]});
  deref h 1.

(** Modelled from the spec: the replacement of a node by the variant
    [t]: a new node of that variant, the prefix copied by [CopyPrefix],
    and every (byte, child) pair written into it. *)
Definition convert (art : ART) (t : NodeType) (n : Node (ChildStorage C))
    : Outcome (Node (ChildStorage C)) :=
  n' ← copy_prefix art n (Node_new art t fresh (empty_storage t));
  add_children (entries n) n'.

(** *** InsertChild *)

(** Modelled from the spec: [Node256::insert] writes the child at its
    byte. *)
Definition Node256_insert (art : ART) (node : Node (ChildStorage C))
    (b : byte) (c : C) : Outcome (Node (ChildStorage C)) :=
  add_child node b c.

(** Modelled from the spec: [Node48::insert]; a full node is first
    replaced by a Node256, into which the new pair is then inserted. *)
Definition Node48_insert (art : ART) (node : Node (ChildStorage C))
    (b : byte) (c : C) : Outcome (Node (ChildStorage C)) :=
  if count node <? 48 then add_child node b c
  else n' ← convert art N256 node; Node256_insert art n' b c.

(** Modelled from the spec: [Node16::insert]; a full node is first
    replaced by a Node48. *)
Definition Node16_insert (art : ART) (node : Node (ChildStorage C))
    (b : byte) (c : C) : Outcome (Node (ChildStorage C)) :=
  if count node <? 16 then add_child node b c
  else n' ← convert art N48 node; Node48_insert art n' b c.

(** Modelled from the spec: [Node4::insert]; a full node is first
    replaced by a Node16. *)
Definition Node4_insert (art : ART) (node : Node (ChildStorage C))
    (b : byte) (c : C) : Outcome (Node (ChildStorage C)) :=
  if count node <? 4 then add_child node b c
  else n' ← convert art N16 node; Node16_insert art n' b c.

(** *** EraseChild *)

(** Modelled from the spec: the removal of the pair at a position. *)
Definition remove_child (n : Node (ChildStorage C)) (pos : Z)
    : Outcome (Node (ChildStorage C)) :=
  if (pos <? 0) then Undefined else
  let i := Z.to_nat pos in
  match derived n with
  | Storage4 key child =>
      if decide (i < length key)%nat
      then mret (with_children n (count n - 1)
                   (Storage4 (delete i key) (delete i child)))
      else Undefined
  | Storage16 key child =>
      if decide (i < length key)%nat
      then mret (with_children n (count n - 1)
                   (Storage16 (delete i key) (delete i child)))
      else Undefined
  | Storage48 idx slots =>
      match idx !! i with
      | Some (Some s) =>
          mret (with_children n (count n - 1)
                  (Storage48 (<[i := None]> idx) (<[s := None]> slots)))
      | _ => Undefined
      end
  | Storage256 child =>
      match child !! i with
      | Some (Some _) =>
          mret (with_children n (count n - 1)
                  (Storage256 (<[i := None]> child)))
      | _ => Undefined
      end
  end.

(** Modelled from the spec: [Node4::erase]; Node4 is the smallest
    variant. *)
Definition Node4_erase (art : ART) (node : Node (ChildStorage C))
    (pos : Z) : Outcome (Node (ChildStorage C)) :=
  remove_child node pos.

(** Modelled from the spec: [Node16::erase]; a node whose occupancy falls
    below the threshold of its variant is replaced by the previous
    variant. *)
Definition Node16_erase (art : ART) (node : Node (ChildStorage C))
    (pos : Z) : Outcome (Node (ChildStorage C)) :=
  n' ← remove_child node pos;
  if count n' <? shrink_threshold N16 then convert art N4 n' else mret n'.

(** Modelled from the spec: [Node48::erase]. *)
Definition Node48_erase (art : ART) (node : Node (ChildStorage C))
    (pos : Z) : Outcome (Node (ChildStorage C)) :=
  n' ← remove_child node pos;
  if count n' <? shrink_threshold N48 then convert art N16 n' else mret n'.

(** Modelled from the spec: [Node256::erase]. *)
Definition Node256_erase (art : ART) (node : Node (ChildStorage C))
    (pos : Z) : Outcome (Node (ChildStorage C)) :=
  n' ← remove_child node pos;
  if count n' <? shrink_threshold N256 then convert art N48 n' else mret n'.

(** [Node::InsertLeaf] and [Node::Erase] over these routines. *)
Definition InsertChild :=
  InsertLeaf Node4_insert Node16_insert Node48_insert Node256_insert.

Definition EraseChild :=
  Erase Node4_erase Node16_erase Node48_erase Node256_erase.

(** Modelled from the spec: the child of a byte that has one is
    replaced where it stands (the recursion works on the child through
    the handle its parent holds). *)
Definition replace_child (n : Node (ChildStorage C)) (b : byte) (c : C)
    : Node (ChildStorage C) :=
  let upd key child :=
    match scan_pos key b with
    | Some i => <[i := c]> child
    | None => child
    end in
  match derived n with
  | Storage4 key child =>
      with_children n (count n) (Storage4 key (upd key child))
  | Storage16 key child =>
      with_children n (count n) (Storage16 key (upd key child))
  | Storage48 idx slots =>
      match mjoin (idx !! Byte.to_nat b) with
      | Some s =>
          with_children n (count n) (Storage48 idx (<[s := Some c]> slots))
      | None => n
      end
  | Storage256 child =>
      with_children n (count n)
        (Storage256 (<[Byte.to_nat b := Some c]> child))
  end.
End Variants.

(** * The tree

    Modelled from the spec: the tree algorithms Insert, Search and Erase
    (the file of the ART class is not part of the sources at hand), after
    sections 4.2, 4.3 and 4.4 of the specification. They call
    [PrefixMismatch], [InsertLeaf] and [Erase] of node.cpp. *)

(** A row identifier is opaque to the tree. *)
Notation RowId := Z (only parsing).

(** Modelled from the spec: a leaf holds its key and the row identifiers
    inserted under it; an inner node is one of the four variants and owns
    its children. *)
Inductive ARTNode :=
| LeafNode (key : Key) (rows : list RowId)
| InnerNode (n : Node (ChildStorage ARTNode)).

(** Modelled from the spec: the results Insert and Erase report to the
    caller. *)
Inductive InsertStatus :=
| Inserted
| DuplicateKey.

Inductive EraseStatus :=
| Erased
| NotFound.

(** Modelled from the spec: the longest common byte span of two byte
    sequences, as a number of bytes. *)
Fixpoint common_span (a b : list byte) : nat :=
  match a, b with
  | x :: a', y :: b' => if decide (x = y) then S (common_span a' b') else O
  | _, _ => O
  end.

(** Modelled from the spec: the prefix bytes a node physically holds, the
    first min(prefix_length, maxPrefix) of its array. *)
Definition stored_prefix {D} (art : ART) (n : Node D) : list byte :=
  take (Z.to_nat (Z.min (prefix_length n) (maxPrefix art))) (prefix n).

Section Tree.
(** What the cells of a newly allocated prefix array hold. *)
Variable fresh : nat -> byte.
(** The tree handle, and whether the index is a unique one. *)
Variable art : ART.
Variable unique : bool.

(** Modelled from the spec: a new leaf for a key and a row identifier. *)
Definition new_leaf (key : Key) (row : RowId) : ARTNode :=
  LeafNode key [row].

(** Modelled from the spec: a new Node4 whose prefix is the [len] bytes
    at the start of [bytes]; of these, the first [maxPrefix] at most are
    stored. *)
Definition new_Node4 (len : Z) (bytes : list byte)
    : Outcome (Node (ChildStorage ARTNode)) :=
  let n := Node_new art N4 fresh (Storage4 [] []) in
  stored ← copy_bytes (prefix n) bytes (Z.min len (maxPrefix art));
  mret (with_prefix (with_prefix_length n len) stored).

(** Modelled from the spec: a new Node4 with a prefix and two children,
    each under its byte. *)
Definition branch (len : Z) (bytes : list byte)
    (b1 : byte) (c1 : ARTNode) (b2 : byte) (c2 : ARTNode)
    : Outcome ARTNode :=
  n ← new_Node4 len bytes;
  n ← InsertChild fresh art n b1 c1;
  n ← InsertChild fresh art n b2 c2;
  mret (InnerNode n).

(** Modelled from the spec: the node with its prefix truncated and
    shifted: the first [cut] bytes are removed and the rest moved to the
    front. *)
Definition drop_prefix (n : Node (ChildStorage ARTNode)) (cut : Z)
    : Outcome (Node (ChildStorage ARTNode)) :=
  let len := prefix_length n - cut in
  stored ← copy_bytes (prefix n) (drop (Z.to_nat cut) (prefix n))
             (Z.min len (maxPrefix art));
  mret (with_prefix (with_prefix_length n len) stored).

(** Modelled from the spec: the step all three traversals take at an
    inner node: the prefix is compared by [PrefixMismatch]; when the key
    leaves the prefix at offset [p], [mismatch p] goes on; otherwise
    the depth moves past the prefix and [next] goes on with the key byte
    found there. *)
Definition descend {R} (n : Node (ChildStorage ARTNode)) (key : Key)
    (depth : Z) (mismatch : Z -> Outcome R)
    (next : Z -> byte -> Outcome R) : Outcome R :=
  p ← PrefixMismatch art n key depth;
  if p <? prefix_length n then mismatch p
  else
    let depth' := depth + prefix_length n in
    b ← defined (array_at key depth');
    next depth' b.

(** Modelled from the spec: section 4.2, steps 2 and 3, on the node a
    slot holds; the result is the node that stands in the slot
    afterwards. The recursion is at most as deep as the key is long. *)
Fixpoint insert_rec (fuel : nat) (node : ARTNode) (key : Key) (depth : Z)
    (row : RowId) : Outcome (InsertStatus * ARTNode) :=
  match fuel with
  | O => Undefined
  | S fuel' =>
    match node with
    | LeafNode lkey rows =>
        if decide (lkey = key) then
          if unique then mret (DuplicateKey, node)
          else mret (Inserted, LeafNode lkey (rows ++ [row]))
        else
          let span :=
            Z.of_nat (common_span (drop (Z.to_nat depth) lkey)
                                  (drop (Z.to_nat depth) key)) in
          b_old ← defined (array_at lkey (depth + span));
          b_new ← defined (array_at key (depth + span));
          n ← branch span (drop (Z.to_nat depth) key)
                b_old node b_new (new_leaf key row);
          mret (Inserted, n)
    | InnerNode n =>
        descend n key depth
          (fun p =>
             b_old ← defined (array_at (prefix n) p);
             b_new ← defined (array_at key (depth + p));
             old ← drop_prefix n (p + 1);
             n' ← branch p (prefix n)
                    b_old (InnerNode old) b_new (new_leaf key row);
             mret (Inserted, n'))
          (fun depth' b =>
             match GetChild n b with
             | None =>
                 n' ← InsertChild fresh art n b (new_leaf key row);
                 mret (Inserted, InnerNode n')
             | Some c =>
                 '(st, c') ← insert_rec fuel' c key (depth' + 1) row;
                 mret (st, InnerNode (replace_child n b c'))
             end)
    end
  end.

(** Modelled from the spec: [Insert(key, row_id)]; step 1 is the empty
    tree. *)
Definition ART_Insert (root : option ARTNode) (key : Key) (row : RowId)
    : Outcome (InsertStatus * option ARTNode) :=
  match root with
  | None => mret (Inserted, Some (new_leaf key row))
  | Some node =>
      '(st, node') ← insert_rec (S (length key)) node key 0 row;
      mret (st, Some node')
  end.

(** Modelled from the spec: section 4.3. *)
Fixpoint search_rec (fuel : nat) (node : ARTNode) (key : Key) (depth : Z)
    : Outcome (list RowId) :=
  match fuel with
  | O => Undefined
  | S fuel' =>
    match node with
    | LeafNode lkey rows => mret (if decide (lkey = key) then rows else [])
    | InnerNode n =>
        descend n key depth
          (fun _ => mret [])
          (fun depth' b =>
             match GetChild n b with
             | None => mret []
             | Some c => search_rec fuel' c key (depth' + 1)
             end)
    end
  end.

(** Modelled from the spec: [Search(key)]; the empty tree holds
    nothing. *)
Definition ART_Search (root : option ARTNode) (key : Key)
    : Outcome (list RowId) :=
  match root with
  | None => mret []
  | Some node => search_rec (S (length key)) node key 0
  end.

(** Modelled from the spec: the row identifiers of a leaf without one
    occurrence of [row], the first. *)
Fixpoint remove_row (row : RowId) (rows : list RowId) : list RowId :=
  match rows with
  | [] => []
  | r :: rows' => if decide (r = row) then rows' else r :: remove_row row rows'
  end.

(** Modelled from the spec: path compression; the prefix of the parent,
    the byte of the edge and the prefix of the child become the prefix of
    the child. *)
Definition merge_into_child (parent : Node (ChildStorage ARTNode))
    (b : byte) (c : ARTNode) : ARTNode :=
  match c with
  | LeafNode _ _ => c
  | InnerNode m =>
      let bytes := stored_prefix art parent ++ [b] ++ stored_prefix art m in
      let stored := take (Z.to_nat (maxPrefix art)) bytes in
      InnerNode
        (with_prefix
           (with_prefix_length m (prefix_length parent + 1 + prefix_length m))
           (stored ++ drop (length stored) (prefix m)))
  end.

(** Modelled from the spec: section 4.4, on the node a slot holds; the
    result is what the slot holds afterwards, nothing when its leaf is
    gone. *)
Fixpoint erase_rec (fuel : nat) (is_root : bool) (node : ARTNode)
    (key : Key) (depth : Z) (row : RowId)
    : Outcome (EraseStatus * option ARTNode) :=
  match fuel with
  | O => Undefined
  | S fuel' =>
    match node with
    | LeafNode lkey rows =>
        if decide (lkey = key /\ row ∈ rows) then
          match remove_row row rows with
          | [] => mret (Erased, None)
          | rows' => mret (Erased, Some (LeafNode lkey rows'))
          end
        else mret (NotFound, Some node)
    | InnerNode n =>
        descend n key depth
          (fun _ => mret (NotFound, Some node))
          (fun depth' b =>
             match GetChild n b with
             | None => mret (NotFound, Some node)
             | Some c =>
                 '(st, slot) ← erase_rec fuel' false c key (depth' + 1) row;
                 match st, slot with
                 | NotFound, _ => mret (NotFound, Some node)
                 | Erased, Some c' =>
                     mret (Erased, Some (InnerNode (replace_child n b c')))
                 | Erased, None =>
                     pos ← defined (GetChildPos n b);
                     n' ← EraseChild fresh art n pos;
                     match entries n' with
                     | [(b1, c1)] =>
                         if is_root then mret (Erased, Some (InnerNode n'))
                         else mret (Erased, Some (merge_into_child n' b1 c1))
                     | _ => mret (Erased, Some (InnerNode n'))
                     end
                 end
             end)
    end
  end.

(** Modelled from the spec: [Erase(key, row_id)]; the empty tree holds
    nothing. *)
Definition ART_Erase (root : option ARTNode) (key : Key) (row : RowId)
    : Outcome (EraseStatus * option ARTNode) :=
  match root with
  | None => mret (NotFound, None)
  | Some node => erase_rec (S (length key)) true node key 0 row
  end.

(** Modelled from the spec: the pairs of a list inserted one after the
    other, as the round-trip property has it; the statuses in the order of
    the insertions. *)
Fixpoint insert_all (root : option ARTNode) (pairs : list (Key * RowId))
    : Outcome (list InsertStatus * option ARTNode) :=
  match pairs with
  | [] => mret ([], root)
  | (key, row) :: pairs' =>
      '(st, root') ← ART_Insert root key row;
      '(sts, root'') ← insert_all root' pairs';
      mret (st :: sts, root'')
  end.
End Tree.

(** The row identifiers a list of pairs holds under a key. *)
Definition rows_of (key : Key) (pairs : list (Key * RowId)) : list RowId :=
  snd <$> filter (fun p => fst p = key) pairs.

(** ** Predicates of the statements *)

(** The constructor gives every node of a tree [maxPrefix] prefix cells,
    and no operation of the file replaces the array. *)
Definition Node_allocated {D} (art : ART) (n : Node D) : Prop :=
  Z.of_nat (length (prefix n)) = maxPrefix art.

Definition access_in_bounds {D} (node : Node D) (key : Key) (a : Access)
    : Prop :=
  match a with
  | KeyRead i => is_Some (array_at key i)
  | PrefixRead i => is_Some (array_at (prefix node) i)
  end.

Definition access_in_window {D} (node : Node D) (depth : Z) (a : Access)
    : Prop :=
  match a with
  | KeyRead i => depth <= i < depth + prefix_length node
  | PrefixRead i => 0 <= i < prefix_length node
  end.


(** ** Well-formed nodes *)

(** The number of slots that hold a child. *)
Fixpoint occupied {C} (slots : list (option C)) : nat :=
  match slots with
  | [] => O
  | Some _ :: slots' => S (occupied slots')
  | None :: slots' => occupied slots'
  end.

(** The layout of a node agrees with its tag: the parallel arrays are as
    long as each other, the keys of Node4 are distinct and those of Node16
    ascending; every slot the index of Node48 names holds a child, no two
    bytes name the same slot, and [count] is the number of slots in use. *)
Definition layout_ok {C} (n : Node (ChildStorage C)) : Prop :=
  match derived n with
  | Storage4 key child =>
      type n = N4 /\ length key = length child /\ NoDup key
  | Storage16 key child =>
      type n = N16 /\ length key = length child /\
      StronglySorted byte_lt key
  | Storage48 idx slots =>
      type n = N48 /\ length idx = 256%nat /\ length slots = 48%nat /\
      count n = Z.of_nat (occupied slots) /\
      (forall i s, idx !! i = Some (Some s) -> is_Some (mjoin (slots !! s))) /\
      (forall i j s,
         idx !! i = Some (Some s) -> idx !! j = Some (Some s) -> i = j)
  | Storage256 child =>
      type n = N256 /\ length child = 256%nat
  end.

(** A node is well formed when its layout is, [count] is the number of its
    (byte, child) pairs, and [count] is within the capacity of the
    variant. *)
Definition wf_node {C} (n : Node (ChildStorage C)) : Prop :=
  layout_ok n /\
  count n = Z.of_nat (length (entries n)) /\
  count n <= capacity (type n).

(** The variant that follows a variant. *)
Definition next_type (t : NodeType) : NodeType :=
  match t with
  | N4 => N16
  | N16 => N48
  | _ => N256
  end.

(** What the insertion of the pair (b, c) into a node [n] that lacks the
    byte [b] gives: a well-formed node that has the pairs of [n] and the new
    one, the prefix of [n], and the variant of [n] unless [n] was full. *)
Definition inserted {C} (art : ART) (n : Node (ChildStorage C)) (b : byte)
    (c : C) (r : Outcome (Node (ChildStorage C))) : Prop :=
  exists n',
    r = Returned n' /\
    wf_node n' /\
    (forall b', GetChild n' b' =
                if decide (b' = b) then Some c else GetChild n b') /\
    entries n' ≡ₚ (b, c) :: entries n /\
    prefix_length n' = prefix_length n /\
    stored_prefix art n' = stored_prefix art n /\
    Node_allocated art n' /\
    count n' = count n + 1 /\
    type n' = if count n <? capacity (type n) then type n
              else next_type (type n).

(** ** Well-formed trees *)

Section WfTree.
Variable art : ART.
(** The keys the leaves may hold. *)
Variable holds : Key -> Prop.

(** A tree below the path of bytes that leads to it: every leaf key
    starts with the path to the leaf, every inner node is well formed,
    has at least one child, and a prefix that fits the [maxPrefix] cells
    of its array. *)
Inductive wf_tree : list byte -> ARTNode -> Prop :=
| wf_leaf (path : list byte) (key : Key) (rows : list RowId) :
    holds key -> path `prefix_of` key -> rows <> [] ->
    wf_tree path (LeafNode key rows)
| wf_inner (path : list byte) (n : Node (ChildStorage ARTNode)) :
    wf_node n -> Node_allocated art n ->
    0 <= prefix_length n <= maxPrefix art ->
    0 < count n ->
    (forall b c, GetChild n b = Some c ->
                 wf_tree (path ++ stored_prefix art n ++ [b]) c) ->
    wf_tree path (InnerNode n).
End WfTree.



(** [k] does not end before it parts from [k']: it is not a proper prefix
    of [k']. *)
Definition outlasts (k k' : Key) : Prop :=
  k = k' \/ (common_span k k' < length k)%nat.

(** The length of a key and the prefix capacity together fit a
    [uint64_t]. *)
Definition Key_fits (art : ART) (k : Key) : Prop :=
  Z.of_nat (length k) + maxPrefix art < 2 ^ 64.

(** The state of a tree into which the pairs of [done] were inserted. *)
Definition tree_inv (art : ART) (done : list (Key * RowId))
    (root : option ARTNode) : Prop :=
  match root with
  | None => done = []
  | Some t => wf_tree art (fun k => k ∈ done.*1) [] t
  end /\
  forall k, Key_fits art k -> (forall k', k' ∈ done.*1 -> outlasts k k') ->
    ART_Search art root k = Returned (rows_of k done).


(** ** Sample data *)

Module Samples.
Local Open Scope byte_scope.

Definition key_of (s : string) : Key := String.list_byte_of_string s.

(** Unwritten prefix cells hold zero bytes. *)
Definition zeroes : nat -> byte := fun _ => "000".

Definition art4 : ART := mkART 4.
Definition art1 : ART := mkART 1.

(** The scenario of the specification: "ab", "ac" and "b" with the row
    identifiers 1, 2 and 3. *)
Definition abc_pairs : list (Key * RowId) :=
  [(key_of "ab", 1); (key_of "ac", 2); (key_of "b", 3)].

Definition root_of (r : Outcome (list InsertStatus * option ARTNode))
    : option ARTNode :=
  match r with
  | Returned (_, root) => root
  | _ => None
  end.

Definition abc_root : option ARTNode :=
  Eval vm_compute in root_of (insert_all zeroes art4 false None abc_pairs).

(** Two keys that share two bytes, in a tree whose nodes store one
    prefix byte. *)
Definition aa_pairs : list (Key * RowId) :=
  [(key_of "aab", 1); (key_of "aac", 2)].

Definition aa_root : option ARTNode :=
  Some (InnerNode
          (mkNode 2 2 N4 ["a"]
             (Storage4 ["b"; "c"]
                [LeafNode (key_of "aab") [1]; LeafNode (key_of "aac") [2]]))).

(** A node with the prefix "ab" and no children. *)
Definition ab_node : Node (ChildStorage ARTNode) :=
  mkNode 2 0 N4 ["a"; "b"; "000"; "000"] (Storage4 [] []).

(** A Node4 with four children. *)
Definition full_Node4 : Node (ChildStorage ARTNode) :=
  mkNode 0 4 N4 ["000"; "000"; "000"; "000"]
    (Storage4 ["a"; "b"; "c"; "d"]
       [LeafNode (key_of "a") [1]; LeafNode (key_of "b") [2];
        LeafNode (key_of "c") [3]; LeafNode (key_of "d") [4]]).

(** A node whose tag is none of the four. *)
Definition odd_node : Node (ChildStorage ARTNode) :=
  mkNode 0 0 (NUnknown 4) ["000"; "000"; "000"; "000"] (Storage4 [] []).

Definition leaf_e : ARTNode := LeafNode (key_of "e") [5].

(** A Node256 with the children 0 to 63. *)
Definition Node256_64 : Node (ChildStorage nat) :=
  mkNode 0 64 N256 ["000"]
    (Storage256 ((Some <$> seq 0 64) ++ replicate 192 None)).

(** A Node256 with the children 0 to 47. *)
Definition Node256_48 : Node (ChildStorage nat) :=
  mkNode 0 48 N256 ["000"]
    (Storage256 ((Some <$> seq 0 48) ++ replicate 208 None)).

(** Two nodes in a store. *)
Definition two_nodes : gmap Z (Node (ChildStorage ARTNode)) :=
  <[2 := full_Node4]> {[1 := ab_node]}.
End Samples.

(** ** More sample data *)

Module MoreSamples.
Import Samples.
Local Open Scope byte_scope.

(** A Node16 with the prefix "ab", other bytes behind it, and a subclass
    part of another type. *)
Definition ab_Node16 : Node unit :=
  mkNode 2 7 N16 ["a"; "b"; "q"; "r"] tt.

(** [full_Node4] with the prefix of [ab_node] copied over its own. *)
Definition full_Node4_ab : Node (ChildStorage ARTNode) :=
  mkNode 2 4 N4 ["a"; "b"; "000"; "000"] (derived full_Node4).

(** Three nodes in a store. *)
Definition three_nodes : gmap Z (Node (ChildStorage ARTNode)) :=
  <[3 := odd_node]> two_nodes.
End MoreSamples.

(** * The binary executor
      (include/duckdb/common/vector_operations/binary_executor.hpp)

    [BinaryExecutor] applies a binary operation to two vectors row by row
    ([Execute]) or collects the rows on which a comparison holds
    ([Select]). The vectors are three objects with buffers of their own,
    passed by value and returned when written; the address checks of
    [ASSERT_RESTRICT] between an operand array and the result array hold
    for them. *)

(** [a[i]] read and [a[i] = v] on a C array. *)
Definition array_get {A} (a : list A) (i : Z) : Outcome A :=
  defined (array_at a i).

Definition array_set {A} (a : list A) (i : Z) (v : A) : Outcome (list A) :=
  if (0 <=? i) && (i <? Z.of_nat (length a))
  then Returned (<[Z.to_nat i := v]> a)
  else Undefined.

(** [for (idx_t i = 0; i < count; i++) body], the body acting on the state
    the loop changes; [for_from] is the loop from [i] on with [todo]
    iterations left. *)
Fixpoint for_from {St} (body : Z -> St -> Outcome St) (i : Z) (todo : nat)
    (s : St) : Outcome St :=
  match todo with
  | O => mret s
  | S todo' => s' ← body i s; for_from body (i + 1) todo' s'
  end.

Definition for_loop {St} (count : Z) (body : Z -> St -> Outcome St) (s : St)
    : Outcome St :=
  for_from body 0 (Z.to_nat count) s.

Module BinaryExecutor.

(** ** Vectors *)

(** [nullmask_t], a [std::bitset] with a bit for every row of a vector: a
    set bit says that the row is NULL. *)
Notation nullmask_t := (list bool) (only parsing).

(** [nullmask.any()] *)
Definition nullmask_any (m : nullmask_t) : bool := existsb id m.

(** [a | b] *)
Definition nullmask_or (a b : nullmask_t) : nullmask_t := zip_with orb a b.

(** [SelectionVector]: the array of row indices it points to;
    [get_index(i)] reads cell [i], [set_index(idx, loc)] writes [loc] to
    cell [idx]. *)
Notation SelectionVector := (list Z) (only parsing).

Definition get_index (sel : SelectionVector) (i : Z) : Outcome Z :=
  array_get sel i.

Definition set_index (sel : SelectionVector) (idx loc : Z)
    : Outcome SelectionVector :=
  array_set sel idx loc.

(** [enum class VectorType]: the two types the executor names, and every
    other one. *)
Inductive VectorType :=
| FLAT_VECTOR
| CONSTANT_VECTOR
| OtherVectorType (raw : Z).

#[global] Instance VectorType_eq_dec : EqDecision VectorType.
Proof. solve_decision. Defined.

(** [class Vector], as the executor uses it: the type of the vector, its
    nullmask, the buffer [GetData()] points to, seen as an array of the
    type the caller casts it to, and the number of rows [size()]. *)
Record Vector (A : Type) := mkVector {
  vector_type : VectorType;
  nullmask : list bool;
  data : list A;
  size : Z
}.

Arguments mkVector {A} vector_type nullmask data size.
Arguments vector_type {A} v.
Arguments nullmask {A} v.
Arguments data {A} v.
Arguments size {A} v.

Definition with_vector_type {A} (v : Vector A) (t : VectorType) : Vector A :=
  mkVector t (nullmask v) (data v) (size v).

Definition with_nullmask {A} (v : Vector A) (m : nullmask_t) : Vector A :=
  mkVector (vector_type v) m (data v) (size v).

Definition with_data {A} (v : Vector A) (d : list A) : Vector A :=
  mkVector (vector_type v) (nullmask v) d (size v).

(** ** The operator wrappers

    [OPWRAPPER::Operation<FUNC, OP, ...>(fun, left, right, nullmask, idx)]:
    each of the three wrappers hands [left] and [right] to the operator
    [OP::Operation] or to the function object [fun], and leaves the
    nullmask and the row index alone. Operators and function objects are
    functions of their two arguments. *)

(** [DefaultNullCheckOperator::Operation] *)
Definition DefaultNullCheckOperator {L R} (left : L) (right : R) : bool :=
  false.

Definition BinaryStandardOperatorWrapper {L R T F} (OP : L -> R -> T)
    (fun_ : F) (left : L) (right : R) (nullmask : nullmask_t) (idx : Z) : T :=
  OP left right.

Definition BinarySingleArgumentOperatorWrapper {L R T F} (OP : L -> R -> T)
    (fun_ : F) (left : L) (right : R) (nullmask : nullmask_t) (idx : Z) : T :=
  OP left right.

Definition BinaryLambdaWrapper {L R T O} (OP : O) (fun_ : L -> R -> T)
    (left : L) (right : R) (nullmask : nullmask_t) (idx : Z) : T :=
  fun_ left right.

Section Executor.
(** Two methods of [Vector] the executor calls and this header does not
    define: [SameCardinality], and [Orrify], which hands out a selection
    vector and a data pointer for a vector of any type and may change the
    vector on the way. *)
Variable SameCardinality : forall A B, Vector A -> Vector B -> bool.
Variable Orrify :
  forall A, Vector A -> Outcome (Vector A * list Z * list A).

(** ** Execute *)

Section Execute.
Context {L R T : Type}.
(** The wrapper's [Operation] with [OP] and [fun] in place. *)
Variable Operation : L -> R -> list bool -> Z -> T.

Definition ExecuteFlatLoop (IGNORE_NULL LEFT_CONSTANT RIGHT_CONSTANT : bool)
    (ldata : list L) (rdata : list R) (result_data : list T) (count : Z)
    (nullmask : nullmask_t) : Outcome (list T) :=
  (* if (!LEFT_CONSTANT) ASSERT_RESTRICT(ldata, ldata + count, ...);
     if (!RIGHT_CONSTANT) ASSERT_RESTRICT(rdata, rdata + count, ...):
     the operand arrays and the result array are objects of their own *)
  if IGNORE_NULL && nullmask_any nullmask then
    for_loop count (fun i result_data =>
      null ← array_get nullmask i;
      if negb null then
        lentry ← array_get ldata (if LEFT_CONSTANT then 0 else i);
        rentry ← array_get rdata (if RIGHT_CONSTANT then 0 else i);
        array_set result_data i (Operation lentry rentry nullmask i)
      else mret result_data) result_data
  else
    for_loop count (fun i result_data =>
      lentry ← array_get ldata (if LEFT_CONSTANT then 0 else i);
      rentry ← array_get rdata (if RIGHT_CONSTANT then 0 else i);
      array_set result_data i (Operation lentry rentry nullmask i))
      result_data.

Definition ExecuteConstant (IGNORE_NULL : bool) (left : Vector L)
    (right : Vector R) (result : Vector T) : Outcome (Vector T) :=
  let ldata := data left in
  let rdata := data right in
  let result_data := data result in
  let result := with_vector_type result CONSTANT_VECTOR in
  (* left.nullmask[0] || right.nullmask[0] *)
  lnull ← array_get (nullmask left) 0;
  null ← (if lnull : bool then Returned true
          else array_get (nullmask right) 0);
  if null : bool then
    m ← array_set (nullmask result) 0 true;
    mret (with_nullmask result m)
  else
    lentry ← array_get ldata 0;
    rentry ← array_get rdata 0;
    d ← array_set result_data 0
          (Operation lentry rentry (nullmask result) 0);
    mret (with_data result d).

Definition ExecuteFlat (IGNORE_NULL LEFT_CONSTANT RIGHT_CONSTANT : bool)
    (left : Vector L) (right : Vector R) (result : Vector T)
    : Outcome (Vector T) :=
  let ldata := data left in
  let rdata := data right in
  let result_data := data result in
  (* (LEFT_CONSTANT && left.nullmask[0]) ||
     (RIGHT_CONSTANT && right.nullmask[0]) *)
  lnull ← (if LEFT_CONSTANT then array_get (nullmask left) 0
           else Returned false);
  null ← (if lnull : bool then Returned true
          else if RIGHT_CONSTANT then array_get (nullmask right) 0
          else Returned false);
  if null : bool then
    let result := with_vector_type result CONSTANT_VECTOR in
    m ← array_set (nullmask result) 0 true;
    mret (with_nullmask result m)
  else
    let result := with_vector_type result FLAT_VECTOR in
    let result :=
      if LEFT_CONSTANT then with_nullmask result (nullmask right)
      else if RIGHT_CONSTANT then with_nullmask result (nullmask left)
      else with_nullmask result
             (nullmask_or (nullmask left) (nullmask right)) in
    d ← ExecuteFlatLoop IGNORE_NULL LEFT_CONSTANT RIGHT_CONSTANT
          ldata rdata result_data (size result) (nullmask result);
    mret (with_data result d).

(** The loop writes the result array and the result nullmask. *)
Definition ExecuteGenericLoop (IGNORE_NULL : bool) (ldata : list L)
    (rdata : list R) (result_data : list T) (lsel rsel : SelectionVector)
    (count : Z) (lnullmask rnullmask result_nullmask : nullmask_t)
    : Outcome (list T * list bool) :=
  if nullmask_any lnullmask || nullmask_any rnullmask then
    for_loop count (fun i '(result_data, result_nullmask) =>
      lindex ← get_index lsel i;
      rindex ← get_index rsel i;
      (* !lnullmask[lindex] && !rnullmask[rindex] *)
      lnull ← array_get lnullmask lindex;
      valid ← (if negb lnull
               then rnull ← array_get rnullmask rindex; Returned (negb rnull)
               else Returned false);
      if valid : bool then
        lentry ← array_get ldata lindex;
        rentry ← array_get rdata rindex;
        d ← array_set result_data i
              (Operation lentry rentry result_nullmask i);
        mret (d, result_nullmask)
      else
        m ← array_set result_nullmask i true;
        mret (result_data, m)) (result_data, result_nullmask)
  else
    for_loop count (fun i '(result_data, result_nullmask) =>
      lindex ← get_index lsel i;
      lentry ← array_get ldata lindex;
      rindex ← get_index rsel i;
      rentry ← array_get rdata rindex;
      d ← array_set result_data i
            (Operation lentry rentry result_nullmask i);
      mret (d, result_nullmask)) (result_data, result_nullmask).

Definition ExecuteGeneric (IGNORE_NULL : bool) (left : Vector L)
    (right : Vector R) (result : Vector T) : Outcome (Vector T) :=
  '(left, lsel, ldata) ← Orrify L left;
  '(right, rsel, rdata) ← Orrify R right;
  let result := with_vector_type result FLAT_VECTOR in
  '(d, m) ← ExecuteGenericLoop IGNORE_NULL ldata rdata (data result)
              lsel rsel (size result) (nullmask left) (nullmask right)
              (nullmask result);
  mret (with_nullmask (with_data result d) m).

Definition ExecuteSwitch (IGNORE_NULL : bool) (left : Vector L)
    (right : Vector R) (result : Vector T) : Outcome (Vector T) :=
  if negb (SameCardinality L R left right &&
           SameCardinality L T left result) then AssertFailed
  else if bool_decide (vector_type left = CONSTANT_VECTOR) &&
          bool_decide (vector_type right = CONSTANT_VECTOR) then
    ExecuteConstant IGNORE_NULL left right result
  else if bool_decide (vector_type left = FLAT_VECTOR) &&
          bool_decide (vector_type right = CONSTANT_VECTOR) then
    ExecuteFlat IGNORE_NULL false true left right result
  else if bool_decide (vector_type left = CONSTANT_VECTOR) &&
          bool_decide (vector_type right = FLAT_VECTOR) then
    ExecuteFlat IGNORE_NULL true false left right result
  else if bool_decide (vector_type left = FLAT_VECTOR) &&
          bool_decide (vector_type right = FLAT_VECTOR) then
    ExecuteFlat IGNORE_NULL false false left right result
  else
    ExecuteGeneric IGNORE_NULL left right result.
End Execute.

(** The three public entry points: [Execute] with a function object,
    [Execute] with an operator and a wrapper, [ExecuteStandard]. *)
Definition Execute {L R T} (IGNORE_NULL : bool) (left : Vector L)
    (right : Vector R) (result : Vector T) (fun_ : L -> R -> T)
    : Outcome (Vector T) :=
  ExecuteSwitch (BinaryLambdaWrapper bool fun_) IGNORE_NULL left right result.

Definition Execute_OP {L R T} (OP : L -> R -> T) (IGNORE_NULL : bool)
    (OPWRAPPER : (L -> R -> T) -> bool -> L -> R -> list bool -> Z -> T)
    (left : Vector L) (right : Vector R) (result : Vector T)
    : Outcome (Vector T) :=
  ExecuteSwitch (OPWRAPPER OP false) IGNORE_NULL left right result.

Definition ExecuteStandard {L R T} (OP : L -> R -> T) (IGNORE_NULL : bool)
    (left : Vector L) (right : Vector R) (result : Vector T)
    : Outcome (Vector T) :=
  ExecuteSwitch (BinaryStandardOperatorWrapper OP false) IGNORE_NULL
    left right result.

(** ** Select *)

Section Select.
Context {L R : Type}.
(** [OP::Operation], a comparison. *)
Variable OP : L -> R -> bool.

(** The selection vector is not written: the result says only whether no
    row or every row is selected. *)
Definition SelectConstant (left : Vector L) (right : Vector R)
    (result : SelectionVector) : Outcome (SelectionVector * Z) :=
  let ldata := data left in
  let rdata := data right in
  (* left.nullmask[0] || right.nullmask[0] ||
     !OP::Operation(ldata[0], rdata[0]) *)
  lnull ← array_get (nullmask left) 0;
  null ← (if lnull : bool then Returned true
          else array_get (nullmask right) 0);
  none ← (if null : bool then Returned true
          else lentry ← array_get ldata 0;
               rentry ← array_get rdata 0;
               Returned (negb (OP lentry rentry)));
  if none : bool then mret (result, 0) else mret (result, size left).

(** The loop state: the selection vector and [result_count]. *)
Definition SelectFlatLoop (LEFT_CONSTANT RIGHT_CONSTANT : bool)
    (ldata : list L) (rdata : list R) (result : SelectionVector)
    (count : Z) (nullmask : nullmask_t) : Outcome (SelectionVector * Z) :=
  let result_count := 0 in
  if nullmask_any nullmask then
    for_loop count (fun i '(result, result_count) =>
      null ← array_get nullmask i;
      if negb null then
        lentry ← array_get ldata (if LEFT_CONSTANT then 0 else i);
        rentry ← array_get rdata (if RIGHT_CONSTANT then 0 else i);
        if OP lentry rentry then
          result ← set_index result result_count i;
          mret (result, wrap 64 (result_count + 1))
        else mret (result, result_count)
      else mret (result, result_count)) (result, result_count)
  else
    for_loop count (fun i '(result, result_count) =>
      lentry ← array_get ldata (if LEFT_CONSTANT then 0 else i);
      rentry ← array_get rdata (if RIGHT_CONSTANT then 0 else i);
      if OP lentry rentry then
        result ← set_index result result_count i;
        mret (result, wrap 64 (result_count + 1))
      else mret (result, result_count)) (result, result_count).

Definition SelectFlat (LEFT_CONSTANT RIGHT_CONSTANT : bool)
    (left : Vector L) (right : Vector R) (result : SelectionVector)
    : Outcome (SelectionVector * Z) :=
  let ldata := data left in
  let rdata := data right in
  lnull ← (if LEFT_CONSTANT then array_get (nullmask left) 0
           else Returned false);
  if lnull : bool then mret (result, 0)
  else
    rnull ← (if RIGHT_CONSTANT then array_get (nullmask right) 0
             else Returned false);
    if rnull : bool then mret (result, 0)
    else if LEFT_CONSTANT then
      SelectFlatLoop LEFT_CONSTANT RIGHT_CONSTANT ldata rdata result
        (size left) (nullmask right)
    else if RIGHT_CONSTANT then
      SelectFlatLoop LEFT_CONSTANT RIGHT_CONSTANT ldata rdata result
        (size left) (nullmask left)
    else
      let nullmask := nullmask_or (nullmask left) (nullmask right) in
      SelectFlatLoop LEFT_CONSTANT RIGHT_CONSTANT ldata rdata result
        (size left) nullmask.

Definition SelectGenericLoop (ldata : list L) (rdata : list R)
    (lsel rsel : SelectionVector) (count : Z)
    (lnullmask rnullmask : nullmask_t) (result : SelectionVector)
    : Outcome (SelectionVector * Z) :=
  let result_count := 0 in
  if nullmask_any lnullmask || nullmask_any rnullmask then
    for_loop count (fun i '(result, result_count) =>
      lindex ← get_index lsel i;
      rindex ← get_index rsel i;
      (* !lnullmask[lindex] && !rnullmask[rindex] *)
      lnull ← array_get lnullmask lindex;
      valid ← (if negb lnull
               then rnull ← array_get rnullmask rindex; Returned (negb rnull)
               else Returned false);
      if valid : bool then
        lentry ← array_get ldata lindex;
        rentry ← array_get rdata rindex;
        if OP lentry rentry then
          result ← set_index result result_count i;
          mret (result, wrap 64 (result_count + 1))
        else mret (result, result_count)
      else mret (result, result_count)) (result, result_count)
  else
    for_loop count (fun i '(result, result_count) =>
      lindex ← get_index lsel i;
      lentry ← array_get ldata lindex;
      rindex ← get_index rsel i;
      rentry ← array_get rdata rindex;
      if OP lentry rentry then
        result ← set_index result result_count i;
        mret (result, wrap 64 (result_count + 1))
      else mret (result, result_count)) (result, result_count).

(** [SelectGeneric] runs the loop and ends without a [return] statement:
    control flows off the end of a function that returns a value. *)
Definition SelectGeneric (left : Vector L) (right : Vector R)
    (result : SelectionVector) : Outcome (SelectionVector * Z) :=
  '(left, lsel, ldata) ← Orrify L left;
  '(right, rsel, rdata) ← Orrify R right;
  _ ← SelectGenericLoop ldata rdata lsel rsel (size left)
        (nullmask left) (nullmask right) result;
  Undefined.

Definition Select (left : Vector L) (right : Vector R)
    (result : SelectionVector) : Outcome (SelectionVector * Z) :=
  if negb (SameCardinality L R left right) then AssertFailed
  else if bool_decide (vector_type left = CONSTANT_VECTOR) &&
          bool_decide (vector_type right = CONSTANT_VECTOR) then
    SelectConstant left right result
  else if bool_decide (vector_type left = CONSTANT_VECTOR) &&
          bool_decide (vector_type right = FLAT_VECTOR) then
    SelectFlat true false left right result
  else if bool_decide (vector_type left = FLAT_VECTOR) &&
          bool_decide (vector_type right = CONSTANT_VECTOR) then
    SelectFlat false true left right result
  else if bool_decide (vector_type left = FLAT_VECTOR) &&
          bool_decide (vector_type right = FLAT_VECTOR) then
    SelectFlat false false left right result
  else
    SelectGeneric left right result.
End Select.
End Executor.

(** ** Predicates of the statements *)

(** The cell a flat loop reads for row [i]: cell 0 of a constant operand,
    cell [i] otherwise. *)
Definition entry {A} (CONSTANT : bool) (a : list A) (i : Z) : option A :=
  array_at a (if CONSTANT then 0 else i).

(** An operand array has the cells a flat loop over [count] rows reads. *)
Definition readable {A} (CONSTANT : bool) (a : list A) (count : Z) : Prop :=
  if CONSTANT then 0 < Z.of_nat (length a) else count <= Z.of_nat (length a).

(** The nullmask a flat execution gives the result and tests the rows
    with. *)
Definition flat_nullmask {L R} (LEFT_CONSTANT RIGHT_CONSTANT : bool)
    (left : Vector L) (right : Vector R) : list bool :=
  if LEFT_CONSTANT then nullmask right
  else if RIGHT_CONSTANT then nullmask left
  else nullmask_or (nullmask left) (nullmask right).

(** Row [i] is one a flat selection takes: it is not NULL and the
    comparison holds on its entries. *)
Definition row_selected {L R} (OP : L -> R -> bool)
    (LEFT_CONSTANT RIGHT_CONSTANT : bool) (ldata : list L) (rdata : list R)
    (nullmask : list bool) (i : Z) : bool :=
  match array_at nullmask i,
        entry LEFT_CONSTANT ldata i, entry RIGHT_CONSTANT rdata i with
  | Some false, Some l, Some r => OP l r
  | _, _, _ => false
  end.

(** Row [i] is one a generic selection takes: the cells the two selection
    vectors name for it are not NULL and the comparison holds on them. *)
Definition row_selected_generic {L R} (OP : L -> R -> bool)
    (ldata : list L) (rdata : list R) (lsel rsel : list Z)
    (lnullmask rnullmask : list bool) (i : Z) : bool :=
  match array_at lsel i, array_at rsel i with
  | Some lindex, Some rindex =>
      match array_at lnullmask lindex, array_at rnullmask rindex,
            array_at ldata lindex, array_at rdata rindex with
      | Some false, Some false, Some l, Some r => OP l r
      | _, _, _, _ => false
      end
  | _, _ => false
  end.

(** The rows below [count] that a selection takes, in order. *)
Definition selected_rows (selected : Z -> bool) (count : Z) : list Z :=
  filter (fun i => selected i = true) (seqZ 0 count).
End BinaryExecutor.

(** ** Sample vectors *)

Module ExecutorSamples.
Import BinaryExecutor.

(** Vectors of the same size have the same cardinality. *)
Definition same_size : forall A B, Vector A -> Vector B -> bool :=
  fun _ _ l r => size l =? size r.

(** [Orrify] on a vector whose rows are its cells in order. *)
Definition in_order
    : forall A, Vector A -> Outcome (Vector A * list Z * list A) :=
  fun _ v => Returned (v, seqZ 0 (size v), data v).

(** Three rows, the second one NULL on the left. *)
Definition left3 : Vector Z :=
  mkVector FLAT_VECTOR [false; true; false; false] [5; 7; 2; 0] 3.

Definition right3 : Vector Z :=
  mkVector FLAT_VECTOR [false; false; false; false] [1; 9; 4; 0] 3.

Definition result3 : Vector Z :=
  mkVector FLAT_VECTOR [false; false; false; false] [0; 0; 0; 0] 3.

(** The constant 3, and the constant NULL. *)
Definition constant3 : Vector Z :=
  mkVector CONSTANT_VECTOR [false; false; false; false] [3] 3.

Definition constant_NULL : Vector Z :=
  mkVector CONSTANT_VECTOR [true; false; false; false] [0] 3.

(** A vector of another type. *)
Definition other3 : Vector Z :=
  mkVector (OtherVectorType 2) [false; false; false; false] [5; 7; 2; 0] 3.

(** Addition through the lambda wrapper. *)
Definition plus : Z -> Z -> list bool -> Z -> Z :=
  BinaryLambdaWrapper bool Z.add.

(** A selection vector with four cells. *)
Definition sel4 : list Z := [0; 0; 0; 0].
End ExecutorSamples.
(** * Properties of the node header operations *)

(** ** Outcomes *)

Lemma array_at_Some {A} (a : list A) (i : Z) :
  0 <= i < Z.of_nat (length a) -> is_Some (array_at a i).
Proof.
  intros Hi. unfold array_at.
  destruct (Z.ltb_spec i 0); [lia|].
  apply lookup_lt_is_Some. lia.
Qed.

Lemma wrap_small (w z : Z) : uint_range w z -> wrap w z = z.
Proof. unfold uint_range, wrap. intros. apply Z.mod_small. lia. Qed.

(** ** The prefix buffer of a constructed node *)

Lemma Node_new_allocated {D} art ty fresh (d : D) :
  0 <= maxPrefix art -> Node_allocated art (Node_new art ty fresh d).
Proof.
  intros H. unfold Node_allocated, Node_new. simpl.
  rewrite length_fmap, length_seq. lia.
Qed.

(** ** PrefixMismatch: the loop *)

(** The reads of the loop, whatever the sizes of the arrays: iteration
    [pos] reads [key[depth + pos]] (a 64-bit sum) and [prefix[pos]]. *)
Lemma PrefixMismatch_loop_trace {D} (node : Node D) key depth todo :
  forall pos a,
    a ∈ trace (PrefixMismatch_loop node key depth pos todo) ->
    exists p, pos <= p < pos + Z.of_nat todo /\
      (a = KeyRead (wrap 64 (depth + p)) \/ a = PrefixRead p).
Proof.
  induction todo as [|todo IH]; intros pos a Ha.
  - simpl in Ha. inversion Ha.
  - simpl in Ha. unfold mbind, Exec_bind in Ha. simpl in Ha.
    destruct (array_at key (wrap 64 (depth + pos))) as [k|]; simpl in Ha.
    2:{ apply list_elem_of_singleton in Ha. exists pos. split; [lia|auto]. }
    destruct (array_at (prefix node) pos) as [p|]; simpl in Ha.
    2:{ exists pos. split; [lia|].
        apply elem_of_cons in Ha as [->|Ha]; [auto|].
        apply list_elem_of_singleton in Ha. auto. }
    apply elem_of_cons in Ha as [->|Ha]; [exists pos; split; [lia|auto]|].
    apply elem_of_cons in Ha as [->|Ha]; [exists pos; split; [lia|auto]|].
    destruct (bool_decide (k ≠ p)); simpl in Ha; [inversion Ha|].
    apply IH in Ha as (q & Hq & Hor). exists q. split; [lia|exact Hor].
Qed.

(** The loop never throws and never fails an assertion. *)
Lemma PrefixMismatch_loop_no_throw {D} (node : Node D) key depth todo :
  forall pos,
    (forall e, outcome (PrefixMismatch_loop node key depth pos todo)
               <> Thrown e) /\
    outcome (PrefixMismatch_loop node key depth pos todo) <> AssertFailed.
Proof.
  induction todo as [|todo IH]; intros pos.
  - simpl. split; [intros e|]; discriminate.
  - simpl. unfold mbind, Exec_bind. simpl.
    destruct (array_at key (wrap 64 (depth + pos))) as [k|]; simpl.
    2:{ split; [intros e|]; discriminate. }
    destruct (array_at (prefix node) pos) as [p|]; simpl.
    2:{ split; [intros e|]; discriminate. }
    destruct (bool_decide (k ≠ p)); simpl.
    + split; [intros e|]; discriminate.
    + apply IH.
Qed.

(** With the arrays long enough the loop returns the first offset at which
    key and prefix differ, or the prefix length. *)
Lemma PrefixMismatch_loop_returns {D} (node : Node D) key depth todo :
  forall pos,
    0 <= pos -> 0 <= depth ->
    pos + Z.of_nat todo = prefix_length node ->
    prefix_length node < 2 ^ 32 ->
    depth + prefix_length node <= Z.of_nat (length key) ->
    Z.of_nat (length key) <= 2 ^ 64 ->
    prefix_length node <= Z.of_nat (length (prefix node)) ->
    exists p,
      outcome (PrefixMismatch_loop node key depth pos todo) = Returned p /\
      pos <= p <= prefix_length node /\
      (forall i, pos <= i < p ->
         array_at key (depth + i) = array_at (prefix node) i) /\
      (p < prefix_length node ->
         array_at key (depth + p) <> array_at (prefix node) p).
Proof.
  induction todo as [|todo IH];
    intros pos Hpos Hdepth Hinv Hpl Hkey Hlen Hbuf.
  - simpl. exists pos. rewrite wrap_small by (unfold uint_range; lia).
    repeat split; intros; lia.
  - simpl. unfold mbind, Exec_bind. simpl.
    rewrite (wrap_small 64 (depth + pos)) by (unfold uint_range; lia).
    destruct (array_at_Some key (depth + pos)) as [k Hk]; [lia|].
    destruct (array_at_Some (prefix node) pos) as [p Hp]; [lia|].
    rewrite Hk, Hp. simpl.
    destruct (bool_decide (k ≠ p)) eqn:Hkp; simpl.
    + apply bool_decide_eq_true in Hkp.
      exists pos. rewrite wrap_small by (unfold uint_range; lia).
      split; [reflexivity|]. split; [lia|]. split; [intros; lia|].
      intros _. rewrite Hk, Hp. congruence.
    + apply bool_decide_eq_false in Hkp.
      assert (k = p) as -> by (destruct (decide (k = p)); tauto).
      destruct (IH (pos + 1)) as (q & Hq & Hrange & Hsame & Hdiff);
        try lia.
      exists q. split; [exact Hq|]. split; [lia|]. split; [|exact Hdiff].
      intros i Hi. destruct (decide (i = pos)) as [->|Hne].
      * rewrite Hk, Hp. reflexivity.
      * apply Hsame. lia.
Qed.

(** ** PrefixMismatch *)

(** C1: for a node whose prefix_length is at most maxPrefix and a key whose
    positions depth .. depth+prefix_length-1 exist, PrefixMismatch returns
    the smallest offset p below prefix_length at which key[depth+p] differs
    from prefix[p], and prefix_length when every stored prefix byte equals
    the key byte. *)
Theorem PrefixMismatch_first_mismatch {D} (art : ART) (node : Node D)
    (key : Key) (depth : Z) :
  Node_typed node -> Node_allocated art node ->
  Key_typed key -> uint_range 64 depth ->
  prefix_length node <= maxPrefix art ->
  depth + prefix_length node <= Z.of_nat (length key) ->
  exists p,
    PrefixMismatch art node key depth = Returned p /\
    0 <= p <= prefix_length node /\
    (forall i, 0 <= i < p ->
       array_at key (depth + i) = array_at (prefix node) i) /\
    (p < prefix_length node ->
       array_at key (depth + p) <> array_at (prefix node) p).
Proof.
  intros [[Hpl0 Hpl] _] Halloc Hkey [Hd0 _] Hmax Hfit.
  unfold PrefixMismatch, PrefixMismatch_exec.
  destruct (Z.leb_spec (prefix_length node) (maxPrefix art)); [|lia].
  apply PrefixMismatch_loop_returns; unfold Key_typed in Hkey;
    unfold Node_allocated in Halloc; lia.
Qed.

(** C2: PrefixMismatch throws the not-implemented exception exactly when
    prefix_length exceeds maxPrefix; when prefix_length is at most
    maxPrefix it throws nothing, and returns (its reads being inside the
    key and the prefix array). *)
Theorem PrefixMismatch_not_implemented_iff {D} (art : ART) (node : Node D)
    (key : Key) (depth : Z) :
  ((exists e, PrefixMismatch art node key depth = Thrown e) <->
   maxPrefix art < prefix_length node) /\
  (maxPrefix art < prefix_length node ->
   PrefixMismatch art node key depth =
     Thrown (NotImplementedException "Operation not implemented")) /\
  (prefix_length node <= maxPrefix art ->
   (forall e, PrefixMismatch art node key depth <> Thrown e) /\
   PrefixMismatch art node key depth <> AssertFailed /\
   (Node_typed node -> Node_allocated art node ->
    Key_typed key -> uint_range 64 depth ->
    depth + prefix_length node <= Z.of_nat (length key) ->
    exists p, PrefixMismatch art node key depth = Returned p)).
Proof.
  unfold PrefixMismatch, PrefixMismatch_exec.
  destruct (Z.leb_spec (prefix_length node) (maxPrefix art)) as [Hle|Hgt].
  - pose proof (PrefixMismatch_loop_no_throw node key depth
                  (Z.to_nat (prefix_length node)) 0) as [Hthrow Hassert].
    split; [|split].
    + split; [intros [e He]; destruct (Hthrow e He) | lia].
    + lia.
    + intros _. split; [exact Hthrow|]. split; [exact Hassert|].
      intros [[Hpl0 Hpl] _] Halloc Hkey [Hd0 _] Hfit.
      destruct (PrefixMismatch_loop_returns node key depth
                  (Z.to_nat (prefix_length node)) 0) as (p & Hp & _);
        unfold Key_typed in Hkey; unfold Node_allocated in Halloc;
        try lia.
      exists p. exact Hp.
  - simpl. split; [|split].
    + split; [lia | eauto].
    + reflexivity.
    + lia.
Qed.

(** C10: PrefixMismatch reads key positions depth+p and prefix positions p
    for p below prefix_length only; when prefix_length <= maxPrefix and
    depth + prefix_length <= key length, every read is inside its array
    and the call returns a value between 0 and prefix_length. *)
Theorem PrefixMismatch_reads_in_bounds {D} (art : ART) (node : Node D)
    (key : Key) (depth : Z) :
  (forall a, a ∈ trace (PrefixMismatch_exec art node key depth) ->
     exists p, 0 <= p < prefix_length node /\
       (a = KeyRead (wrap 64 (depth + p)) \/ a = PrefixRead p)) /\
  (Node_typed node -> Node_allocated art node ->
   Key_typed key -> uint_range 64 depth ->
   prefix_length node <= maxPrefix art ->
   depth + prefix_length node <= Z.of_nat (length key) ->
   (forall a, a ∈ trace (PrefixMismatch_exec art node key depth) ->
      access_in_window node depth a /\ access_in_bounds node key a) /\
   exists p, PrefixMismatch art node key depth = Returned p /\
             0 <= p <= prefix_length node).
Proof.
  assert (Hreads : forall a,
    a ∈ trace (PrefixMismatch_exec art node key depth) ->
    exists p, 0 <= p < prefix_length node /\
      (a = KeyRead (wrap 64 (depth + p)) \/ a = PrefixRead p)).
  { intros a Ha. unfold PrefixMismatch_exec in Ha.
    destruct (prefix_length node <=? maxPrefix art).
    - apply PrefixMismatch_loop_trace in Ha as (p & Hp & Hor).
      exists p. split; [lia|exact Hor].
    - simpl in Ha. inversion Ha. }
  split; [exact Hreads|].
  intros Hnode Halloc Hkey Hdepth Hmax Hfit. split.
  - intros a Ha. destruct (Hreads a Ha) as (p & Hp & Hor).
    destruct Hnode as [[Hpl0 Hpl] _]. destruct Hdepth as [Hd0 _].
    unfold Key_typed in Hkey. unfold Node_allocated in Halloc.
    destruct Hor as [-> | ->]; simpl.
    + rewrite wrap_small by (unfold uint_range; lia).
      split; [lia|]. apply array_at_Some. lia.
    + split; [lia|]. apply array_at_Some. lia.
  - destruct (PrefixMismatch_first_mismatch art node key depth)
      as (p & Hp & Hrange & _); auto.
    exists p. auto.
Qed.

(** ** Node::Node *)

(** C8: a node built by the constructor has prefix_length 0 and count 0,
    whatever its type tag. *)
Theorem Node_new_empty {D} (art : ART) (ty : NodeType) (fresh : nat -> byte)
    (d : D) :
  prefix_length (Node_new art ty fresh d) = 0 /\
  count (Node_new art ty fresh d) = 0 /\
  type (Node_new art ty fresh d) = ty.
Proof. repeat split. Qed.

(** ** CopyPrefix *)

Lemma copy_bytes_Returned (dst src : list byte) (n : Z) :
  n <= Z.of_nat (length src) -> n <= Z.of_nat (length dst) ->
  copy_bytes dst src n =
    Returned (take (Z.to_nat n) src ++ drop (Z.to_nat n) dst).
Proof.
  intros Hs Hd. unfold copy_bytes.
  destruct (Z.leb_spec n (Z.of_nat (length src))); [|lia].
  destruct (Z.leb_spec n (Z.of_nat (length dst))); [|lia].
  reflexivity.
Qed.

(** The store CopyPrefix leaves behind, [src] and [dst] being two nodes. *)
Lemma CopyPrefix_Returned {D} (art : ART) (src dst : Z)
    (h : gmap Z (Node D)) (s d : Node D) :
  src <> dst ->
  h !! src = Some s -> h !! dst = Some d ->
  Z.min (prefix_length s) (maxPrefix art) <= Z.of_nat (length (prefix s)) ->
  Z.min (prefix_length s) (maxPrefix art) <= Z.of_nat (length (prefix d)) ->
  CopyPrefix art src dst h =
    Returned (<[dst :=
      mkNode (prefix_length s) (count d) (type d)
        (take (Z.to_nat (Z.min (prefix_length s) (maxPrefix art))) (prefix s)
         ++ drop (Z.to_nat (Z.min (prefix_length s) (maxPrefix art)))
              (prefix d))
        (derived d)]> h).
Proof.
  intros Hne Hs Hd Hns Hnd. unfold CopyPrefix, deref.
  rewrite Hs, Hd. simpl. rewrite lookup_insert_eq. simpl.
  rewrite lookup_insert_ne by congruence. rewrite Hs. simpl.
  unfold memcpy. rewrite bool_decide_eq_false_2 by assumption.
  cbn [andb].
  rewrite copy_bytes_Returned by assumption. simpl.
  unfold mret, Outcome_ret. f_equal.
  rewrite insert_insert_eq. reflexivity.
Qed.

(** Called with one node as both [src] and [dst], CopyPrefix hands
    [memcpy] the same array twice: as soon as there is a byte to copy the
    call is outside the defined behaviour. *)
Remark CopyPrefix_same_node {D} (art : ART) (p : Z)
    (h : gmap Z (Node D)) (s : Node D) :
  h !! p = Some s ->
  0 < Z.min (prefix_length s) (maxPrefix art) ->
  CopyPrefix art p p h = Undefined.
Proof.
  intros Hs Hn. unfold CopyPrefix, deref.
  rewrite Hs. simpl. rewrite lookup_insert_eq. simpl.
  unfold memcpy. rewrite bool_decide_eq_true_2 by reflexivity.
  destruct (Z.ltb_spec 0 (Z.min (prefix_length s) (maxPrefix art)));
    [reflexivity|lia].
Qed.

(** C3: for two nodes src and dst, CopyPrefix gives dst the prefix_length
    of src as it is, and the first min(src.prefix_length, maxPrefix) prefix
    bytes of src; the later bytes of dst stay. *)
Theorem CopyPrefix_copies {D} (art : ART) (src dst : Z)
    (h : gmap Z (Node D)) (s d : Node D) :
  src <> dst ->
  h !! src = Some s -> h !! dst = Some d ->
  Node_allocated art s -> Node_allocated art d ->
  exists h' d',
    CopyPrefix art src dst h = Returned h' /\
    h' !! dst = Some d' /\
    prefix_length d' = prefix_length s /\
    take (Z.to_nat (Z.min (prefix_length s) (maxPrefix art))) (prefix d') =
    take (Z.to_nat (Z.min (prefix_length s) (maxPrefix art))) (prefix s) /\
    drop (Z.to_nat (Z.min (prefix_length s) (maxPrefix art))) (prefix d') =
    drop (Z.to_nat (Z.min (prefix_length s) (maxPrefix art))) (prefix d).
Proof.
  intros Hne Hs Hd Has Had. unfold Node_allocated in *.
  eexists _, _. split; [apply (CopyPrefix_Returned art src dst h s d); auto; lia|].
  split; [apply lookup_insert_eq|]. simpl. split; [reflexivity|].
  set (n := Z.to_nat (Z.min (prefix_length s) (maxPrefix art))).
  assert (Hn : length (take n (prefix s)) = n)
    by (rewrite length_take; lia).
  split.
  - rewrite take_app_le by lia. rewrite take_take. f_equal. lia.
  - rewrite drop_app_ge by lia. rewrite Hn, Nat.sub_diag. reflexivity.
Qed.

(** C9: for two nodes src and dst, CopyPrefix leaves src as it was, and
    every node other than dst; of dst it changes prefix_length and the first
    min(src.prefix_length, maxPrefix) prefix bytes only: count, type tag,
    the subclass members (keys and children) and the later prefix bytes
    stay. *)
Theorem CopyPrefix_frame {D} (art : ART) (src dst : Z)
    (h : gmap Z (Node D)) (s d : Node D) :
  src <> dst ->
  h !! src = Some s -> h !! dst = Some d ->
  Node_allocated art s -> Node_allocated art d ->
  exists h' d',
    CopyPrefix art src dst h = Returned h' /\
    h' !! src = Some s /\
    (forall p, p <> dst -> h' !! p = h !! p) /\
    h' !! dst = Some d' /\
    count d' = count d /\ type d' = type d /\ derived d' = derived d /\
    length (prefix d') = length (prefix d) /\
    drop (Z.to_nat (Z.min (prefix_length s) (maxPrefix art))) (prefix d') =
    drop (Z.to_nat (Z.min (prefix_length s) (maxPrefix art))) (prefix d).
Proof.
  intros Hne Hs Hd Has Had. unfold Node_allocated in *.
  eexists _, _. split; [apply (CopyPrefix_Returned art src dst h s d); auto; lia|].
  set (n := Z.to_nat (Z.min (prefix_length s) (maxPrefix art))).
  assert (Hn : length (take n (prefix s)) = n)
    by (rewrite length_take; lia).
  split; [|split; [|split; [apply lookup_insert_eq|]]].
  - rewrite lookup_insert_ne by congruence. exact Hs.
  - intros p Hp. apply lookup_insert_ne. congruence.
  - simpl. fold n. repeat split.
    + rewrite length_app, length_drop, Hn. lia.
    + rewrite drop_app_ge by lia. rewrite Hn, Nat.sub_diag. reflexivity.
Qed.

(** ** The dispatchers *)

(** C6: on a node tagged N4, N16, N48 or N256, InsertLeaf and Erase take the
    case of the tag, never the default branch, and are the routine of the
    variant; on any other tag both stop at the assertion of the default
    branch, which is neither a return nor an exception. *)
Theorem dispatch_default_branch {D C}
    (i4 i16 i48 i256 : ART -> Node D -> byte -> C -> Outcome (Node D))
    (e4 e16 e48 e256 : ART -> Node D -> Z -> Outcome (Node D))
    (art : ART) (node : Node D) (key : byte) (newNode : C) (pos : Z) :
  (type node ∈ [N4; N16; N48; N256] ->
   switch_type (type node) <> CaseDefault /\
   InsertLeaf i4 i16 i48 i256 art node key newNode =
     match type node with
     | N4 => i4 art node key newNode
     | N16 => i16 art node key newNode
     | N48 => i48 art node key newNode
     | _ => i256 art node key newNode
     end /\
   Erase e4 e16 e48 e256 art node pos =
     match type node with
     | N4 => e4 art node pos
     | N16 => e16 art node pos
     | N48 => e48 art node pos
     | _ => e256 art node pos
     end) /\
  (type node ∉ [N4; N16; N48; N256] ->
   switch_type (type node) = CaseDefault /\
   InsertLeaf i4 i16 i48 i256 art node key newNode = AssertFailed /\
   Erase e4 e16 e48 e256 art node pos = AssertFailed).
Proof.
  unfold InsertLeaf, Erase. split.
  - intros Hin. destruct (type node); simpl; try (split; [discriminate|auto]).
    exfalso. apply list_elem_of_In in Hin. simpl in Hin.
    intuition discriminate.
  - intros Hnot.
    destruct (type node); simpl;
      try solve [exfalso; apply Hnot; repeat constructor].
    auto.
Qed.

(** * The common span of two byte sequences *)




Lemma common_span_take (a b : list byte) :
  take (common_span a b) a = take (common_span a b) b.
Proof.
  revert b. induction a as [|x a IH]; intros [|y b]; simpl; try reflexivity.
  destruct (decide (x = y)) as [->|]; simpl; [|reflexivity].
  f_equal. apply IH.
Qed.


Lemma common_span_app (p a b : list byte) :
  common_span (p ++ a) (p ++ b) = (length p + common_span a b)%nat.
Proof.
  induction p as [|x p IH]; simpl; [reflexivity|].
  destruct (decide (x = x)); [|congruence]. f_equal. exact IH.
Qed.

Lemma common_span_prefix (p b : list byte) :
  p `prefix_of` b -> common_span p b = length p.
Proof.
  intros [k ->]. rewrite <- (app_nil_r p) at 1.
  rewrite common_span_app. simpl. destruct k; simpl; lia.
Qed.

(** The span is the first position at which the sequences stop agreeing. *)
Lemma common_span_unique (a b : list byte) (m : nat) :
  take m a = take m b -> (m <= length a)%nat -> (m <= length b)%nat ->
  (m = length a \/ m = length b \/ a !! m <> b !! m) ->
  common_span a b = m.
Proof.
  revert b m. induction a as [|x a IH]; intros [|y b] [|m]; simpl;
    intros Htake Ha Hb Hstop; try lia; try reflexivity.
  - destruct (decide (x = y)) as [->|]; [|reflexivity].
    destruct Hstop as [|[|Hne]]; try lia. congruence.
  - injection Htake as -> Htake.
    destruct (decide (y = y)); [|congruence]. f_equal.
    apply IH; try lia; [exact Htake|].
    destruct Hstop as [|[|Hne]]; [left|right; left|right; right]; try lia.
    exact Hne.
Qed.


(** ** PrefixMismatch as a common span *)

Lemma array_at_lookup {A} (a : list A) (i : nat) :
  array_at a (Z.of_nat i) = a !! i.
Proof.
  unfold array_at. destruct (Z.ltb_spec (Z.of_nat i) 0); [lia|].
  rewrite Nat2Z.id. reflexivity.
Qed.

Lemma PrefixMismatch_loop_span {D} (node : Node D) key depth todo :
  forall pos : nat,
    (pos + todo)%nat = Z.to_nat (prefix_length node) ->
    0 <= prefix_length node < 2 ^ 32 ->
    0 <= depth -> depth + prefix_length node < 2 ^ 64 ->
    prefix_length node <= Z.of_nat (length (prefix node)) ->
    let s := common_span
               (drop pos (take (Z.to_nat (prefix_length node)) (prefix node)))
               (drop (Z.to_nat depth + pos) key) in
    outcome (PrefixMismatch_loop node key depth (Z.of_nat pos) todo) =
      if decide ((pos + s)%nat = Z.to_nat (prefix_length node) \/
                 depth + Z.of_nat (pos + s) < Z.of_nat (length key))
      then Returned (Z.of_nat (pos + s))
      else Undefined.
Proof.
  induction todo as [|todo IH]; intros pos Hinv Hpl Hdepth Hfit Hbuf.
  - simpl. rewrite drop_ge by (rewrite length_take; lia). simpl.
    rewrite decide_True by lia.
    rewrite wrap_small by (unfold uint_range; lia). f_equal. lia.
  - cbv zeta. simpl PrefixMismatch_loop. unfold mbind, Exec_bind. simpl.
    rewrite (wrap_small 64 (depth + Z.of_nat pos)) by (unfold uint_range; lia).
    destruct (lookup_lt_is_Some_2 (prefix node) pos) as [p Hp]; [lia|].
    assert (Hdp : drop pos (take (Z.to_nat (prefix_length node)) (prefix node))
                  = p :: drop (S pos)
                      (take (Z.to_nat (prefix_length node)) (prefix node))).
    { apply drop_S. rewrite lookup_take_lt by lia. exact Hp. }
    rewrite Hdp.
    replace (depth + Z.of_nat pos) with (Z.of_nat (Z.to_nat depth + pos))
      by lia.
    rewrite array_at_lookup.
    destruct (key !! (Z.to_nat depth + pos)%nat) as [k|] eqn:Hk; simpl.
    + rewrite (drop_S _ _ _ Hk). simpl.
      rewrite array_at_lookup, Hp. simpl.
      destruct (decide (p = k)) as [->|Hne].
      * rewrite bool_decide_eq_false_2 by tauto.
        replace (Z.of_nat pos + 1) with (Z.of_nat (S pos)) by lia.
        rewrite IH by (try assumption; lia).
        replace (Z.to_nat depth + S pos)%nat
          with (S (Z.to_nat depth + pos)) by lia.
        replace (pos + S (common_span
                   (drop (S pos) (take (Z.to_nat (prefix_length node))
                                       (prefix node)))
                   (drop (S (Z.to_nat depth + pos)) key)))%nat
          with (S pos + common_span
                   (drop (S pos) (take (Z.to_nat (prefix_length node))
                                       (prefix node)))
                   (drop (S (Z.to_nat depth + pos)) key))%nat by lia.
        reflexivity.
      * rewrite bool_decide_eq_true_2 by congruence. simpl.
        rewrite Nat.add_0_r.
        apply lookup_lt_Some in Hk.
        rewrite decide_True by lia.
        rewrite wrap_small by (unfold uint_range; lia). reflexivity.
    + apply lookup_ge_None in Hk.
      rewrite (drop_ge key) by lia.
      simpl. rewrite Nat.add_0_r.
      rewrite decide_False by lia. reflexivity.
Qed.

(** [PrefixMismatch] on a node whose prefix fits: the span the stored
    prefix shares with the key from [depth] on, unless the key ends inside
    the prefix before any byte differs. *)
Lemma PrefixMismatch_span {D} (art : ART) (node : Node D) key (depth : nat) :
  0 <= prefix_length node <= maxPrefix art ->
  maxPrefix art < 2 ^ 32 ->
  Node_allocated art node ->
  Z.of_nat depth + maxPrefix art < 2 ^ 64 ->
  let s := common_span (take (Z.to_nat (prefix_length node)) (prefix node))
                       (drop depth key) in
  PrefixMismatch art node key (Z.of_nat depth) =
    if decide (s = Z.to_nat (prefix_length node) \/
               (depth + s < length key)%nat)
    then Returned (Z.of_nat s)
    else Undefined.
Proof.
  intros Hpl Hmax Halloc Hfit. cbv zeta. unfold Node_allocated in Halloc.
  unfold PrefixMismatch, PrefixMismatch_exec.
  destruct (Z.leb_spec (prefix_length node) (maxPrefix art)); [|lia].
  pose proof (PrefixMismatch_loop_span node key (Z.of_nat depth)
                (Z.to_nat (prefix_length node)) O) as Hloop.
  cbv zeta in Hloop. change (Z.of_nat 0) with 0 in Hloop.
  rewrite Nat2Z.id, Nat.add_0_r, drop_0 in Hloop.
  rewrite Hloop by lia. clear Hloop.
  generalize (common_span (take (Z.to_nat (prefix_length node)) (prefix node))
                          (drop depth key)).
  intros s. simpl.
  destruct (decide (s = Z.to_nat (prefix_length node) \/
                    (depth + s < length key)%nat)) as [Hok|Hno].
  - rewrite decide_True by lia. reflexivity.
  - rewrite decide_False by lia. reflexivity.
Qed.

(** * The node variants *)

(** ** Bytes *)

Lemma byte_to_nat_inj (a b : byte) : Byte.to_nat a = Byte.to_nat b -> a = b.
Proof.
  intros H. pose proof (Byte.of_to_nat a) as Ha.
  rewrite H, Byte.of_to_nat in Ha. congruence.
Qed.

Lemma byte_to_nat_lt (b : byte) : (Byte.to_nat b < 256)%nat.
Proof. pose proof (Byte.to_nat_bounded b). lia. Qed.

Lemma elem_of_all_bytes (b : byte) : b ∈ all_bytes.
Proof.
  unfold all_bytes. apply list_elem_of_omap. exists (Byte.to_nat b).
  split; [|apply Byte.of_to_nat].
  apply elem_of_seq. pose proof (byte_to_nat_lt b). lia.
Qed.

Lemma NoDup_omap_of_nat (l : list nat) :
  NoDup l -> NoDup (omap Byte.of_nat l).
Proof.
  induction 1 as [|i l Hnotin Hnd IH]; simpl; [constructor|].
  destruct (Byte.of_nat i) as [b|] eqn:Hb; [|exact IH].
  apply NoDup_cons. split; [|exact IH].
  intros (j & Hj & Hjb)%list_elem_of_omap.
  apply Byte.to_of_nat in Hb, Hjb. subst. apply Hnotin. congruence.
Qed.

Lemma NoDup_all_bytes : NoDup all_bytes.
Proof. apply NoDup_omap_of_nat, NoDup_seq. Qed.

Lemma length_all_bytes : length all_bytes = 256%nat.
Proof. reflexivity. Qed.

(** ** The scan of the parallel arrays *)

Section Scan.
Context {C : Type}.
Implicit Types (key : list byte) (child : list C).

Lemma scan_None key child b :
  length key = length child -> (scan key child b = None <-> b ∉ key).
Proof.
  revert child. induction key as [|k key IH]; intros [|c child] Hlen;
    simpl in *; try discriminate.
  - split; [intros _ H; inversion H|reflexivity].
  - destruct (decide (k = b)) as [->|Hne].
    + split; [discriminate|]. intros H. destruct H. left.
    + rewrite IH by lia. rewrite not_elem_of_cons. intuition congruence.
Qed.

Lemma scan_Some_elem_of key child b c :
  scan key child b = Some c -> (b, c) ∈ zip key child.
Proof.
  revert child. induction key as [|k key IH]; intros [|c' child];
    simpl; try discriminate.
  destruct (decide (k = b)) as [->|Hne].
  - intros [= ->]. left.
  - intros H. right. apply IH. exact H.
Qed.

Lemma scan_zip key child b c :
  NoDup key ->
  (scan key child b = Some c <-> (b, c) ∈ zip key child).
Proof.
  intros Hnd. split; [apply scan_Some_elem_of|].
  revert child. induction Hnd as [|k key Hnotin Hnd IH];
    intros [|c' child]; simpl; try (intros H; inversion H; fail).
  intros [Heq|Hin]%elem_of_cons.
  - injection Heq as -> ->. rewrite decide_True by reflexivity. reflexivity.
  - destruct (decide (k = b)) as [->|Hne]; [|apply IH; exact Hin].
    apply elem_of_zip_l in Hin. contradiction.
Qed.

Lemma scan_app key child b c b' :
  length key = length child ->
  scan (key ++ [b]) (child ++ [c]) b' =
    match scan key child b' with
    | Some x => Some x
    | None => if decide (b' = b) then Some c else None
    end.
Proof.
  revert child. induction key as [|k key IH]; intros [|c' child] Hlen;
    simpl in *; try discriminate.
  - destruct (decide (b = b')), (decide (b' = b)); congruence.
  - destruct (decide (k = b')); [reflexivity|]. apply IH. lia.
Qed.



(** The shift-insert of Node16. *)
Lemma shift_insert_length key child b c :
  length key = length child ->
  length (shift_insert key child b c).1 = S (length key) /\
  length (shift_insert key child b c).2 = S (length child).
Proof.
  revert child. induction key as [|k key IH]; intros [|c' child] Hlen;
    simpl in *; try discriminate; [auto|].
  destruct (decide (byte_lt k b)); simpl; [|auto].
  destruct (shift_insert key child b c) as [ks cs] eqn:E.
  specialize (IH child). rewrite E in IH. simpl in *.
  destruct IH; [lia|]. lia.
Qed.

Lemma shift_insert_elem_of key child b c x :
  x ∈ (shift_insert key child b c).1 -> x = b \/ x ∈ key.
Proof.
  revert child. induction key as [|k key IH]; intros [|c' child];
    simpl.
  - intros ->%list_elem_of_singleton. auto.
  - intros ->%list_elem_of_singleton. auto.
  - intros ->%list_elem_of_singleton. auto.
  - destruct (decide (byte_lt k b)); simpl.
    + destruct (shift_insert key child b c) as [ks cs] eqn:E.
      specialize (IH child). rewrite E in IH. simpl in *.
      intros [->|Hin]%elem_of_cons; [right; left|].
      destruct (IH Hin); [auto|right; right; auto].
    + intros [->|Hin]%elem_of_cons; auto.
Qed.

Lemma byte_lt_trans (a b c : byte) : byte_lt a b -> byte_lt b c -> byte_lt a c.
Proof. unfold byte_lt. lia. Qed.

Lemma byte_lt_total (a b : byte) : a <> b -> ~ byte_lt a b -> byte_lt b a.
Proof.
  unfold byte_lt. intros Hne Hnlt.
  assert (Byte.to_nat a <> Byte.to_nat b)
    by (intros H; apply Hne, byte_to_nat_inj, H).
  lia.
Qed.

Lemma shift_insert_sorted key child b c :
  length key = length child -> b ∉ key ->
  StronglySorted byte_lt key ->
  StronglySorted byte_lt (shift_insert key child b c).1.
Proof.
  intros Hlen Hnotin Hs. revert child Hlen.
  induction Hs as [|k key Hs IH Hall]; intros [|c' child] Hlen;
    simpl in *; try discriminate.
  - repeat constructor.
  - apply not_elem_of_cons in Hnotin as [Hne Hnotin].
    destruct (decide (byte_lt k b)) as [Hlt|Hnlt]; simpl.
    + destruct (shift_insert key child b c) as [ks cs] eqn:E.
      specialize (IH Hnotin child). rewrite E in IH. simpl in *.
      constructor; [apply IH; lia|].
      apply Forall_forall. intros x Hx.
      pose proof (shift_insert_elem_of key child b c x) as Hor.
      rewrite E in Hor. simpl in Hor.
      destruct (Hor Hx) as [->|Hin]; [exact Hlt|].
      rewrite Forall_forall in Hall. apply Hall. exact Hin.
    + assert (Hbk : byte_lt b k) by (apply byte_lt_total; auto).
      constructor; [constructor; assumption|].
      constructor; [exact Hbk|].
      eapply Forall_impl; [exact Hall|].
      intros x Hx. eapply byte_lt_trans; eassumption.
Qed.

Lemma shift_insert_scan key child b c b' :
  length key = length child ->
  scan (shift_insert key child b c).1 (shift_insert key child b c).2 b' =
    if decide (b' = b) then Some c
    else scan key child b'.
Proof.
  revert child. induction key as [|k key IH]; intros [|c' child] Hlen;
    simpl in *; try discriminate.
  - destruct (decide (b = b')), (decide (b' = b)); congruence.
  - destruct (decide (byte_lt k b)) as [Hlt|Hnlt]; simpl.
    + destruct (shift_insert key child b c) as [ks cs] eqn:E.
      specialize (IH child). rewrite E in IH. simpl in *.
      destruct (decide (k = b')) as [->|Hne].
      * rewrite decide_False; [reflexivity|].
        intros ->. unfold byte_lt in Hlt. lia.
      * apply IH. lia.
    + destruct (decide (b = b')), (decide (b' = b)); congruence.
Qed.

Lemma StronglySorted_byte_lt_NoDup key :
  StronglySorted byte_lt key -> NoDup key.
Proof.
  induction 1 as [|k key Hs IH Hall]; [constructor|].
  apply NoDup_cons. split; [|exact IH].
  intros Hin. rewrite Forall_forall in Hall.
  specialize (Hall k Hin). unfold byte_lt in Hall. lia.
Qed.
End Scan.

(** ** The slots of Node48 *)

Section Slots.
Context {C : Type}.
Implicit Types (slots : list (option C)).

Lemma occupied_le_length slots : (occupied slots <= length slots)%nat.
Proof.
  induction slots as [|[c|] slots IH]; simpl; lia.
Qed.

Lemma free_slot_Some slots s :
  free_slot slots = Some s -> slots !! s = Some None.
Proof.
  revert s. induction slots as [|[c|] slots IH]; intros s; simpl.
  - discriminate.
  - destruct (free_slot slots) as [s'|]; simpl; [|discriminate].
    intros [= <-]. simpl. apply IH. reflexivity.
  - intros [= <-]. reflexivity.
Qed.

Lemma free_slot_is_Some slots :
  (occupied slots < length slots)%nat -> is_Some (free_slot slots).
Proof.
  induction slots as [|[c|] slots IH]; simpl; intros H.
  - lia.
  - destruct IH as [s Hs]; [lia|]. rewrite Hs. simpl. eauto.
  - eauto.
Qed.

Lemma occupied_insert_free slots s c :
  slots !! s = Some None ->
  occupied (<[s := Some c]> slots) = S (occupied slots).
Proof.
  revert s.
  induction slots as [|[c'|] slots IH]; intros [|s]; simpl;
    try discriminate.
  - intros H. rewrite (IH s H). reflexivity.
  - reflexivity.
  - intros H. apply IH. exact H.
Qed.


Lemma occupied_remove slots s c :
  slots !! s = Some (Some c) ->
  S (occupied (<[s := None]> slots)) = occupied slots.
Proof.
  revert s.
  induction slots as [|[c'|] slots IH]; intros [|s]; simpl;
    try discriminate.
  - reflexivity.
  - intros H. rewrite <- (IH s H). reflexivity.
  - intros H. apply IH. exact H.
Qed.

Lemma occupied_replicate_None (k : nat) :
  occupied (replicate k (@None C)) = O.
Proof. induction k; simpl; auto. Qed.
End Slots.

(** ** The pairs of a node and [GetChild] *)

Section Entries.
Context {C : Type}.
Implicit Types (n : Node (ChildStorage C)).

Lemma elem_of_entries_indexed n b c :
  (b, c) ∈ omap (fun b => pair b <$> GetChild n b) all_bytes <->
  GetChild n b = Some c.
Proof.
  rewrite list_elem_of_omap. split.
  - intros (b' & _ & Hb'). destruct (GetChild n b') eqn:E; simpl in Hb';
      [|discriminate]. congruence.
  - intros H. exists b. split; [apply elem_of_all_bytes|].
    rewrite H. reflexivity.
Qed.

Lemma NoDup_entries_indexed n (l : list byte) :
  NoDup l -> NoDup (omap (fun b => pair b <$> GetChild n b) l).*1.
Proof.
  induction 1 as [|b l Hnotin Hnd IH]; simpl; [constructor|].
  destruct (GetChild n b) as [c|]; simpl; [|exact IH].
  apply NoDup_cons. split; [|exact IH].
  intros ((b' & c') & Heq & Hin)%list_elem_of_fmap. simpl in Heq. subst b'.
  apply list_elem_of_omap in Hin as (b'' & Hb'' & Hf).
  destruct (GetChild n b''); simpl in Hf; [|discriminate].
  injection Hf as -> _. contradiction.
Qed.

(** The pairs of a node are the graph of [GetChild]. *)
Lemma entries_GetChild n b c :
  layout_ok n -> ((b, c) ∈ entries n <-> GetChild n b = Some c).
Proof.
  unfold layout_ok, entries, GetChild.
  destruct (derived n) as [key child|key child|idx slots|child] eqn:E.
  - intros (_ & _ & Hnd). symmetry. apply scan_zip. exact Hnd.
  - intros (_ & _ & Hs). symmetry. apply scan_zip.
    apply StronglySorted_byte_lt_NoDup. exact Hs.
  - intros _. pose proof (elem_of_entries_indexed n b c) as H.
    unfold GetChild in H. rewrite E in H. exact H.
  - intros _. pose proof (elem_of_entries_indexed n b c) as H.
    unfold GetChild in H. rewrite E in H. exact H.
Qed.

Lemma NoDup_entries_keys n : layout_ok n -> NoDup (entries n).*1.
Proof.
  unfold layout_ok, entries.
  destruct (derived n) as [key child|key child|idx slots|child] eqn:E.
  - intros (_ & Hlen & Hnd). rewrite fst_zip by lia. exact Hnd.
  - intros (_ & Hlen & Hs). rewrite fst_zip by lia.
    apply StronglySorted_byte_lt_NoDup. exact Hs.
  - intros _. apply NoDup_entries_indexed, NoDup_all_bytes.
  - intros _. apply NoDup_entries_indexed, NoDup_all_bytes.
Qed.

Lemma NoDup_entries n : layout_ok n -> NoDup (entries n).
Proof. intros H. eapply NoDup_fmap_1, NoDup_entries_keys, H. Qed.

(** Two nodes with the same children have the same number of pairs. *)
Lemma entries_Permutation n n' :
  layout_ok n -> layout_ok n' ->
  (forall b, GetChild n' b = GetChild n b) ->
  entries n' ≡ₚ entries n.
Proof.
  intros Hn Hn' Hget. apply NoDup_Permutation; try (apply NoDup_entries; auto).
  intros [b c]. rewrite !entries_GetChild by assumption.
  rewrite Hget. reflexivity.
Qed.

(** One pair more. *)
Lemma entries_Permutation_add n n' b c :
  layout_ok n -> layout_ok n' -> GetChild n b = None ->
  (forall b', GetChild n' b' =
              if decide (b' = b) then Some c else GetChild n b') ->
  entries n' ≡ₚ (b, c) :: entries n.
Proof.
  intros Hn Hn' Hnone Hget. apply NoDup_Permutation.
  - apply NoDup_entries, Hn'.
  - apply NoDup_cons. split; [|apply NoDup_entries, Hn].
    rewrite entries_GetChild by assumption. congruence.
  - intros [b' c']. rewrite elem_of_cons.
    rewrite !entries_GetChild by assumption. rewrite Hget.
    destruct (decide (b' = b)) as [->|Hne].
    + split; [intros [= ->]; auto|]. intros [[= ->]|H]; congruence.
    + split; [auto|]. intros [[= -> ->]|H]; congruence.
Qed.


End Entries.

(** ** Writing a pair into a node that has room *)

Section AddChild.
Context {C : Type}.
Implicit Types (n : Node (ChildStorage C)).

Lemma add_child_layout n b c :
  layout_ok n -> GetChild n b = None -> count n < capacity (type n) ->
  exists n',
    add_child n b c = Returned n' /\
    layout_ok n' /\
    (forall b', GetChild n' b' =
                if decide (b' = b) then Some c else GetChild n b') /\
    prefix_length n' = prefix_length n /\ prefix n' = prefix n /\
    type n' = type n /\ count n' = count n + 1.
Proof.
  unfold layout_ok, GetChild, add_child.
  destruct (derived n) as [key child|key child|idx slots|child] eqn:E.
  - (* Node4 *)
    intros (Hty & Hlen & Hnd) Hnone Hroom. rewrite Hty in Hroom. simpl in Hroom.
    destruct (Z.ltb_spec (count n) 4); [|lia].
    eexists. split; [reflexivity|]. simpl.
    apply scan_None in Hnone; [|exact Hlen].
    split; [|split; [|auto]].
    + split; [exact Hty|]. split; [rewrite !length_app; simpl; lia|].
      apply NoDup_app. split; [exact Hnd|]. split; [|apply NoDup_singleton].
      intros x Hx ->%list_elem_of_singleton. contradiction.
    + intros b'. rewrite scan_app by exact Hlen.
      destruct (scan key child b') as [x|] eqn:Hx;
        destruct (decide (b' = b)) as [->|Hne]; try reflexivity.
      assert (scan key child b = None) by (apply scan_None; assumption).
      congruence.
  - (* Node16 *)
    intros (Hty & Hlen & Hs) Hnone Hroom. rewrite Hty in Hroom. simpl in Hroom.
    destruct (Z.ltb_spec (count n) 16); [|lia].
    pose proof (shift_insert_length key child b c Hlen) as [Hl1 Hl2].
    pose proof (shift_insert_scan key child b c) as Hscan.
    apply scan_None in Hnone; [|exact Hlen].
    pose proof (shift_insert_sorted key child b c Hlen Hnone Hs) as Hsorted.
    destruct (shift_insert key child b c) as [ks cs]. simpl in *.
    eexists. split; [reflexivity|]. simpl.
    split; [|split; [|auto]].
    + split; [exact Hty|]. split; [lia|exact Hsorted].
    + intros b'. apply Hscan. exact Hlen.
  - (* Node48 *)
    intros (Hty & Hli & Hls & Hcnt & Hocc & Hinj) Hnone Hroom.
    rewrite Hty in Hroom. simpl in Hroom.
    destruct (free_slot_is_Some slots) as [s Hs]; [lia|].
    rewrite Hs. apply free_slot_Some in Hs.
    pose proof (lookup_lt_Some _ _ _ Hs) as Hslt.
    pose proof (byte_to_nat_lt b) as Hblt.
    eexists. split; [reflexivity|]. simpl.
    split; [|split; [|auto]].
    + split; [exact Hty|]. rewrite !length_insert.
      split; [exact Hli|]. split; [exact Hls|].
      split; [rewrite (occupied_insert_free _ _ _ Hs); lia|].
      split.
      * intros i s' Hi.
        destruct (decide (i = Byte.to_nat b)) as [->|Hne].
        -- rewrite list_lookup_insert_eq in Hi by lia.
           injection Hi as <-.
           rewrite list_lookup_insert_eq by lia. simpl. eauto.
        -- rewrite list_lookup_insert_ne in Hi by congruence.
           pose proof (Hocc i s' Hi) as Hsome.
           destruct (decide (s' = s)) as [->|Hne'].
           ++ rewrite Hs in Hsome. destruct Hsome as [? [=]].
           ++ rewrite list_lookup_insert_ne by congruence. exact Hsome.
      * intros i j s' Hi Hj.
        destruct (decide (i = Byte.to_nat b)) as [->|Hnei];
          destruct (decide (j = Byte.to_nat b)) as [->|Hnej];
          try reflexivity.
        -- rewrite list_lookup_insert_eq in Hi by lia. injection Hi as <-.
           rewrite list_lookup_insert_ne in Hj by congruence.
           pose proof (Hocc j s Hj) as Hsome.
           rewrite Hs in Hsome. destruct Hsome as [? [=]].
        -- rewrite list_lookup_insert_eq in Hj by lia. injection Hj as <-.
           rewrite list_lookup_insert_ne in Hi by congruence.
           pose proof (Hocc i s Hi) as Hsome.
           rewrite Hs in Hsome. destruct Hsome as [? [=]].
        -- rewrite list_lookup_insert_ne in Hi by congruence.
           rewrite list_lookup_insert_ne in Hj by congruence.
           eapply Hinj; eassumption.
    + intros b'. destruct (decide (b' = b)) as [->|Hne].
      * rewrite list_lookup_insert_eq by lia. simpl.
        rewrite list_lookup_insert_eq by lia. reflexivity.
      * rewrite list_lookup_insert_ne
          by (intros Heq; apply Hne; symmetry; apply byte_to_nat_inj, Heq).
        destruct (idx !! Byte.to_nat b') as [[s'|]|] eqn:Hi; simpl;
          try reflexivity.
        pose proof (Hocc _ s' Hi) as Hsome.
        destruct (decide (s' = s)) as [->|Hne'].
        -- rewrite Hs in Hsome. destruct Hsome as [? [=]].
        -- rewrite list_lookup_insert_ne by congruence. reflexivity.
  - (* Node256 *)
    intros (Hty & Hlen) Hnone Hroom.
    pose proof (byte_to_nat_lt b) as Hblt.
    eexists. split; [reflexivity|]. simpl.
    split; [|split; [|auto]].
    + split; [exact Hty|]. rewrite length_insert. exact Hlen.
    + intros b'. destruct (decide (b' = b)) as [->|Hne].
      * rewrite list_lookup_insert_eq by lia. reflexivity.
      * rewrite list_lookup_insert_ne
          by (intros Heq; apply Hne; symmetry; apply byte_to_nat_inj, Heq).
        reflexivity.
Qed.

Lemma add_child_wf n b c :
  wf_node n -> GetChild n b = None -> count n < capacity (type n) ->
  exists n',
    add_child n b c = Returned n' /\
    wf_node n' /\
    (forall b', GetChild n' b' =
                if decide (b' = b) then Some c else GetChild n b') /\
    entries n' ≡ₚ (b, c) :: entries n /\
    prefix_length n' = prefix_length n /\ prefix n' = prefix n /\
    type n' = type n /\ count n' = count n + 1.
Proof.
  intros (Hlay & Hcnt & Hcap) Hnone Hroom.
  destruct (add_child_layout n b c Hlay Hnone Hroom)
    as (n' & Hadd & Hlay' & Hget & Hpl & Hpre & Hty & Hcnt').
  pose proof (entries_Permutation_add n n' b c Hlay Hlay' Hnone Hget)
    as Hperm.
  exists n'. split; [exact Hadd|]. split; [|auto 10].
  split; [exact Hlay'|]. split.
  - rewrite Hcnt', Hcnt, (Permutation_length Hperm). simpl. lia.
  - rewrite Hty, Hcnt'. lia.
Qed.

(** All the pairs of a list, one after the other. *)
Lemma add_children_wf (es : list (byte * C)) :
  forall n,
    wf_node n -> NoDup es.*1 ->
    (forall b, b ∈ es.*1 -> GetChild n b = None) ->
    count n + Z.of_nat (length es) <= capacity (type n) ->
    exists n',
      add_children es n = Returned n' /\
      wf_node n' /\
      (forall b c, GetChild n' b = Some c <->
                   GetChild n b = Some c \/ (b, c) ∈ es) /\
      prefix_length n' = prefix_length n /\ prefix n' = prefix n /\
      type n' = type n /\ count n' = count n + Z.of_nat (length es).
Proof.
  induction es as [|[b c] es IH]; intros n Hwf Hnd Hfree Hroom.
  - exists n. simpl. split; [reflexivity|]. split; [exact Hwf|].
    split; [|repeat split; lia].
    intros b c. split; [auto|]. intros [H|H]; [exact H|inversion H].
  - simpl in *. apply NoDup_cons in Hnd as [Hnotin Hnd].
    destruct (add_child_wf n b c Hwf) as
      (n1 & Hadd & Hwf1 & Hget1 & _ & Hpl1 & Hpre1 & Hty1 & Hcnt1);
      [apply Hfree; left|lia|].
    rewrite Hadd. simpl.
    destruct (IH n1 Hwf1 Hnd) as
      (n' & Hall & Hwf' & Hget' & Hpl' & Hpre' & Hty' & Hcnt').
    + intros b' Hb'. rewrite Hget1.
      rewrite decide_False by (intros ->; contradiction).
      apply Hfree. right. exact Hb'.
    + rewrite Hty1, Hcnt1. lia.
    + exists n'. split; [exact Hall|]. split; [exact Hwf'|].
      split; [|repeat split; try congruence; lia].
      intros b' c'. rewrite Hget', Hget1, elem_of_cons.
      destruct (decide (b' = b)) as [->|Hne].
      * rewrite (Hfree b) by left.
        split.
        -- intros [[= ->]|Hin]; [auto|]. destruct Hnotin.
           apply list_elem_of_fmap. exists (b, c'). auto.
        -- intros [[=]|[[= ->]|Hin]]; [auto|]. destruct Hnotin.
           apply list_elem_of_fmap. exists (b, c'). auto.
      * split; [tauto|]. intros [H|[[= -> ->]|H]]; [auto|congruence|auto].
Qed.
End AddChild.

(** ** Replacing a node by another variant *)

Lemma copy_prefix_Returned {D} (art : ART) (src dst : Node D) :
  Z.min (prefix_length src) (maxPrefix art) <= Z.of_nat (length (prefix src)) ->
  Z.min (prefix_length src) (maxPrefix art) <= Z.of_nat (length (prefix dst)) ->
  copy_prefix art src dst =
    Returned
      (mkNode (prefix_length src) (count dst) (type dst)
         (take (Z.to_nat (Z.min (prefix_length src) (maxPrefix art)))
               (prefix src)
          ++ drop (Z.to_nat (Z.min (prefix_length src) (maxPrefix art)))
               (prefix dst))
         (derived dst)).
Proof.
  intros Hs Hd. unfold copy_prefix.
  rewrite (CopyPrefix_Returned art 0 1 _ src dst); try assumption;
    try discriminate.
  - simpl. unfold deref. rewrite lookup_insert_eq. reflexivity.
  - rewrite lookup_insert_ne by discriminate. apply lookup_singleton_eq.
  - apply lookup_insert_eq.
Qed.

Section Convert.
Context {C : Type}.
Variable fresh : nat -> byte.
Implicit Types (n : Node (ChildStorage C)).


Lemma GetChild_empty (hdr : Node (ChildStorage C)) t b :
  derived hdr = empty_storage t -> GetChild hdr b = None.
Proof.
  unfold GetChild. intros ->. pose proof (byte_to_nat_lt b).
  destruct t; unfold empty_storage; try reflexivity;
    rewrite lookup_replicate_2 by assumption; reflexivity.
Qed.

Lemma entries_nil n : (forall b, GetChild n b = None) -> layout_ok n -> entries n = [].
Proof.
  intros Hnone Hlay. destruct (entries n) as [|[b c] es] eqn:E; [reflexivity|].
  assert (Hin : (b, c) ∈ entries n) by (rewrite E; left).
  apply entries_GetChild in Hin; [|exact Hlay]. rewrite Hnone in Hin.
  discriminate.
Qed.

Lemma wf_node_empty (hdr : Node (ChildStorage C)) t :
  t ∈ [N4; N16; N48; N256] ->
  type hdr = t -> count hdr = 0 -> derived hdr = empty_storage t ->
  wf_node hdr.
Proof.
  intros Ht Hty Hcnt Hder.
  assert (Hknown : forall raw, t <> NUnknown raw).
  { intros raw ->. apply list_elem_of_In in Ht. simpl in Ht.
    intuition discriminate. }
  assert (Hlay : layout_ok hdr).
  { unfold layout_ok. rewrite Hder.
    destruct t; cbn [empty_storage].
    - repeat split; [assumption|constructor].
    - repeat split; [assumption|constructor].
    - rewrite !length_replicate, occupied_replicate_None.
      repeat split; try assumption; try lia.
      + intros i s Hi. apply lookup_replicate in Hi as [[=] _].
      + intros i j s Hi. apply lookup_replicate in Hi as [[=] _].
    - rewrite length_replicate. auto.
    - destruct (Hknown raw). reflexivity. }
  split; [exact Hlay|].
  rewrite (entries_nil hdr); [|intros b; eapply GetChild_empty, Hder|exact Hlay].
  rewrite Hcnt, Hty. simpl. split; [reflexivity|].
  destruct t; simpl; lia.
Qed.

Lemma wf_node_type n : wf_node n -> type n ∈ [N4; N16; N48; N256].
Proof.
  intros (Hlay & _). unfold layout_ok in Hlay.
  destruct (derived n); destruct Hlay as (-> & _); repeat constructor.
Qed.

Lemma convert_wf (art : ART) (t : NodeType) n :
  t ∈ [N4; N16; N48; N256] ->
  wf_node n -> count n <= capacity t ->
  Node_allocated art n -> 0 <= maxPrefix art ->
  exists n',
    convert fresh art t n = Returned n' /\
    wf_node n' /\ type n' = t /\
    (forall b, GetChild n' b = GetChild n b) /\
    entries n' ≡ₚ entries n /\
    prefix_length n' = prefix_length n /\
    stored_prefix art n' = stored_prefix art n /\
    Node_allocated art n' /\
    count n' = count n.
Proof.
  intros Ht Hwf Hcap Halloc Hmax. unfold convert.
  pose proof (Node_new_allocated art t fresh (empty_storage (C:=C) t) Hmax)
    as Halloc0.
  unfold Node_allocated in *.
  rewrite copy_prefix_Returned by lia. simpl.
  set (m := Z.to_nat (Z.min (prefix_length n) (maxPrefix art))).
  set (n1 := mkNode (prefix_length n) 0 t
               (take m (prefix n) ++
                drop m (fresh <$> seq 0 (Z.to_nat (maxPrefix art))))
               (empty_storage t)).
  assert (Hwf1 : wf_node n1) by (apply (wf_node_empty n1 t); auto).
  destruct Hwf as (Hlay & Hcnt & Hcapn).
  destruct (add_children_wf (entries n) n1 Hwf1) as
    (n' & Hall & Hwf' & Hget & Hpl & Hpre & Hty & Hcnt').
  { apply NoDup_entries_keys, Hlay. }
  { intros b _. apply (GetChild_empty n1 t). reflexivity. }
  { simpl. lia. }
  exists n'. split; [exact Hall|]. split; [exact Hwf'|].
  split; [exact Hty|].
  assert (Hsame : forall b, GetChild n' b = GetChild n b).
  { intros b. destruct (GetChild n b) as [c|] eqn:E.
    - apply Hget. right. apply entries_GetChild; assumption.
    - destruct (GetChild n' b) as [c|] eqn:E'; [|reflexivity].
      apply Hget in E' as [E'|E'].
      + rewrite (GetChild_empty n1 t) in E' by reflexivity. discriminate.
      + apply entries_GetChild in E'; [congruence|exact Hlay]. }
  split; [exact Hsame|].
  split; [apply entries_Permutation; [exact Hlay|apply Hwf'|exact Hsame]|].
  split; [exact Hpl|].
  assert (Hm : length (take m (prefix n)) = m)
    by (rewrite length_take; lia).
  split; [|split].
  - unfold stored_prefix. rewrite Hpl, Hpre. fold m. simpl.
    rewrite take_app_le by lia. rewrite take_take. f_equal. lia.
  - rewrite Hpre. simpl.
    rewrite length_app, length_drop, Hm, length_fmap, length_seq. lia.
  - rewrite Hcnt'. simpl. lia.
Qed.
End Convert.

(** ** InsertChild *)

Section InsertChild.
Context {C : Type}.
Variable fresh : nat -> byte.
Implicit Types (n : Node (ChildStorage C)).

(** A node that lacks a byte holds fewer than 256 pairs. *)
Lemma entries_length_absent n b :
  layout_ok n -> GetChild n b = None ->
  Z.of_nat (length (entries n)) < 256.
Proof.
  intros Hlay Hnone.
  assert (Hnd : NoDup (b :: (entries n).*1)).
  { apply NoDup_cons. split; [|apply NoDup_entries_keys, Hlay].
    intros ([b' c] & -> & Hin)%list_elem_of_fmap. simpl in Hnone.
    apply entries_GetChild in Hin; [congruence|exact Hlay]. }
  assert (Hsub : b :: (entries n).*1 ⊆ all_bytes)
    by (intros x _; apply elem_of_all_bytes).
  pose proof (submseteq_length _ _ (NoDup_submseteq _ _ Hnd Hsub)) as Hle.
  rewrite length_all_bytes in Hle. simpl in Hle.
  rewrite length_fmap in Hle. lia.
Qed.

Lemma add_child_inserted art n b c :
  wf_node n -> GetChild n b = None -> count n < capacity (type n) ->
  Node_allocated art n ->
  inserted art n b c (add_child n b c).
Proof.
  intros Hwf Hnone Hroom Halloc.
  destruct (add_child_wf n b c Hwf Hnone Hroom) as
    (n' & Hadd & Hwf' & Hget & Hperm & Hpl & Hpre & Hty & Hcnt).
  exists n'. split; [exact Hadd|]. split; [exact Hwf'|].
  split; [exact Hget|]. split; [exact Hperm|]. split; [exact Hpl|].
  split; [unfold stored_prefix; rewrite Hpl, Hpre; reflexivity|].
  split; [unfold Node_allocated in *; rewrite Hpre; exact Halloc|].
  split; [exact Hcnt|].
  destruct (Z.ltb_spec (count n) (capacity (type n))); [exact Hty|lia].
Qed.

(** Growth: the full node is replaced by the next variant, which takes
    the new pair. *)
Lemma grow_inserted art n b c t
    (insert_next : ART -> Node (ChildStorage C) -> byte -> C ->
                   Outcome (Node (ChildStorage C))) :
  wf_node n -> GetChild n b = None -> Node_allocated art n ->
  0 <= maxPrefix art ->
  count n = capacity (type n) ->
  t = next_type (type n) -> capacity (type n) < capacity t ->
  (forall n1, wf_node n1 -> type n1 = t -> GetChild n1 b = None ->
              Node_allocated art n1 -> count n1 < capacity t ->
              insert_next art n1 b c = add_child n1 b c) ->
  inserted art n b c (n' ← convert fresh art t n; insert_next art n' b c).
Proof.
  intros Hwf Hnone Halloc Hmax Hfull -> Hcap Hnext.
  assert (Ht : next_type (type n) ∈ [N4; N16; N48; N256]).
  { destruct (type n); simpl; repeat constructor. }
  destruct (convert_wf fresh art _ n Ht Hwf) as
    (n1 & Hconv & Hwf1 & Hty1 & Hget1 & Hperm1 & Hpl1 & Hst1 & Hal1 & Hcnt1);
    [lia|exact Halloc|exact Hmax|].
  rewrite Hconv. simpl.
  rewrite Hnext; try assumption; [|rewrite Hget1; exact Hnone|lia].
  destruct (add_child_inserted art n1 b c) as
    (n' & Hadd & Hwf' & Hget & Hperm & Hpl & Hst & Hal & Hcnt & Hty);
    [exact Hwf1|rewrite Hget1; exact Hnone|rewrite Hty1; lia|exact Hal1|].
  exists n'. split; [exact Hadd|]. split; [exact Hwf'|].
  split; [intros b'; rewrite Hget, Hget1; reflexivity|].
  split; [rewrite Hperm, Hperm1; reflexivity|].
  split; [congruence|]. split; [congruence|]. split; [exact Hal|].
  split; [lia|].
  rewrite Hty. rewrite Hty1, Hcnt1, Hfull.
  destruct (Z.ltb_spec (capacity (type n)) (capacity (next_type (type n))));
    [|lia].
  destruct (Z.ltb_spec (capacity (type n)) (capacity (type n))); [lia|].
  reflexivity.
Qed.

Lemma Node256_insert_inserted art n b c :
  wf_node n -> type n = N256 -> GetChild n b = None ->
  Node_allocated art n ->
  inserted art n b c (Node256_insert art n b c).
Proof.
  intros Hwf Hty Hnone Halloc. unfold Node256_insert.
  apply add_child_inserted; try assumption.
  destruct Hwf as (Hlay & Hcnt & _). rewrite Hty, Hcnt. simpl.
  apply (entries_length_absent n b); assumption.
Qed.

Lemma Node48_insert_inserted art n b c :
  wf_node n -> type n = N48 -> GetChild n b = None ->
  Node_allocated art n -> 0 <= maxPrefix art ->
  inserted art n b c (Node48_insert fresh art n b c).
Proof.
  intros Hwf Hty Hnone Halloc Hmax. unfold Node48_insert.
  destruct (Z.ltb_spec (count n) 48) as [Hlt|Hge].
  - apply add_child_inserted; try assumption. rewrite Hty. exact Hlt.
  - apply (grow_inserted art n b c N256); try assumption.
    + destruct Hwf as (_ & _ & Hcap). rewrite Hty in *. simpl in *. lia.
    + rewrite Hty. reflexivity.
    + rewrite Hty. simpl. lia.
    + intros n1 _ _ _ _ _. reflexivity.
Qed.

Lemma Node16_insert_inserted art n b c :
  wf_node n -> type n = N16 -> GetChild n b = None ->
  Node_allocated art n -> 0 <= maxPrefix art ->
  inserted art n b c (Node16_insert fresh art n b c).
Proof.
  intros Hwf Hty Hnone Halloc Hmax. unfold Node16_insert.
  destruct (Z.ltb_spec (count n) 16) as [Hlt|Hge].
  - apply add_child_inserted; try assumption. rewrite Hty. exact Hlt.
  - apply (grow_inserted art n b c N48); try assumption.
    + destruct Hwf as (_ & _ & Hcap). rewrite Hty in *. simpl in *. lia.
    + rewrite Hty. reflexivity.
    + rewrite Hty. simpl. lia.
    + intros n1 _ _ _ _ Hcnt1. unfold Node48_insert. simpl in Hcnt1.
      destruct (Z.ltb_spec (count n1) 48); [reflexivity|lia].
Qed.

Lemma Node4_insert_inserted art n b c :
  wf_node n -> type n = N4 -> GetChild n b = None ->
  Node_allocated art n -> 0 <= maxPrefix art ->
  inserted art n b c (Node4_insert fresh art n b c).
Proof.
  intros Hwf Hty Hnone Halloc Hmax. unfold Node4_insert.
  destruct (Z.ltb_spec (count n) 4) as [Hlt|Hge].
  - apply add_child_inserted; try assumption. rewrite Hty. exact Hlt.
  - apply (grow_inserted art n b c N16); try assumption.
    + destruct Hwf as (_ & _ & Hcap). rewrite Hty in *. simpl in *. lia.
    + rewrite Hty. reflexivity.
    + rewrite Hty. simpl. lia.
    + intros n1 _ _ _ _ Hcnt1. unfold Node16_insert. simpl in Hcnt1.
      destruct (Z.ltb_spec (count n1) 16); [reflexivity|lia].
Qed.

(** [InsertLeaf] over the four routines inserts the pair, growing the
    node when it is full. *)
Lemma InsertChild_inserted art n b c :
  wf_node n -> GetChild n b = None ->
  Node_allocated art n -> 0 <= maxPrefix art ->
  inserted art n b c (InsertChild fresh art n b c).
Proof.
  intros Hwf Hnone Halloc Hmax. unfold InsertChild, InsertLeaf.
  pose proof (wf_node_type n Hwf) as Hty.
  destruct (type n) eqn:E; simpl.
  - apply Node4_insert_inserted; assumption.
  - apply Node16_insert_inserted; assumption.
  - apply Node48_insert_inserted; assumption.
  - apply Node256_insert_inserted; assumption.
  - apply list_elem_of_In in Hty. simpl in Hty. intuition discriminate.
Qed.
End InsertChild.

(** ** Replacing the child of a byte *)

Section ReplaceChild.
Context {C : Type}.
Implicit Types (n : Node (ChildStorage C)).


End ReplaceChild.

(** * Removal of a child *)

Section RemoveChild.
Context {C : Type}.
Implicit Types (n : Node (ChildStorage C)) (key : list byte) (child : list C).

Lemma scan_delete key child (i : nat) b b' :
  NoDup key -> length key = length child -> key !! i = Some b ->
  scan (delete i key) (delete i child) b' =
    if decide (b' = b) then None else scan key child b'.
Proof.
  intros Hnd. revert child i.
  induction Hnd as [|k key Hnotin Hnd IH]; intros [|c child] [|i] Hlen Hk;
    simpl in *; try discriminate.
  - injection Hk as ->. destruct (decide (b = b')) as [->|Hne].
    + rewrite decide_True by reflexivity.
      apply scan_None; [lia|exact Hnotin].
    + rewrite decide_False by congruence. reflexivity.
  - destruct (decide (k = b')) as [->|Hne].
    + rewrite decide_False; [reflexivity|].
      intros ->. apply Hnotin. eapply list_elem_of_lookup_2, Hk.
    + apply IH; [lia|exact Hk].
Qed.

Lemma StronglySorted_delete key (i : nat) :
  StronglySorted byte_lt key -> StronglySorted byte_lt (delete i key).
Proof.
  intros Hs. revert i. induction Hs as [|k key Hs IH Hall]; intros [|i];
    simpl; try constructor; auto.
  apply Forall_delete. exact Hall.
Qed.

Lemma free_slot_occupied_lt (slots : list (option C)) (s : nat) :
  slots !! s = Some None -> (occupied slots < length slots)%nat.
Proof.
  revert s. induction slots as [|[c|] slots IH]; intros [|s]; simpl;
    try discriminate.
  - intros H. specialize (IH s H). lia.
  - intros _. pose proof (occupied_le_length slots). lia.
  - intros H. specialize (IH s H). lia.
Qed.

(** The removal of the pair at a position leaves a well-formed node with
    the other pairs. *)
Lemma remove_child_wf n (pos : Z) n' :
  wf_node n -> remove_child n pos = Returned n' ->
  wf_node n' /\
  count n' = count n - 1 /\ type n' = type n /\
  prefix_length n' = prefix_length n /\ prefix n' = prefix n /\
  exists b c, GetChild n b = Some c /\
    forall b', GetChild n' b' =
               if decide (b' = b) then None else GetChild n b'.
Proof.
  intros (Hlay & Hcnt & Hcap) Hrem.
  assert (Hcore : layout_ok n' /\ count n' = count n - 1 /\
            type n' = type n /\ prefix_length n' = prefix_length n /\
            prefix n' = prefix n /\
            exists b c, GetChild n b = Some c /\
              forall b', GetChild n' b' =
                         if decide (b' = b) then None else GetChild n b').
  { unfold remove_child in Hrem. unfold layout_ok, GetChild in *.
    destruct (Z.ltb_spec pos 0) as [|Hpos]; [discriminate|].
    destruct (derived n) as [key child|key child|idx slots|child] eqn:E.
    - destruct Hlay as (Hty & Hlen & Hnd).
      destruct (decide (Z.to_nat pos < length key)%nat) as [Hi|];
        [|discriminate].
      injection Hrem as <-. simpl.
      destruct (lookup_lt_is_Some_2 key (Z.to_nat pos) Hi) as [b Hb].
      destruct (lookup_lt_is_Some_2 child (Z.to_nat pos)) as [c Hc]; [lia|].
      split; [|repeat split; auto].
      + split; [exact Hty|]. rewrite !length_delete by eauto.
        split; [lia|]. exact (sublist_NoDup _ _ Hnd (sublist_delete _ _)).
      + exists b, c. split.
        * apply scan_zip; [exact Hnd|].
          apply list_elem_of_lookup. exists (Z.to_nat pos).
          apply lookup_zip_with_Some. eauto.
        * intros b'. apply scan_delete; assumption.
    - destruct Hlay as (Hty & Hlen & Hs).
      pose proof (StronglySorted_byte_lt_NoDup key Hs) as Hnd.
      destruct (decide (Z.to_nat pos < length key)%nat) as [Hi|];
        [|discriminate].
      injection Hrem as <-. simpl.
      destruct (lookup_lt_is_Some_2 key (Z.to_nat pos) Hi) as [b Hb].
      destruct (lookup_lt_is_Some_2 child (Z.to_nat pos)) as [c Hc]; [lia|].
      split; [|repeat split; auto].
      + split; [exact Hty|]. rewrite !length_delete by eauto.
        split; [lia|]. apply StronglySorted_delete. exact Hs.
      + exists b, c. split.
        * apply scan_zip; [exact Hnd|].
          apply list_elem_of_lookup. exists (Z.to_nat pos).
          apply lookup_zip_with_Some. eauto.
        * intros b'. apply scan_delete; assumption.
    - destruct Hlay as (Hty & Hli & Hls & Hcnt48 & Hocc & Hinj).
      destruct (idx !! Z.to_nat pos) as [[s|]|] eqn:Hi; try discriminate.
      injection Hrem as <-. simpl.
      pose proof (lookup_lt_Some _ _ _ Hi) as Hilt.
      destruct (Hocc _ _ Hi) as [c Hc].
      destruct (slots !! s) as [[c'|]|] eqn:Hs; simpl in Hc; try discriminate.
      injection Hc as ->.
      pose proof (lookup_lt_Some _ _ _ Hs) as Hslt.
      destruct (Byte.of_nat (Z.to_nat pos)) as [b|] eqn:Hb;
        [|apply Byte.of_nat_None_iff in Hb; lia].
      apply Byte.to_of_nat in Hb.
      split; [|repeat split; auto].
      + split; [exact Hty|]. rewrite !length_insert.
        split; [exact Hli|]. split; [exact Hls|].
        split; [rewrite <- (occupied_remove _ _ _ Hs) in Hcnt48; lia|].
        split.
        * intros j s' Hj.
          destruct (decide (j = Z.to_nat pos)) as [->|Hne].
          -- rewrite list_lookup_insert_eq in Hj by lia. discriminate.
          -- rewrite list_lookup_insert_ne in Hj by congruence.
             rewrite list_lookup_insert_ne; [eapply Hocc, Hj|].
             intros <-. apply Hne. eapply Hinj; eassumption.
        * intros j1 j2 s' Hj1 Hj2.
          destruct (decide (j1 = Z.to_nat pos)) as [->|Hne1];
            [rewrite list_lookup_insert_eq in Hj1 by lia; discriminate|].
          destruct (decide (j2 = Z.to_nat pos)) as [->|Hne2];
            [rewrite list_lookup_insert_eq in Hj2 by lia; discriminate|].
          rewrite list_lookup_insert_ne in Hj1 by congruence.
          rewrite list_lookup_insert_ne in Hj2 by congruence.
          eapply Hinj; eassumption.
      + exists b, c. rewrite Hb, Hi. simpl. rewrite Hs. simpl.
        split; [reflexivity|].
        intros b'. destruct (decide (b' = b)) as [->|Hne].
        * rewrite Hb, list_lookup_insert_eq by lia. reflexivity.
        * rewrite list_lookup_insert_ne
            by (rewrite <- Hb; intros Heq; apply Hne; symmetry;
                apply byte_to_nat_inj, Heq).
          destruct (idx !! Byte.to_nat b') as [[s'|]|] eqn:Hi'; simpl;
            try reflexivity.
          rewrite list_lookup_insert_ne; [reflexivity|].
          intros <-. apply Hne. apply byte_to_nat_inj. rewrite Hb.
          eapply Hinj; eassumption.
    - destruct Hlay as (Hty & Hlen).
      destruct (child !! Z.to_nat pos) as [[c|]|] eqn:Hi; try discriminate.
      injection Hrem as <-. simpl.
      pose proof (lookup_lt_Some _ _ _ Hi) as Hilt.
      destruct (Byte.of_nat (Z.to_nat pos)) as [b|] eqn:Hb;
        [|apply Byte.of_nat_None_iff in Hb; lia].
      apply Byte.to_of_nat in Hb.
      split; [|repeat split; auto].
      + split; [exact Hty|]. rewrite length_insert. exact Hlen.
      + exists b, c. rewrite Hb, Hi. split; [reflexivity|].
        intros b'. destruct (decide (b' = b)) as [->|Hne].
        * rewrite Hb, list_lookup_insert_eq by lia. reflexivity.
        * rewrite list_lookup_insert_ne
            by (rewrite <- Hb; intros Heq; apply Hne; symmetry;
                apply byte_to_nat_inj, Heq).
          reflexivity. }
  destruct Hcore as (Hlay' & Hcnt' & Hty' & Hpl' & Hpre' & b & c & Hbc & Hget).
  assert (Hperm : entries n ≡ₚ (b, c) :: entries n').
  { apply entries_Permutation_add; try assumption.
    - rewrite Hget, decide_True by reflexivity. reflexivity.
    - intros b'. rewrite Hget. destruct (decide (b' = b)) as [->|];
        [exact Hbc|reflexivity]. }
  apply Permutation_length in Hperm. simpl in Hperm.
  split; [|split; [exact Hcnt'|]; eauto 10].
  split; [exact Hlay'|]. split; [lia|]. rewrite Hty'. lia.
Qed.
End RemoveChild.

(** ** EraseChild *)

Section EraseChild.
Context {C : Type}.
Variable fresh : nat -> byte.
Implicit Types (n : Node (ChildStorage C)).

(** A write that returned found room. *)
Lemma add_child_room n b c n' :
  wf_node n -> GetChild n b = None -> add_child n b c = Returned n' ->
  count n < capacity (type n).
Proof.
  intros (Hlay & Hcnt & Hcap) Hnone Hadd.
  pose proof (entries_length_absent n b Hlay Hnone) as Habs.
  unfold add_child in Hadd. unfold layout_ok in Hlay.
  destruct (derived n) as [key child|key child|idx slots|child] eqn:E.
  - destruct Hlay as (-> & _). simpl.
    destruct (Z.ltb_spec (count n) 4); [lia|discriminate].
  - destruct Hlay as (-> & _). simpl.
    destruct (Z.ltb_spec (count n) 16); [lia|discriminate].
  - destruct Hlay as (-> & _ & Hls & Hocc & _). simpl.
    destruct (free_slot slots) as [s|] eqn:Hs; [|discriminate].
    apply free_slot_Some, free_slot_occupied_lt in Hs. lia.
  - destruct Hlay as (-> & _). simpl. lia.
Qed.

Lemma add_children_Returned (es : list (byte * C)) :
  forall n n',
    wf_node n -> NoDup es.*1 ->
    (forall b, b ∈ es.*1 -> GetChild n b = None) ->
    add_children es n = Returned n' ->
    wf_node n' /\
    (forall b c, GetChild n' b = Some c <->
                 GetChild n b = Some c \/ (b, c) ∈ es) /\
    prefix_length n' = prefix_length n /\ prefix n' = prefix n /\
    type n' = type n /\ count n' = count n + Z.of_nat (length es).
Proof.
  intros n n' Hwf Hnd Hfree Hall.
  destruct (add_children_wf es n Hwf Hnd Hfree) as (n2 & Hall2 & Hrest).
  - revert n n' Hwf Hnd Hfree Hall.
    induction es as [|[b c] es IH]; intros n n' Hwf Hnd Hfree Hall.
    + simpl. destruct Hwf as (_ & _ & Hcap). lia.
    + simpl in *. apply NoDup_cons in Hnd as [Hnotin Hnd].
      destruct (add_child n b c) as [n1| | |] eqn:Hadd; simpl in Hall;
        try discriminate.
      pose proof (add_child_room n b c n1 Hwf (Hfree b (list_elem_of_here _ _))
                    Hadd) as Hroom.
      destruct (add_child_wf n b c Hwf (Hfree b (list_elem_of_here _ _)) Hroom)
        as (n1' & Hadd' & Hwf1 & Hget1 & _ & _ & _ & Hty1 & Hcnt1).
      rewrite Hadd in Hadd'. injection Hadd' as <-.
      specialize (IH n1 n' Hwf1 Hnd).
      rewrite Hty1, Hcnt1 in IH.
      assert (count n + 1 + Z.of_nat (length es) <= capacity (type n)); [|lia].
      apply IH; [|exact Hall].
      intros b' Hb'. rewrite Hget1.
      rewrite decide_False by (intros ->; contradiction).
      apply Hfree. right. exact Hb'.
  - rewrite Hall in Hall2. injection Hall2 as <-. exact Hrest.
Qed.

(** A replacement that returned kept the children and the prefix. *)
Lemma convert_Returned (art : ART) (t : NodeType) n n' :
  t ∈ [N4; N16; N48; N256] ->
  wf_node n -> Node_allocated art n -> 0 <= maxPrefix art ->
  convert fresh art t n = Returned n' ->
  wf_node n' /\ type n' = t /\
  (forall b, GetChild n' b = GetChild n b) /\
  prefix_length n' = prefix_length n /\
  stored_prefix art n' = stored_prefix art n /\
  Node_allocated art n' /\
  count n' = count n.
Proof.
  intros Ht Hwf Hal Hmax Hconv.
  destruct (convert_wf fresh art t n Ht Hwf) as (n2 & Hconv2 & Hrest);
    try assumption.
  - unfold convert in Hconv.
    pose proof (Node_new_allocated art t fresh (empty_storage (C:=C) t) Hmax)
      as Hal0.
    unfold Node_allocated in *.
    rewrite copy_prefix_Returned in Hconv by lia. simpl in Hconv.
    match type of Hconv with
    | add_children _ ?n1 = _ =>
        assert (Hwf1 : wf_node n1)
          by (apply (wf_node_empty n1 t); auto);
        destruct (add_children_Returned (entries n) n1 n' Hwf1)
          as (Hwf' & _ & _ & _ & Hty & Hcnt);
          [apply NoDup_entries_keys, Hwf
          |intros b _; apply (GetChild_empty n1 t); reflexivity
          |exact Hconv|]
    end.
    simpl in Hty, Hcnt.
    destruct Hwf as (_ & Hcntn & _). destruct Hwf' as (_ & _ & Hcap').
    rewrite Hty, Hcnt in Hcap'. lia.
  - rewrite Hconv in Hconv2. injection Hconv2 as <-.
    destruct Hrest as (? & ? & ? & _ & ? & ? & ? & ?). auto 10.
Qed.

(** [Erase] over the four routines: whatever it returns is the node
    without the pair at the position, as the variant it had or as the
    previous one. *)
Lemma EraseChild_Returned (art : ART) n (pos : Z) n' :
  wf_node n -> Node_allocated art n -> 0 <= maxPrefix art ->
  EraseChild fresh art n pos = Returned n' ->
  wf_node n' /\
  count n' = count n - 1 /\
  prefix_length n' = prefix_length n /\
  stored_prefix art n' = stored_prefix art n /\
  exists b c, GetChild n b = Some c /\
    forall b', GetChild n' b' =
               if decide (b' = b) then None else GetChild n b'.
Proof.
  intros Hwf Hal Hmax Herase.
  assert (Hshrink : forall (t : NodeType) (thr : Z) r,
    t ∈ [N4; N16; N48; N256] ->
    (n1 ← remove_child n pos;
     if count n1 <? thr then convert fresh art t n1 else mret n1) = r ->
    r = Returned n' ->
    wf_node n' /\ count n' = count n - 1 /\
    prefix_length n' = prefix_length n /\
    stored_prefix art n' = stored_prefix art n /\
    exists b c, GetChild n b = Some c /\
      forall b', GetChild n' b' =
                 if decide (b' = b) then None else GetChild n b').
  { intros t thr r Ht <- Hr.
    destruct (remove_child n pos) as [n1| | |] eqn:Hrem; simpl in Hr;
      try discriminate.
    destruct (remove_child_wf n pos n1 Hwf Hrem)
      as (Hwf1 & Hcnt1 & Hty1 & Hpl1 & Hpre1 & b & c & Hbc & Hget1).
    assert (Hst1 : stored_prefix art n1 = stored_prefix art n)
      by (unfold stored_prefix; rewrite Hpl1, Hpre1; reflexivity).
    assert (Hal1 : Node_allocated art n1)
      by (unfold Node_allocated in *; rewrite Hpre1; exact Hal).
    destruct (count n1 <? thr).
    - destruct (convert_Returned art t n1 n' Ht Hwf1 Hal1 Hmax Hr)
        as (Hwf' & _ & Hget' & Hpl' & Hst' & _ & Hcnt').
      split; [exact Hwf'|]. split; [lia|]. split; [congruence|].
      split; [congruence|]. exists b, c. split; [exact Hbc|].
      intros b'. rewrite Hget'. apply Hget1.
    - injection Hr as <-. split; [exact Hwf1|]. split; [exact Hcnt1|].
      split; [exact Hpl1|]. split; [exact Hst1|]. eauto. }
  unfold EraseChild, Erase in Herase.
  destruct (type n); simpl in Herase; try discriminate.
  - unfold Node4_erase in Herase.
    destruct (remove_child_wf n pos n' Hwf Herase)
      as (Hwf' & Hcnt' & _ & Hpl' & Hpre' & Hex).
    split; [exact Hwf'|]. split; [exact Hcnt'|]. split; [exact Hpl'|].
    split; [unfold stored_prefix; rewrite Hpl', Hpre'; reflexivity|].
    exact Hex.
  - apply (Hshrink N4 (shrink_threshold N16) _ ltac:(repeat constructor)
             eq_refl Herase).
  - apply (Hshrink N16 (shrink_threshold N48) _ ltac:(repeat constructor)
             eq_refl Herase).
  - apply (Hshrink N48 (shrink_threshold N256) _ ltac:(repeat constructor)
             eq_refl Herase).
Qed.

Lemma scan_pos_lt (key : list byte) (b : byte) (i : nat) :
  scan_pos key b = Some i -> (i < length key)%nat.
Proof.
  revert i. induction key as [|k key IH]; intros i; simpl; [discriminate|].
  destruct (decide (k = b)); [intros [= <-]; lia|].
  destruct (scan_pos key b) as [j|]; simpl; [|discriminate].
  intros [= <-]. specialize (IH j eq_refl). lia.
Qed.

(** The removal at the position of a byte that has a child returns. *)
Lemma remove_child_returns n (b : byte) (pos : Z) :
  wf_node n -> GetChildPos n b = Some pos ->
  exists n1, remove_child n pos = Returned n1.
Proof.
  intros (Hlay & _) Hpos. unfold GetChildPos, GetChild in Hpos.
  unfold remove_child, layout_ok in *.
  destruct (derived n) as [key child|key child|idx slots|child] eqn:E.
  - destruct (scan_pos key b) as [i|] eqn:Hi; simpl in Hpos; [|discriminate].
    injection Hpos as <-. apply scan_pos_lt in Hi.
    destruct (Z.ltb_spec (Z.of_nat i) 0); [lia|]. rewrite Nat2Z.id.
    rewrite decide_True by exact Hi. eauto.
  - destruct (scan_pos key b) as [i|] eqn:Hi; simpl in Hpos; [|discriminate].
    injection Hpos as <-. apply scan_pos_lt in Hi.
    destruct (Z.ltb_spec (Z.of_nat i) 0); [lia|]. rewrite Nat2Z.id.
    rewrite decide_True by exact Hi. eauto.
  - destruct (idx !! Byte.to_nat b) as [[s|]|] eqn:Hi; simpl in Hpos;
      try discriminate.
    destruct (mjoin (slots !! s)); simpl in Hpos; [|discriminate].
    injection Hpos as <-.
    destruct (Z.ltb_spec (Z.of_nat (Byte.to_nat b)) 0); [lia|].
    rewrite Nat2Z.id, Hi. eauto.
  - destruct (child !! Byte.to_nat b) as [[c|]|] eqn:Hi; simpl in Hpos;
      try discriminate.
    injection Hpos as <-.
    destruct (Z.ltb_spec (Z.of_nat (Byte.to_nat b)) 0); [lia|].
    rewrite Nat2Z.id, Hi. eauto.
Qed.

(** [Erase] at the position of a child returns: a node that is replaced
    by the previous variant has fewer children than that variant holds. *)
Lemma EraseChild_returns (art : ART) n (b : byte) (pos : Z) :
  wf_node n -> Node_allocated art n -> 0 <= maxPrefix art ->
  GetChildPos n b = Some pos ->
  exists n', EraseChild fresh art n pos = Returned n'.
Proof.
  intros Hwf Hal Hmax Hpos.
  destruct (remove_child_returns n b pos Hwf Hpos) as [n1 Hrem].
  destruct (remove_child_wf n pos n1 Hwf Hrem)
    as (Hwf1 & Hcnt1 & Hty1 & Hpl1 & Hpre1 & _).
  assert (Hal1 : Node_allocated art n1)
    by (unfold Node_allocated in *; rewrite Hpre1; exact Hal).
  assert (Hconv : forall t, t ∈ [N4; N16; N48; N256] ->
            count n1 <= capacity t ->
            exists n', convert fresh art t n1 = Returned n').
  { intros t Ht Hcap.
    destruct (convert_wf fresh art t n1 Ht Hwf1 Hcap Hal1 Hmax)
      as (n' & Hn' & _). eauto. }
  pose proof (wf_node_type n Hwf) as Hty.
  unfold EraseChild, Erase.
  unfold Node4_erase, Node16_erase, Node48_erase, Node256_erase.
  destruct (type n) eqn:Et; cbn [switch_type]; cbv beta iota;
    rewrite ?Hrem; simpl; [eauto| | | |].
  - destruct (Z.ltb_spec (count n1) (shrink_threshold N16)) as [Hlt|];
      [|eauto].
    apply Hconv; [repeat constructor|].
    change (shrink_threshold N16) with 4 in Hlt. simpl. lia.
  - destruct (Z.ltb_spec (count n1) (shrink_threshold N48)) as [Hlt|];
      [|eauto].
    apply Hconv; [repeat constructor|].
    change (shrink_threshold N48) with 12 in Hlt. simpl. lia.
  - destruct (Z.ltb_spec (count n1) (shrink_threshold N256)) as [Hlt|];
      [|eauto].
    apply Hconv; [repeat constructor|].
    change (shrink_threshold N256) with 48 in Hlt. simpl. lia.
  - apply list_elem_of_In in Hty. simpl in Hty. intuition discriminate.
Qed.

(** The variant of the node [Erase] returns: the previous one when the
    count has fallen below the threshold, the same one otherwise. *)
Lemma EraseChild_type (art : ART) n (pos : Z) n' :
  wf_node n -> Node_allocated art n -> 0 <= maxPrefix art ->
  EraseChild fresh art n pos = Returned n' ->
  type n' = if count n - 1 <? shrink_threshold (type n)
            then previous_type (type n) else type n.
Proof.
  intros Hwf Hal Hmax Herase.
  assert (Hshrink : forall (t : NodeType) (thr : Z),
    t ∈ [N4; N16; N48; N256] ->
    (n1 ← remove_child n pos;
     if count n1 <? thr then convert fresh art t n1 else mret n1)
      = Returned n' ->
    type n' = if count n - 1 <? thr then t else type n).
  { intros t thr Ht Hr.
    destruct (remove_child n pos) as [n1| | |] eqn:Hrem; simpl in Hr;
      try discriminate.
    destruct (remove_child_wf n pos n1 Hwf Hrem)
      as (Hwf1 & Hcnt1 & Hty1 & Hpl1 & Hpre1 & _).
    assert (Hal1 : Node_allocated art n1)
      by (unfold Node_allocated in *; rewrite Hpre1; exact Hal).
    rewrite <- Hcnt1. destruct (count n1 <? thr).
    - apply (convert_Returned art t n1 n' Ht Hwf1 Hal1 Hmax Hr).
    - injection Hr as <-. exact Hty1. }
  unfold EraseChild, Erase in Herase.
  destruct (type n) eqn:Et; simpl in Herase; try discriminate.
  - unfold Node4_erase in Herase.
    destruct (remove_child_wf n pos n' Hwf Herase) as (_ & _ & Hty' & _).
    rewrite Hty', Et. destruct (_ <? _); reflexivity.
  - apply (Hshrink N4 (shrink_threshold N16)); [repeat constructor|].
    exact Herase.
  - apply (Hshrink N16 (shrink_threshold N48)); [repeat constructor|].
    exact Herase.
  - apply (Hshrink N48 (shrink_threshold N256)); [repeat constructor|].
    exact Herase.
Qed.
End EraseChild.

(** * The tree *)

Section TreeFacts.
Variable art : ART.




End TreeFacts.

(** ** The step at an inner node *)


Lemma common_span_full_prefix (p k : list byte) :
  common_span p k = length p -> p `prefix_of` k.
Proof.
  intros H. pose proof (common_span_take p k) as Ht.
  rewrite H, firstn_all in Ht. rewrite Ht. apply prefix_take.
Qed.




Section Descend.
Variable art : ART.
Hypothesis Hmax : 0 <= maxPrefix art < 2 ^ 32.



End Descend.

(** ** Search *)

Section Search.
Variable art : ART.
Hypothesis Hmax : 0 <= maxPrefix art < 2 ^ 32.






End Search.

(** ** Insert *)


Section Insert.
Variable fresh : nat -> byte.
Variable art : ART.
Variable unique : bool.
Hypothesis Hmax : 0 <= maxPrefix art < 2 ^ 32.



End Insert.



Section InsertSplit.
Variable fresh : nat -> byte.
Variable art : ART.
Variable unique : bool.
Hypothesis Hmax : 0 <= maxPrefix art < 2 ^ 32.


End InsertSplit.

Section InsertRec.
Variable fresh : nat -> byte.
Variable art : ART.
Variable unique : bool.
Hypothesis Hmax : 0 <= maxPrefix art < 2 ^ 32.



End InsertRec.

(** ** Insert and Search on the whole tree *)



Lemma elem_of_rows_of (k : Key) (pairs : list (Key * RowId)) (r : RowId) :
  r ∈ rows_of k pairs <-> (k, r) ∈ pairs.
Proof.
  unfold rows_of. rewrite list_elem_of_fmap. split.
  - intros ([k' r'] & -> & Hin). apply list_elem_of_filter in Hin as [Hk Hin].
    simpl in *. subst. exact Hin.
  - intros Hin. exists (k, r). split; [reflexivity|].
    apply list_elem_of_filter. auto.
Qed.


Section Roundtrip.
Variable fresh : nat -> byte.
Variable art : ART.
Variable unique : bool.
Hypothesis Hmax : 0 <= maxPrefix art < 2 ^ 32.


End Roundtrip.

(** * Round trip of Insert and Search *)



(** A key that is a proper prefix of another has no byte where the two
    part: inserting "ab" after "a" reads behind the end of "a", and the
    search of "a" in the tree of "ab", "ac" and "b" reads behind its
    end. *)
Remark prefix_keys_read_outside :
  insert_all Samples.zeroes Samples.art4 false None
    [(Samples.key_of "a", 1); (Samples.key_of "ab", 2)] = Undefined /\
  ART_Search Samples.art4 Samples.abc_root (Samples.key_of "a") = Undefined.
Proof. split; vm_compute; reflexivity. Qed.

(** * Erase of a pair that is not there *)

Section EraseAbsent.
Variable fresh : nat -> byte.
Variable art : ART.

Lemma descend_Returned_inv {R} (n : Node (ChildStorage ARTNode)) (k : Key)
    (d : Z) (mm : Z -> Outcome R) (nx : Z -> byte -> Outcome R) (r : R) :
  descend art n k d mm nx = Returned r ->
  exists p,
    PrefixMismatch art n k d = Returned p /\
    ((p <? prefix_length n) = true /\ mm p = Returned r \/
     (p <? prefix_length n) = false /\
     exists b, array_at k (d + prefix_length n) = Some b /\
               nx (d + prefix_length n) b = Returned r).
Proof.
  unfold descend. intros Hd.
  destruct (PrefixMismatch art n k d) as [p| | |]; simpl in Hd;
    try discriminate.
  exists p. split; [reflexivity|].
  destruct (p <? prefix_length n); [left; auto|right].
  split; [reflexivity|].
  destruct (array_at k (d + prefix_length n)) as [b|]; simpl in Hd;
    try discriminate.
  exists b. auto.
Qed.

(** Where the search of a key returns row identifiers without [row],
    Erase finds nothing to remove and leaves the node. *)
Lemma erase_rec_absent (f : nat) :
  forall is_root t k d row rows,
    search_rec art f t k d = Returned rows -> row ∉ rows ->
    erase_rec fresh art f is_root t k d row = Returned (NotFound, Some t).
Proof.
  induction f as [|f IH]; intros is_root t k d row rows; simpl;
    [discriminate|].
  destruct t as [lkey lrows|n].
  - intros [= <-] Hnotin.
    destruct (decide (lkey = k /\ row ∈ lrows)) as [[-> Hin]|_];
      [|reflexivity].
    rewrite decide_True in Hnotin by reflexivity. contradiction.
  - intros Hsearch Hnotin.
    apply descend_Returned_inv in Hsearch
      as (p & Hp & [[Hlt Hmm]|(Hge & b & Hb & Hnx)]);
      unfold descend; rewrite Hp; simpl; rewrite ?Hlt, ?Hge;
      [reflexivity|].
    rewrite Hb. simpl.
    destruct (GetChild n b) as [c|]; [|reflexivity].
    rewrite (IH false c k _ row rows Hnx Hnotin). reflexivity.
Qed.
End EraseAbsent.

(** C7 (as amended): when the search of the key returns, and returns row
    identifiers without row_id, Erase(key, row_id) returns the tree as it
    was together with the result "not found". *)
Theorem Erase_absent_not_found (fresh : nat -> byte) (art : ART)
    (root : option ARTNode) (k : Key) (row : RowId) (rows : list RowId) :
  ART_Search art root k = Returned rows -> row ∉ rows ->
  ART_Erase fresh art root k row = Returned (NotFound, root).
Proof.
  destruct root as [t|]; intros Hs Hnotin.
  - unfold ART_Search in Hs. unfold ART_Erase.
    eapply erase_rec_absent; eassumption.
  - reflexivity.
Qed.

(** On a tree built by insertions of keys that fit, Erase of a pair that
    was not inserted finds nothing, the key being no proper prefix of an
    inserted key. *)
Lemma ART_Erase_absent_built (fresh : nat -> byte) (art : ART)
    done root k row :
  tree_inv art done root ->
  Key_fits art k -> (forall k', k' ∈ done.*1 -> outlasts k k') ->
  (k, row) ∉ done ->
  ART_Erase fresh art root k row = Returned (NotFound, root).
Proof.
  intros [_ Hsearch] Hfit Hout Hnotin.
  specialize (Hsearch k Hfit Hout).
  assert (Hrow : row ∉ rows_of k done)
    by (rewrite elem_of_rows_of; exact Hnotin).
  destruct root as [t|]; [|reflexivity].
  unfold ART_Search in Hsearch. unfold ART_Erase.
  eapply erase_rec_absent; eassumption.
Qed.

(** C7, the claim as it stands: in the tree that holds "aab" and "aac"
    behind a prefix of two bytes, one of them stored, Erase of ("aad", 5),
    a pair the tree does not hold, throws. *)
Lemma Erase_absent_throws_beyond_maxPrefix :
  insert_all Samples.zeroes Samples.art1 false None Samples.aa_pairs =
    Returned ([Inserted; Inserted], Samples.aa_root) /\
  ART_Erase Samples.zeroes Samples.art1 Samples.aa_root
    (Samples.key_of "aad") 5 =
    Thrown (NotImplementedException "Operation not implemented") /\
  ART_Erase Samples.zeroes Samples.art1 Samples.aa_root
    (Samples.key_of "aad") 5 <> Returned (NotFound, Samples.aa_root).
Proof.
  split; [vm_compute; reflexivity|].
  split; [vm_compute; reflexivity|].
  vm_compute. discriminate.
Qed.

(** * Growth of a node *)

(** C5: on a well-formed node, inserting a child for a byte the node lacks
    returns a well-formed node; the fifth child turns a Node4 into a
    Node16, the seventeenth a Node16 into a Node48, the forty-ninth a
    Node48 into a Node256, and a node with room keeps its variant; the
    pairs are those of the node and the new one, the prefix (its length and
    the bytes stored) is the same, and count, one more than before, is
    within the capacity of the variant. Erasing the child of a byte that
    has one returns as well; the node an erase returns is well formed, its
    count, one less than before, within the capacity of its variant, which
    is the previous variant when the count has fallen below the threshold
    and the same variant otherwise; it has the prefix and the pairs of the
    node but the erased one. *)
Theorem node_growth_and_capacity {C} (fresh : nat -> byte) (art : ART)
    (n : Node (ChildStorage C)) :
  wf_node n -> Node_allocated art n -> 0 <= maxPrefix art ->
  (forall b c, GetChild n b = None ->
     exists n',
       InsertChild fresh art n b c = Returned n' /\
       (type n = N4 -> count n = 4 -> type n' = N16) /\
       (type n = N16 -> count n = 16 -> type n' = N48) /\
       (type n = N48 -> count n = 48 -> type n' = N256) /\
       (count n < capacity (type n) -> type n' = type n) /\
       entries n' ≡ₚ (b, c) :: entries n /\
       (forall b', GetChild n' b' =
                   if decide (b' = b) then Some c else GetChild n b') /\
       prefix_length n' = prefix_length n /\
       stored_prefix art n' = stored_prefix art n /\
       count n' = count n + 1 /\
       count n' <= capacity (type n') /\
       wf_node n') /\
  (forall pos n',
     EraseChild fresh art n pos = Returned n' ->
     count n' = count n - 1 /\
     count n' <= capacity (type n') /\
     wf_node n' /\
     type n' = (if count n - 1 <? shrink_threshold (type n)
                then previous_type (type n) else type n) /\
     prefix_length n' = prefix_length n /\
     stored_prefix art n' = stored_prefix art n /\
     exists b c, GetChild n b = Some c /\
       forall b', GetChild n' b' =
                  if decide (b' = b) then None else GetChild n b') /\
  (forall b pos, GetChildPos n b = Some pos ->
     exists n', EraseChild fresh art n pos = Returned n').
Proof.
  intros Hwf Hal Hmax. split; [|split].
  - intros b c Hnone.
    destruct (InsertChild_inserted fresh art n b c Hwf Hnone Hal Hmax)
      as (n' & Hins & Hwf' & Hget & Hperm & Hpl & Hst & Hal' & Hcnt & Hty).
    exists n'. split; [exact Hins|].
    split; [intros Ht Hc; rewrite Hty, Ht, Hc; reflexivity|].
    split; [intros Ht Hc; rewrite Hty, Ht, Hc; reflexivity|].
    split; [intros Ht Hc; rewrite Hty, Ht, Hc; reflexivity|].
    split.
    { intros Hroom. rewrite Hty.
      destruct (Z.ltb_spec (count n) (capacity (type n)));
        [reflexivity|lia]. }
    split; [exact Hperm|]. split; [exact Hget|]. split; [exact Hpl|].
    split; [exact Hst|]. split; [exact Hcnt|].
    split; [apply Hwf'|exact Hwf'].
  - intros pos n' Herase.
    destruct (EraseChild_Returned fresh art n pos n' Hwf Hal Hmax Herase)
      as (Hwf' & Hcnt' & Hpl' & Hst' & Hpairs).
    split; [exact Hcnt'|]. split; [apply Hwf'|]. split; [exact Hwf'|].
    split; [exact (EraseChild_type fresh art n pos n' Hwf Hal Hmax Herase)|].
    split; [exact Hpl'|]. split; [exact Hst'|exact Hpairs].
  - intros b pos Hpos.
    exact (EraseChild_returns fresh art n b pos Hwf Hal Hmax Hpos).
Qed.

(** The thresholds leave room on both sides: a node that an insertion has
    just replaced by the next variant is not replaced back by the erase
    that follows, and a node that is replaced by the previous variant
    fits it. *)
Remark shrink_threshold_room (t : NodeType) :
  t ∈ [N4; N16; N48] ->
  shrink_threshold (next_type t) <= capacity t /\
  previous_type (next_type t) = t.
Proof.
  intros Ht. apply list_elem_of_In in Ht. simpl in Ht.
  destruct Ht as [<-|[<-|[<-|[]]]]; vm_compute; split;
    first [discriminate | reflexivity].
Qed.

(** A Node256 that an erase leaves with 63 children stays a Node256; one
    that is left with 47 becomes a Node48 with these 47 children. *)
Remark Node256_shrink_fits :
  shrink_threshold N256 = 48 /\
  (exists n',
     EraseChild Samples.zeroes Samples.art1 Samples.Node256_64 0
       = Returned n' /\
     type n' = N256 /\ count n' = 63) /\
  (exists n',
     EraseChild Samples.zeroes Samples.art1 Samples.Node256_48 0
       = Returned n' /\
     type n' = N48 /\ count n' = 47 /\
     entries n' = drop 1 (entries Samples.Node256_48)).
Proof.
  split; [reflexivity|]. split.
  - eexists. split; [vm_compute; reflexivity|]. split; reflexivity.
  - eexists. split; [vm_compute; reflexivity|].
    split; [reflexivity|]. split; [reflexivity|]. vm_compute. reflexivity.
Qed.

(** * The statements at sample inputs *)

Module Witnesses.
Import Samples.
Local Open Scope byte_scope.

Ltac by_compute :=
  first [ reflexivity
        | lia
        | vm_compute; first [ reflexivity | lia | discriminate
                            | repeat split; first [discriminate | lia] ] ].

Lemma PrefixMismatch_first_mismatch_witness :
  exists p,
    PrefixMismatch art4 ab_node (key_of "xabz") 1 = Returned p /\
    0 <= p <= prefix_length ab_node /\
    (forall i, 0 <= i < p ->
       array_at (key_of "xabz") (1 + i) = array_at (prefix ab_node) i) /\
    (p < prefix_length ab_node ->
       array_at (key_of "xabz") (1 + p) <> array_at (prefix ab_node) p).
Proof.
  apply (PrefixMismatch_first_mismatch art4 ab_node (key_of "xabz") 1).
  - unfold Node_typed, uint_range. simpl. lia.
  - reflexivity.
  - unfold Key_typed. simpl. lia.
  - unfold uint_range. lia.
  - simpl. lia.
  - simpl. lia.
Defined.

Lemma PrefixMismatch_not_implemented_iff_witness :
  PrefixMismatch art1 ab_node (key_of "xabz") 1 =
    Thrown (NotImplementedException "Operation not implemented") /\
  (forall e, PrefixMismatch art4 ab_node (key_of "xabz") 1 <> Thrown e) /\
  exists p, PrefixMismatch art4 ab_node (key_of "xabz") 1 = Returned p.
Proof.
  split; [|split].
  - apply (PrefixMismatch_not_implemented_iff art1 ab_node
             (key_of "xabz") 1).
    simpl. lia.
  - apply (PrefixMismatch_not_implemented_iff art4 ab_node
             (key_of "xabz") 1).
    simpl. lia.
  - apply (PrefixMismatch_not_implemented_iff art4 ab_node
             (key_of "xabz") 1).
    + simpl. lia.
    + unfold Node_typed, uint_range. simpl. lia.
    + reflexivity.
    + unfold Key_typed. simpl. lia.
    + unfold uint_range. lia.
    + simpl. lia.
Defined.

Lemma PrefixMismatch_reads_in_bounds_witness :
  (forall a, a ∈ trace (PrefixMismatch_exec art4 ab_node (key_of "xabz") 1) ->
     access_in_window ab_node 1 a /\
     access_in_bounds ab_node (key_of "xabz") a) /\
  exists p, PrefixMismatch art4 ab_node (key_of "xabz") 1 = Returned p /\
            0 <= p <= prefix_length ab_node.
Proof.
  apply (PrefixMismatch_reads_in_bounds art4 ab_node (key_of "xabz") 1).
  - unfold Node_typed, uint_range. simpl. lia.
  - reflexivity.
  - unfold Key_typed. simpl. lia.
  - unfold uint_range. lia.
  - simpl. lia.
  - simpl. lia.
Defined.

Lemma CopyPrefix_copies_witness :
  exists h' d',
    CopyPrefix art4 1 2 two_nodes = Returned h' /\
    h' !! 2 = Some d' /\
    prefix_length d' = prefix_length ab_node /\
    take (Z.to_nat (Z.min (prefix_length ab_node) (maxPrefix art4)))
         (prefix d') =
    take (Z.to_nat (Z.min (prefix_length ab_node) (maxPrefix art4)))
         (prefix ab_node) /\
    drop (Z.to_nat (Z.min (prefix_length ab_node) (maxPrefix art4)))
         (prefix d') =
    drop (Z.to_nat (Z.min (prefix_length ab_node) (maxPrefix art4)))
         (prefix full_Node4).
Proof.
  apply (CopyPrefix_copies art4 1 2 two_nodes ab_node full_Node4).
  - discriminate.
  - reflexivity.
  - reflexivity.
  - reflexivity.
  - reflexivity.
Defined.

Lemma CopyPrefix_frame_witness :
  exists h' d',
    CopyPrefix art4 1 2 two_nodes = Returned h' /\
    h' !! 1 = Some ab_node /\
    (forall p, p <> 2 -> h' !! p = two_nodes !! p) /\
    h' !! 2 = Some d' /\
    count d' = count full_Node4 /\ type d' = type full_Node4 /\
    derived d' = derived full_Node4 /\
    length (prefix d') = length (prefix full_Node4) /\
    drop (Z.to_nat (Z.min (prefix_length ab_node) (maxPrefix art4)))
         (prefix d') =
    drop (Z.to_nat (Z.min (prefix_length ab_node) (maxPrefix art4)))
         (prefix full_Node4).
Proof.
  apply (CopyPrefix_frame art4 1 2 two_nodes ab_node full_Node4).
  - discriminate.
  - reflexivity.
  - reflexivity.
  - reflexivity.
  - reflexivity.
Defined.

Lemma dispatch_default_branch_witness :
  (InsertLeaf (Node4_insert zeroes) (Node16_insert zeroes)
     (Node48_insert zeroes) Node256_insert art4 full_Node4 "e" leaf_e =
   Node4_insert zeroes art4 full_Node4 "e" leaf_e) /\
  (InsertLeaf (Node4_insert zeroes) (Node16_insert zeroes)
     (Node48_insert zeroes) Node256_insert art4 odd_node "e" leaf_e =
   AssertFailed) /\
  (Erase (Node4_erase (C:=ARTNode)) (Node16_erase zeroes)
     (Node48_erase zeroes) (Node256_erase zeroes) art4 odd_node 0 =
   AssertFailed).
Proof.
  split; [|split].
  - apply (dispatch_default_branch
             (Node4_insert zeroes) (Node16_insert zeroes)
             (Node48_insert zeroes) Node256_insert
             (Node4_erase (C:=ARTNode)) (Node16_erase zeroes)
             (Node48_erase zeroes) (Node256_erase zeroes)
             art4 full_Node4 "e" leaf_e 0).
    simpl. left.
  - apply (dispatch_default_branch
             (Node4_insert zeroes) (Node16_insert zeroes)
             (Node48_insert zeroes) Node256_insert
             (Node4_erase (C:=ARTNode)) (Node16_erase zeroes)
             (Node48_erase zeroes) (Node256_erase zeroes)
             art4 odd_node "e" leaf_e 0).
    simpl. intros H. apply list_elem_of_In in H. simpl in H.
    intuition discriminate.
  - apply (dispatch_default_branch
             (Node4_insert zeroes) (Node16_insert zeroes)
             (Node48_insert zeroes) Node256_insert
             (Node4_erase (C:=ARTNode)) (Node16_erase zeroes)
             (Node48_erase zeroes) (Node256_erase zeroes)
             art4 odd_node "e" leaf_e 0).
    simpl. intros H. apply list_elem_of_In in H. simpl in H.
    intuition discriminate.
Defined.


Lemma Erase_absent_not_found_witness :
  ART_Erase zeroes art4 abc_root (key_of "ab") 7 =
    Returned (NotFound, abc_root).
Proof.
  apply (Erase_absent_not_found zeroes art4 abc_root (key_of "ab") 7 [1]).
  - vm_compute. reflexivity.
  - intros H. apply list_elem_of_In in H. simpl in H. lia.
Defined.

Lemma node_growth_and_capacity_witness :
  (exists n',
     InsertChild zeroes art4 full_Node4 "e" leaf_e = Returned n' /\
     type n' = N16 /\ count n' = 5 /\
     entries n' ≡ₚ ("e", leaf_e) :: entries full_Node4 /\
     stored_prefix art4 n' = stored_prefix art4 full_Node4) /\
  (exists n',
     EraseChild zeroes art4 full_Node4 0 = Returned n' /\
     count n' = 3 /\ count n' <= capacity (type n') /\ type n' = N4) /\
  (exists n',
     EraseChild zeroes art1 Node256_64 0 = Returned n' /\
     count n' = 63 /\ count n' <= capacity (type n') /\ type n' = N256).
Proof.
  split; [|split].
  - destruct (node_growth_and_capacity zeroes art4 full_Node4)
      as [Hins _].
    + unfold wf_node, layout_ok. simpl.
      repeat split; try lia.
      apply (bool_decide_unpack (NoDup ["a"; "b"; "c"; "d"])).
      vm_compute. exact I.
    + reflexivity.
    + simpl. lia.
    + destruct (Hins "e" leaf_e eq_refl)
        as (n' & Hn' & H4 & _ & _ & _ & Hperm & _ & _ & Hst & Hcnt & _).
      exists n'. split; [exact Hn'|]. split; [apply H4; reflexivity|].
      split; [exact Hcnt|]. split; [exact Hperm|exact Hst].
  - destruct (node_growth_and_capacity zeroes art4 full_Node4)
      as (_ & Hera & Htot).
    + unfold wf_node, layout_ok. simpl.
      repeat split; try lia.
      apply (bool_decide_unpack (NoDup ["a"; "b"; "c"; "d"])).
      vm_compute. exact I.
    + reflexivity.
    + simpl. lia.
    + destruct (Htot "a" 0 eq_refl) as [n' Hn'].
      destruct (Hera 0 n' Hn') as (Hcnt & Hcap & _ & Hty & _).
      exists n'. split; [exact Hn'|]. split; [exact Hcnt|].
      split; [exact Hcap|exact Hty].
  - destruct (node_growth_and_capacity zeroes art1 Node256_64)
      as (_ & Hera & Htot).
    + unfold wf_node, layout_ok.
      split; [split; reflexivity|]. split; [reflexivity|]. simpl. lia.
    + reflexivity.
    + simpl. lia.
    + destruct (Htot "000"%byte 0 eq_refl) as [n' Hn'].
      destruct (Hera 0 n' Hn') as (Hcnt & Hcap & _ & Hty & _).
      exists n'. split; [exact Hn'|]. split; [exact Hcnt|].
      split; [exact Hcap|exact Hty].
Defined.
End Witnesses.

(** * Further properties of the node header operations *)

(** ** PrefixMismatch: what the result depends on *)

(** The loop on two nodes and two keys that hold the same bytes at the
    positions it reads. *)
Lemma PrefixMismatch_loop_ext {D1 D2} (n1 : Node D1) (n2 : Node D2)
    (k1 k2 : list byte) (d1 d2 : Z) todo :
  forall pos,
    (forall p, pos <= p < pos + Z.of_nat todo ->
       array_at k1 (wrap 64 (d1 + p)) = array_at k2 (wrap 64 (d2 + p)) /\
       array_at (prefix n1) p = array_at (prefix n2) p) ->
    outcome (PrefixMismatch_loop n1 k1 d1 pos todo) =
    outcome (PrefixMismatch_loop n2 k2 d2 pos todo).
Proof.
  induction todo as [|todo IH]; intros pos H.
  - reflexivity.
  - simpl. unfold mbind, Exec_bind. simpl.
    destruct (H pos) as [Hk Hp]; [lia|]. rewrite Hk, Hp.
    destruct (array_at k2 (wrap 64 (d2 + pos))) as [k|]; simpl;
      [|reflexivity].
    destruct (array_at (prefix n2) pos) as [p|]; simpl; [|reflexivity].
    destruct (bool_decide (k ≠ p)); simpl; [reflexivity|].
    apply IH. intros q Hq. apply H. lia.
Qed.

(** X1: the outcome of PrefixMismatch is fixed by prefix_length, the first
    prefix_length cells of the prefix array and the key bytes at
    depth .. depth+prefix_length-1: count, type tag, the members of the
    subclass, later prefix cells and every other key byte have no part in
    it. *)
Theorem PrefixMismatch_window {D1 D2} (art : ART) (n1 : Node D1)
    (n2 : Node D2) (k1 k2 : Key) (depth : Z) :
  prefix_length n1 = prefix_length n2 ->
  (forall p, 0 <= p < prefix_length n1 ->
     array_at (prefix n1) p = array_at (prefix n2) p) ->
  (forall p, 0 <= p < prefix_length n1 ->
     array_at k1 (wrap 64 (depth + p)) = array_at k2 (wrap 64 (depth + p))) ->
  PrefixMismatch art n1 k1 depth = PrefixMismatch art n2 k2 depth.
Proof.
  intros Hpl Hprefix Hkey. unfold PrefixMismatch, PrefixMismatch_exec.
  rewrite <- Hpl.
  destruct (prefix_length n1 <=? maxPrefix art); [|reflexivity].
  apply PrefixMismatch_loop_ext. intros p Hp.
  split; [apply Hkey|apply Hprefix]; lia.
Qed.

(** X2: comparing at [depth] is comparing the key without its first
    [depth] bytes at depth 0. *)
Theorem PrefixMismatch_from_depth {D} (art : ART) (node : Node D)
    (key : Key) (depth : Z) :
  0 <= depth -> depth + prefix_length node <= 2 ^ 64 ->
  PrefixMismatch art node key depth =
  PrefixMismatch art node (drop (Z.to_nat depth) key) 0.
Proof.
  intros Hd Hfit. unfold PrefixMismatch, PrefixMismatch_exec.
  destruct (prefix_length node <=? maxPrefix art); [|reflexivity].
  apply PrefixMismatch_loop_ext. intros p Hp. split; [|reflexivity].
  rewrite !wrap_small by (unfold uint_range; lia).
  unfold array_at.
  destruct (Z.ltb_spec (depth + p) 0); [lia|].
  destruct (Z.ltb_spec (0 + p) 0); [lia|].
  rewrite lookup_drop. f_equal. lia.
Qed.

Lemma array_at_app_l {A} (a b : list A) (i : Z) (x : A) :
  array_at a i = Some x -> array_at (a ++ b) i = Some x.
Proof.
  unfold array_at. destruct (i <? 0); [discriminate|].
  intros H. apply lookup_app_l_Some. exact H.
Qed.

Lemma PrefixMismatch_loop_app {D} (node : Node D) (key more : list byte)
    (depth : Z) todo :
  forall pos p,
    outcome (PrefixMismatch_loop node key depth pos todo) = Returned p ->
    outcome (PrefixMismatch_loop node (key ++ more) depth pos todo) =
      Returned p.
Proof.
  induction todo as [|todo IH]; intros pos p.
  - trivial.
  - simpl. unfold mbind, Exec_bind. simpl.
    destruct (array_at key (wrap 64 (depth + pos))) as [k|] eqn:Hk; simpl;
      [|discriminate].
    rewrite (array_at_app_l _ more _ _ Hk). simpl.
    destruct (array_at (prefix node) pos) as [q|]; simpl; [|discriminate].
    destruct (bool_decide (k ≠ q)); simpl; [trivial|].
    apply IH.
Qed.

(** X3: a result PrefixMismatch returns for a key, it returns for every key
    that goes on after it. *)
Theorem PrefixMismatch_longer_key {D} (art : ART) (node : Node D)
    (key more : Key) (depth p : Z) :
  PrefixMismatch art node key depth = Returned p ->
  PrefixMismatch art node (key ++ more) depth = Returned p.
Proof.
  unfold PrefixMismatch, PrefixMismatch_exec.
  destruct (prefix_length node <=? maxPrefix art); [|trivial].
  apply PrefixMismatch_loop_app.
Qed.

Lemma PrefixMismatch_loop_Returned_inv {D} (node : Node D)
    (key : list byte) (depth : Z) todo :
  forall pos p,
    0 <= pos -> pos + Z.of_nat todo < 2 ^ 32 ->
    outcome (PrefixMismatch_loop node key depth pos todo) = Returned p ->
    pos <= p <= pos + Z.of_nat todo /\
    (forall i, pos <= i < p ->
       exists b, array_at key (wrap 64 (depth + i)) = Some b /\
                 array_at (prefix node) i = Some b) /\
    (p < pos + Z.of_nat todo ->
       exists a b, array_at key (wrap 64 (depth + p)) = Some a /\
                   array_at (prefix node) p = Some b /\ a <> b).
Proof.
  induction todo as [|todo IH]; intros pos p Hpos Hfit.
  - simpl. rewrite wrap_small by (unfold uint_range; lia).
    intros [= <-]. split; [lia|]. split; intros; lia.
  - simpl. unfold mbind, Exec_bind. simpl.
    destruct (array_at key (wrap 64 (depth + pos))) as [k|] eqn:Hk; simpl;
      [|discriminate].
    destruct (array_at (prefix node) pos) as [q|] eqn:Hq; simpl;
      [|discriminate].
    destruct (bool_decide (k ≠ q)) eqn:Hkq; simpl.
    + rewrite wrap_small by (unfold uint_range; lia).
      intros [= <-]. apply bool_decide_eq_true in Hkq.
      split; [lia|]. split; [intros; lia|].
      intros _. exists k, q. auto.
    + apply bool_decide_eq_false in Hkq.
      assert (k = q) as -> by (destruct (decide (k = q)); tauto).
      intros Hret.
      destruct (IH (pos + 1) p) as (Hrange & Hsame & Hdiff);
        [lia|lia|exact Hret|].
      split; [lia|]. split.
      * intros i Hi. destruct (decide (i = pos)) as [->|Hne].
        -- exists q. auto.
        -- apply Hsame. lia.
      * intros Hlt. apply Hdiff. lia.
Qed.

(** X4: whenever PrefixMismatch returns p, whatever the sizes of the key
    and of the prefix array: prefix_length is at most maxPrefix, p is at
    most prefix_length, the key and the prefix hold the same byte at each
    offset below p, and different bytes at offset p unless p is
    prefix_length. *)
Theorem PrefixMismatch_Returned_inv {D} (art : ART) (node : Node D)
    (key : Key) (depth p : Z) :
  Node_typed node ->
  PrefixMismatch art node key depth = Returned p ->
  prefix_length node <= maxPrefix art /\
  0 <= p <= prefix_length node /\
  (forall i, 0 <= i < p ->
     exists b, array_at key (wrap 64 (depth + i)) = Some b /\
               array_at (prefix node) i = Some b) /\
  (p < prefix_length node ->
     exists a b, array_at key (wrap 64 (depth + p)) = Some a /\
                 array_at (prefix node) p = Some b /\ a <> b).
Proof.
  intros [[Hpl0 Hpl] _]. unfold PrefixMismatch, PrefixMismatch_exec.
  destruct (Z.leb_spec (prefix_length node) (maxPrefix art)) as [Hle|Hgt];
    [|discriminate].
  intros Hret. split; [exact Hle|].
  apply PrefixMismatch_loop_Returned_inv in Hret; [|lia|lia].
  rewrite Z2Nat.id in Hret by lia. exact Hret.
Qed.

(** X5: PrefixMismatch returns prefix_length exactly when the key goes on,
    from [depth], with the stored prefix bytes. *)
Theorem PrefixMismatch_full_match_iff {D} (art : ART) (node : Node D)
    (key : Key) (depth : Z) :
  Node_typed node -> Node_allocated art node -> ART_typed art ->
  0 <= depth -> depth + maxPrefix art < 2 ^ 64 ->
  prefix_length node <= maxPrefix art ->
  PrefixMismatch art node key depth = Returned (prefix_length node) <->
  take (Z.to_nat (prefix_length node)) (prefix node)
    `prefix_of` drop (Z.to_nat depth) key.
Proof.
  intros [[Hpl0 Hpl] _] Halloc [_ Hmax] Hd Hfit Hle.
  pose proof (PrefixMismatch_span art node key (Z.to_nat depth)) as Hspan.
  rewrite Z2Nat.id in Hspan by lia. cbv zeta in Hspan.
  rewrite Hspan by (assumption || lia). clear Hspan.
  unfold Node_allocated in Halloc.
  assert (Hlen : length (take (Z.to_nat (prefix_length node)) (prefix node))
                 = Z.to_nat (prefix_length node))
    by (rewrite length_take; lia).
  split.
  - destruct (decide _) as [_|_]; [|discriminate].
    intros [= Heq]. apply common_span_full_prefix. lia.
  - intros Hpre. apply common_span_prefix in Hpre. rewrite Hpre, Hlen.
    destruct (decide _) as [_|Hno]; [f_equal; lia|].
    exfalso. apply Hno. left. reflexivity.
Qed.

(** X6: a key that ends inside the prefix window is compared all the same
    when it differs from the prefix before it ends: PrefixMismatch returns
    the offset of the first difference. *)
Theorem PrefixMismatch_short_key {D} (art : ART) (node : Node D)
    (key : Key) (depth : Z) (p : nat) (a b : byte) :
  Node_typed node -> Node_allocated art node -> ART_typed art ->
  0 <= depth -> depth + maxPrefix art < 2 ^ 64 ->
  prefix_length node <= maxPrefix art ->
  take p (drop (Z.to_nat depth) key) = take p (prefix node) ->
  key !! (Z.to_nat depth + p)%nat = Some a ->
  prefix node !! p = Some b -> Z.of_nat p < prefix_length node ->
  a <> b ->
  PrefixMismatch art node key depth = Returned (Z.of_nat p).
Proof.
  intros [[Hpl0 Hpl] _] Halloc [_ Hmax] Hd Hfit Hle Hsame Ha Hb Hp Hab.
  pose proof (PrefixMismatch_span art node key (Z.to_nat depth)) as Hspan.
  rewrite Z2Nat.id in Hspan by lia. cbv zeta in Hspan.
  rewrite Hspan by (assumption || lia). clear Hspan.
  unfold Node_allocated in Halloc.
  assert (Hka : (Z.to_nat depth + p < length key)%nat)
    by (apply lookup_lt_is_Some; eauto).
  assert (Hs : common_span
                 (take (Z.to_nat (prefix_length node)) (prefix node))
                 (drop (Z.to_nat depth) key) = p).
  { apply common_span_unique.
    - rewrite take_take. rewrite Nat.min_l by lia. symmetry. exact Hsame.
    - rewrite length_take. lia.
    - rewrite length_drop. lia.
    - right. right. rewrite lookup_take_lt by lia.
      rewrite lookup_drop, Ha, Hb. congruence. }
  rewrite Hs. destruct (decide _) as [_|Hno]; [reflexivity|].
  exfalso. apply Hno. right. lia.
Qed.

(** ** CopyPrefix and PrefixMismatch *)

(** X7: after CopyPrefix(art, src, dst) the destination compares with every
    key as the source does: PrefixMismatch on dst has the outcome it has on
    src, whatever dst held before. *)
Theorem CopyPrefix_PrefixMismatch {D} (art : ART) (src dst : Z)
    (h : gmap Z (Node D)) (s d : Node D) :
  src <> dst ->
  h !! src = Some s -> h !! dst = Some d ->
  Node_allocated art s -> Node_allocated art d ->
  exists h' d',
    CopyPrefix art src dst h = Returned h' /\
    h' !! dst = Some d' /\
    forall (key : Key) (depth : Z),
      PrefixMismatch art d' key depth = PrefixMismatch art s key depth.
Proof.
  intros Hne Hs Hd Has Had. unfold Node_allocated in *.
  eexists _, _.
  split; [apply (CopyPrefix_Returned art src dst h s d); auto; lia|].
  split; [apply lookup_insert_eq|].
  intros key depth. unfold PrefixMismatch, PrefixMismatch_exec. simpl.
  destruct (Z.leb_spec (prefix_length s) (maxPrefix art)) as [Hle|Hgt];
    [|reflexivity].
  apply PrefixMismatch_loop_ext. intros p Hp. split; [reflexivity|].
  simpl. rewrite Z.min_l by lia. unfold array_at.
  destruct (Z.ltb_spec p 0); [reflexivity|].
  rewrite lookup_app_l by (rewrite length_take; lia).
  apply lookup_take_lt. lia.
Qed.

(** ** CopyPrefix: how calls compose *)

(** What a call of CopyPrefix that returns was given. *)
Lemma CopyPrefix_Returned_inv {D} (art : ART) (src dst : Z)
    (h h' : gmap Z (Node D)) :
  CopyPrefix art src dst h = Returned h' ->
  exists s d : Node D,
    h !! src = Some s /\ h !! dst = Some d /\
    (src <> dst ->
     Z.min (prefix_length s) (maxPrefix art)
       <= Z.of_nat (length (prefix s)) /\
     Z.min (prefix_length s) (maxPrefix art)
       <= Z.of_nat (length (prefix d))).
Proof.
  unfold CopyPrefix, deref.
  destruct (h !! src) as [s|] eqn:Hs; simpl; [|discriminate].
  destruct (h !! dst) as [d|] eqn:Hd; simpl; [|discriminate].
  intros Hret. exists s, d. split; [reflexivity|]. split; [reflexivity|].
  intros Hne. revert Hret.
  rewrite lookup_insert_eq. rewrite lookup_insert_ne by congruence.
  rewrite Hs. simpl.
  unfold memcpy. rewrite bool_decide_eq_false_2 by assumption.
  cbn [andb]. unfold copy_bytes.
  destruct (Z.leb_spec (Z.min (prefix_length s) (maxPrefix art))
              (Z.of_nat (length (prefix s)))); [|discriminate].
  destruct (Z.leb_spec (Z.min (prefix_length s) (maxPrefix art))
              (Z.of_nat (length (prefix d)))); [|discriminate].
  intros _. split; assumption.
Qed.

(** One node as source and destination, and no byte to copy. *)
Lemma CopyPrefix_same_empty {D} (art : ART) (p : Z) (h : gmap Z (Node D))
    (s : Node D) :
  h !! p = Some s ->
  Z.min (prefix_length s) (maxPrefix art) <= 0 ->
  CopyPrefix art p p h = Returned h.
Proof.
  intros Hs Hn. unfold CopyPrefix, deref.
  rewrite Hs. simpl. rewrite lookup_insert_eq. simpl.
  unfold memcpy. rewrite bool_decide_eq_true_2 by reflexivity. cbn [andb].
  destruct (Z.ltb_spec 0 (Z.min (prefix_length s) (maxPrefix art)));
    [lia|].
  unfold copy_bytes.
  destruct (Z.leb_spec (Z.min (prefix_length s) (maxPrefix art))
              (Z.of_nat (length (prefix s)))); [|lia].
  simpl. replace (Z.to_nat (Z.min (prefix_length s) (maxPrefix art)))
    with 0%nat by lia.
  rewrite take_0, drop_0. simpl. unfold mret, Outcome_ret. f_equal.
  rewrite insert_insert_eq. unfold with_prefix, with_prefix_length. simpl.
  apply insert_id. rewrite Hs. destruct s; reflexivity.
Qed.

(** X8: CopyPrefix a second time changes nothing: a call that returned
    returns again, with the store it left. *)
Theorem CopyPrefix_idempotent {D} (art : ART) (src dst : Z)
    (h h' : gmap Z (Node D)) :
  CopyPrefix art src dst h = Returned h' ->
  CopyPrefix art src dst h' = Returned h'.
Proof.
  intros Hret.
  destruct (CopyPrefix_Returned_inv art src dst h h' Hret)
    as (s & d & Hs & Hd & Hlen).
  destruct (decide (src = dst)) as [->|Hne].
  - assert (s = d) as -> by congruence.
    destruct (Z.ltb_spec 0 (Z.min (prefix_length d) (maxPrefix art))).
    + rewrite (CopyPrefix_same_node art dst h d) in Hret by assumption.
      discriminate.
    + rewrite (CopyPrefix_same_empty art dst h d) in Hret by assumption.
      injection Hret as <-.
      apply (CopyPrefix_same_empty art dst h d); assumption.
  - destruct (Hlen Hne) as [Hns Hnd].
    rewrite (CopyPrefix_Returned art src dst h s d) in Hret by assumption.
    injection Hret as <-.
    set (n := Z.to_nat (Z.min (prefix_length s) (maxPrefix art))).
    assert (Hn : length (take n (prefix s)) = n)
      by (rewrite length_take; lia).
    set (d' := mkNode (prefix_length s) (count d) (type d)
                 (take n (prefix s) ++ drop n (prefix d)) (derived d)).
    rewrite (CopyPrefix_Returned art src dst (<[dst := d']> h) s d').
    + rewrite insert_insert_eq. simpl. fold n.
      rewrite drop_app_ge by lia. rewrite Hn, Nat.sub_diag, drop_0.
      reflexivity.
    + exact Hne.
    + rewrite lookup_insert_ne by congruence. exact Hs.
    + apply lookup_insert_eq.
    + exact Hns.
    + simpl. fold n. rewrite length_app, length_drop, Hn. lia.
Qed.

(** X9: a prefix copied from a first node to a second and from there to a
    third is the prefix copied from the first to the third at once: the
    third node is the same either way. *)
Theorem CopyPrefix_chain {D} (art : ART) (a b c : Z)
    (h : gmap Z (Node D)) (na nb nc : Node D) :
  a <> b -> b <> c -> a <> c ->
  h !! a = Some na -> h !! b = Some nb -> h !! c = Some nc ->
  Node_allocated art na -> Node_allocated art nb -> Node_allocated art nc ->
  exists h1 h2 h3,
    CopyPrefix art a b h = Returned h1 /\
    CopyPrefix art b c h1 = Returned h2 /\
    CopyPrefix art a c h = Returned h3 /\
    h2 !! c = h3 !! c /\ h2 !! a = Some na /\ h3 !! b = Some nb.
Proof.
  intros Hab Hbc Hac Ha Hb Hc Haa Hab' Hac'. unfold Node_allocated in *.
  set (n := Z.to_nat (Z.min (prefix_length na) (maxPrefix art))).
  assert (Hn : length (take n (prefix na)) = n)
    by (rewrite length_take; lia).
  eexists _, _, _. split; [|split; [|split]].
  - apply (CopyPrefix_Returned art a b h na nb); auto; lia.
  - eapply (CopyPrefix_Returned art b c).
    + exact Hbc.
    + apply lookup_insert_eq.
    + rewrite lookup_insert_ne by congruence. exact Hc.
    + simpl. fold n. rewrite length_app, length_drop, Hn. lia.
    + simpl. lia.
  - apply (CopyPrefix_Returned art a c h na nc); auto; lia.
  - simpl. fold n. rewrite !lookup_insert_eq. split; [|split].
    + f_equal. f_equal.
      rewrite take_app_le by lia. rewrite take_take.
      f_equal. f_equal. lia.
    + rewrite !lookup_insert_ne by congruence. exact Ha.
    + rewrite lookup_insert_ne by congruence. exact Hb.
Qed.

(** X10: CopyPrefix with one node as source and destination: with no
    prefix byte to copy (prefix_length or maxPrefix is 0) the store stays
    as it is; with a byte to copy, memcpy is given one array twice and the
    call has no defined outcome. *)
Theorem CopyPrefix_self {D} (art : ART) (p : Z) (h : gmap Z (Node D))
    (s : Node D) :
  h !! p = Some s ->
  CopyPrefix art p p h =
    if 0 <? Z.min (prefix_length s) (maxPrefix art) then Undefined
    else Returned h.
Proof.
  intros Hs.
  destruct (Z.ltb_spec 0 (Z.min (prefix_length s) (maxPrefix art))).
  - apply (CopyPrefix_same_node art p h s); assumption.
  - apply (CopyPrefix_same_empty art p h s); assumption.
Qed.

(** ** The constructor and PrefixMismatch *)

(** X27: a node built by the constructor meets what the header operations
    ask of a node of its tree: prefix_length and count are in the ranges of
    their types, the prefix array has maxPrefix cells, and PrefixMismatch
    on it returns 0 for every key at every depth without a read, whatever
    the new array happens to hold. *)
Theorem Node_new_ready {D} (art : ART) (ty : NodeType) (fresh : nat -> byte)
    (d : D) (key : Key) (depth : Z) :
  ART_typed art ->
  Node_typed (Node_new art ty fresh d) /\
  Node_allocated art (Node_new art ty fresh d) /\
  PrefixMismatch_exec art (Node_new art ty fresh d) key depth =
    mkExec [] (Returned 0).
Proof.
  intros [Hmax0 Hmax]. split; [|split].
  - unfold Node_typed, uint_range. simpl. lia.
  - unfold Node_allocated. simpl. rewrite length_fmap, length_seq. lia.
  - unfold PrefixMismatch_exec. simpl.
    destruct (Z.leb_spec 0 (maxPrefix art)); [reflexivity|lia].
Qed.

(** * The binary executor *)

(** ** Arrays and loops *)

Lemma array_get_Returned {A} (a : list A) (i : Z) (x : A) :
  array_at a i = Some x -> array_get a i = Returned x.
Proof. unfold array_get. intros ->. reflexivity. Qed.

Lemma array_get_Returned_inv {A} (a : list A) (i : Z) (x : A) :
  array_get a i = Returned x -> array_at a i = Some x.
Proof.
  unfold array_get. destruct (array_at a i); simpl; [|discriminate].
  intros [= ->]. reflexivity.
Qed.

Lemma array_at_lt {A} (a : list A) (i : Z) (x : A) :
  array_at a i = Some x -> 0 <= i < Z.of_nat (length a).
Proof.
  unfold array_at. destruct (Z.ltb_spec i 0) as [|Hi]; [discriminate|].
  intros Hx. apply lookup_lt_Some in Hx. lia.
Qed.

Lemma array_set_Returned {A} (a : list A) (i : Z) (v : A) :
  0 <= i < Z.of_nat (length a) ->
  array_set a i v = Returned (<[Z.to_nat i := v]> a).
Proof.
  intros Hi. unfold array_set.
  destruct (Z.leb_spec 0 i); [|lia].
  destruct (Z.ltb_spec i (Z.of_nat (length a))); [|lia]. reflexivity.
Qed.

Lemma array_set_Returned_inv {A} (a a' : list A) (i : Z) (v : A) :
  array_set a i v = Returned a' ->
  0 <= i < Z.of_nat (length a) /\ a' = <[Z.to_nat i := v]> a.
Proof.
  unfold array_set.
  destruct (Z.leb_spec 0 i); simpl; [|discriminate].
  destruct (Z.ltb_spec i (Z.of_nat (length a))); [|discriminate].
  intros [= <-]. split; [lia|reflexivity].
Qed.

Lemma array_at_insert_eq {A} (a : list A) (i : Z) (v : A) :
  0 <= i < Z.of_nat (length a) ->
  array_at (<[Z.to_nat i := v]> a) i = Some v.
Proof.
  intros Hi. unfold array_at. destruct (Z.ltb_spec i 0); [lia|].
  apply list_lookup_insert_eq. lia.
Qed.

Lemma array_at_insert_ne {A} (a : list A) (i k : Z) (v : A) :
  0 <= i -> i <> k ->
  array_at (<[Z.to_nat i := v]> a) k = array_at a k.
Proof.
  intros Hi Hne. unfold array_at. destruct (Z.ltb_spec k 0); [reflexivity|].
  apply list_lookup_insert_ne. lia.
Qed.

(** A loop whose body keeps an invariant and returns wherever the invariant
    holds, returns, with the invariant at the end. *)
Lemma for_from_inv {St} (body : Z -> St -> Outcome St) (P : Z -> St -> Prop)
    (todo : nat) :
  forall i s,
    P i s ->
    (forall j s, i <= j < i + Z.of_nat todo -> P j s ->
       exists s', body j s = Returned s' /\ P (j + 1) s') ->
    exists s', for_from body i todo s = Returned s' /\
               P (i + Z.of_nat todo) s'.
Proof.
  induction todo as [|todo IH]; intros i s HP Hbody.
  - exists s. rewrite Z.add_0_r. auto.
  - simpl. destruct (Hbody i s) as (s1 & -> & HP1); [lia|exact HP|]. simpl.
    destruct (IH (i + 1) s1 HP1) as (s' & Hrun & HP').
    { intros j s2 Hj. apply Hbody. lia. }
    exists s'. split; [exact Hrun|].
    replace (i + Z.of_nat (S todo)) with (i + 1 + Z.of_nat todo) by lia.
    exact HP'.
Qed.

Lemma for_loop_inv {St} (body : Z -> St -> Outcome St) (P : Z -> St -> Prop)
    (count : Z) (s : St) :
  0 <= count -> P 0 s ->
  (forall j s, 0 <= j < count -> P j s ->
     exists s', body j s = Returned s' /\ P (j + 1) s') ->
  exists s', for_loop count body s = Returned s' /\ P count s'.
Proof.
  intros Hc HP Hbody. unfold for_loop.
  destruct (for_from_inv body P (Z.to_nat count) 0 s HP) as (s' & Hrun & HP').
  { intros j s1 Hj. apply Hbody. lia. }
  exists s'. split; [exact Hrun|].
  rewrite Z2Nat.id in HP' by lia. exact HP'.
Qed.

(** A loop that returns has kept every invariant its body keeps when it
    returns. *)
Lemma for_from_Returned_inv {St} (body : Z -> St -> Outcome St)
    (P : Z -> St -> Prop) (todo : nat) :
  forall i s s',
    P i s ->
    (forall j s s', i <= j < i + Z.of_nat todo -> P j s ->
       body j s = Returned s' -> P (j + 1) s') ->
    for_from body i todo s = Returned s' ->
    P (i + Z.of_nat todo) s'.
Proof.
  induction todo as [|todo IH]; intros i s s' HP Hbody.
  - simpl. intros [= <-]. rewrite Z.add_0_r. exact HP.
  - simpl. destruct (body i s) as [s1| | |] eqn:Hb; simpl; try discriminate.
    intros Hrun.
    replace (i + Z.of_nat (S todo)) with (i + 1 + Z.of_nat todo) by lia.
    apply (IH (i + 1) s1 s'); [|intros j s2 s3 Hj; apply Hbody; lia|exact Hrun].
    apply (Hbody i s s1); [lia|exact HP|exact Hb].
Qed.

Lemma for_loop_Returned_inv {St} (body : Z -> St -> Outcome St)
    (P : Z -> St -> Prop) (count : Z) (s s' : St) :
  0 <= count -> P 0 s ->
  (forall j s s', 0 <= j < count -> P j s ->
     body j s = Returned s' -> P (j + 1) s') ->
  for_loop count body s = Returned s' -> P count s'.
Proof.
  intros Hc HP Hbody Hrun. unfold for_loop in Hrun.
  pose proof (for_from_Returned_inv body P (Z.to_nat count) 0 s s' HP) as H.
  rewrite Z2Nat.id in H by lia. apply H; [|exact Hrun].
  intros j s1 s2 Hj. apply Hbody. lia.
Qed.

(** Two loops whose bodies agree run alike. *)
Lemma for_from_ext {St} (body1 body2 : Z -> St -> Outcome St) (todo : nat) :
  forall i s,
    (forall j s, i <= j < i + Z.of_nat todo -> body1 j s = body2 j s) ->
    for_from body1 i todo s = for_from body2 i todo s.
Proof.
  induction todo as [|todo IH]; intros i s H; [reflexivity|].
  simpl. rewrite (H i s) by lia.
  destruct (body2 i s) as [s1| | |]; simpl; try reflexivity.
  apply IH. intros j s2 Hj. apply H. lia.
Qed.

Module BinaryExecutorFacts.
Import BinaryExecutor.

(** ** Nullmasks *)

Lemma nullmask_any_false (m : list bool) (i : Z) (b : bool) :
  nullmask_any m = false -> array_at m i = Some b -> b = false.
Proof.
  unfold nullmask_any, array_at. intros Hany.
  destruct (i <? 0); [discriminate|]. intros Hi.
  apply list_elem_of_lookup_2, list_elem_of_In in Hi.
  destruct b; [|reflexivity].
  assert (existsb id m = true) as Hex
    by (apply existsb_exists; exists true; auto).
  congruence.
Qed.

Lemma array_at_nullmask_or (a b : list bool) (i : Z) :
  array_at (nullmask_or a b) i =
    match array_at a i, array_at b i with
    | Some x, Some y => Some (x || y)
    | _, _ => None
    end.
Proof.
  unfold array_at, nullmask_or. destruct (i <? 0); [reflexivity|].
  rewrite lookup_zip_with.
  destruct (a !! Z.to_nat i); simpl; [|reflexivity].
  destruct (b !! Z.to_nat i); reflexivity.
Qed.

Lemma length_nullmask_or (a b : list bool) :
  length (nullmask_or a b) = Nat.min (length a) (length b).
Proof. apply length_zip_with. Qed.

Lemma entry_readable {A} (CONSTANT : bool) (a : list A) (count i : Z) :
  readable CONSTANT a count -> 0 <= i < count ->
  is_Some (entry CONSTANT a i).
Proof.
  unfold readable, entry. intros Hr Hi.
  destruct CONSTANT; apply array_at_Some; lia.
Qed.

(** ** Execute *)

Section ExecuteFacts.
Variable SameCardinality : forall A B, Vector A -> Vector B -> bool.
Variable Orrify :
  forall A, Vector A -> Outcome (Vector A * list Z * list A).
Context {L R T : Type}.
Variable Operation : L -> R -> list bool -> Z -> T.

(** The flat loop: every row below [count] is computed from its entries,
    unless NULL rows are skipped and the row is NULL; nothing else
    changes. *)
Lemma ExecuteFlatLoop_run (IGNORE_NULL LC RC : bool) (ldata : list L)
    (rdata : list R) (result_data : list T) (count : Z)
    (nullmask : list bool) :
  0 <= count <= Z.of_nat (length result_data) ->
  readable LC ldata count -> readable RC rdata count ->
  (IGNORE_NULL = true -> count <= Z.of_nat (length nullmask)) ->
  exists out,
    ExecuteFlatLoop Operation IGNORE_NULL LC RC ldata rdata result_data
      count nullmask = Returned out /\
    length out = length result_data /\
    (forall i l r, 0 <= i < count ->
       (IGNORE_NULL = true -> array_at nullmask i = Some false) ->
       entry LC ldata i = Some l -> entry RC rdata i = Some r ->
       array_at out i = Some (Operation l r nullmask i)) /\
    (forall i, count <= i \/
               (IGNORE_NULL = true /\ array_at nullmask i = Some true) ->
       array_at out i = array_at result_data i).
Proof.
  intros Hcount Hl Hr Hmask.
  set (P := fun (j : Z) (out : list T) =>
    length out = length result_data /\
    (forall i l r, 0 <= i < j ->
       (IGNORE_NULL = true -> array_at nullmask i = Some false) ->
       entry LC ldata i = Some l -> entry RC rdata i = Some r ->
       array_at out i = Some (Operation l r nullmask i)) /\
    (forall i, j <= i \/
               (IGNORE_NULL = true /\ array_at nullmask i = Some true) ->
       array_at out i = array_at result_data i)).
  assert (HP0 : P 0 result_data).
  { split; [reflexivity|]. split; [intros; lia|reflexivity]. }
  assert (Hstep : forall j out l r,
    0 <= j < count -> P j out ->
    entry LC ldata j = Some l -> entry RC rdata j = Some r ->
    (IGNORE_NULL = true -> array_at nullmask j = Some false) ->
    P (j + 1) (<[Z.to_nat j := Operation l r nullmask j]> out)).
  { intros j out l r Hj (Hlen & Hdone & Hrest) Hjl Hjr Hjn.
    split; [rewrite length_insert; exact Hlen|]. split.
    - intros i l' r' Hi Hn Hil Hir.
      destruct (decide (i = j)) as [->|Hne].
      + rewrite array_at_insert_eq by lia. congruence.
      + rewrite array_at_insert_ne by lia. apply Hdone; auto. lia.
    - intros i Hi. rewrite array_at_insert_ne.
      + apply Hrest. destruct Hi; [left; lia|right; assumption].
      + lia.
      + destruct Hi as [Hi|[Hig Hin]]; [lia|].
        intros <-. rewrite Hjn in Hin by assumption. discriminate. }
  unfold ExecuteFlatLoop.
  destruct (IGNORE_NULL && nullmask_any nullmask) eqn:Hbranch.
  - apply andb_prop in Hbranch as [-> Hany].
    apply (for_loop_inv _ P); [lia|exact HP0|].
    intros j out Hj HP.
    destruct (array_at_Some nullmask j) as [null Hnull];
      [specialize (Hmask eq_refl); lia|].
    rewrite (array_get_Returned _ _ _ Hnull). simpl.
    destruct null; simpl.
    + exists out. split; [reflexivity|].
      destruct HP as (Hlen & Hdone & Hrest). split; [exact Hlen|]. split.
      * intros i l r Hi Hn Hil Hir.
        destruct (decide (i = j)) as [->|Hne].
        -- rewrite Hn in Hnull by reflexivity. discriminate.
        -- apply Hdone; auto. lia.
      * intros i Hi. apply Hrest. destruct Hi; [left; lia|right; assumption].
    + destruct (entry_readable LC ldata count j Hl Hj) as [l Hjl].
      destruct (entry_readable RC rdata count j Hr Hj) as [r Hjr].
      unfold entry in Hjl, Hjr.
      rewrite (array_get_Returned _ _ _ Hjl). simpl.
      rewrite (array_get_Returned _ _ _ Hjr). simpl.
      destruct HP as (Hlen & HP').
      rewrite array_set_Returned by lia.
      eexists. split; [reflexivity|].
      apply Hstep; auto. split; assumption.
  - apply (for_loop_inv _ P); [lia|exact HP0|].
    intros j out Hj HP.
    destruct (entry_readable LC ldata count j Hl Hj) as [l Hjl].
    destruct (entry_readable RC rdata count j Hr Hj) as [r Hjr].
    unfold entry in Hjl, Hjr.
    rewrite (array_get_Returned _ _ _ Hjl). simpl.
    rewrite (array_get_Returned _ _ _ Hjr). simpl.
    pose proof HP as (Hlen & _).
    rewrite array_set_Returned by lia.
    eexists. split; [reflexivity|].
    apply Hstep; auto.
    intros ->. simpl in Hbranch.
    destruct (array_at_Some nullmask j) as [null Hnull];
      [specialize (Hmask eq_refl); lia|].
    rewrite Hnull. f_equal. eapply nullmask_any_false; eauto.
Qed.

(** X11: ExecuteFlat on operands that are flat or constant and not NULL as
    constants returns a flat result over the result's rows: its nullmask is
    the other operand's beside a constant, the two operands' nullmasks
    or-ed otherwise; every row that is not NULL holds the operation on the
    entries of the row, a constant operand giving its one entry to every
    row; the cells behind the rows stay. *)
Theorem ExecuteFlat_rows (IGNORE_NULL LC RC : bool) (left : Vector L)
    (right : Vector R) (result : Vector T) :
  (LC = true -> array_at (nullmask left) 0 = Some false) ->
  (RC = true -> array_at (nullmask right) 0 = Some false) ->
  0 <= size result <= Z.of_nat (length (data result)) ->
  readable LC (data left) (size result) ->
  readable RC (data right) (size result) ->
  (IGNORE_NULL = true ->
   size result <= Z.of_nat (length (flat_nullmask LC RC left right))) ->
  exists result',
    ExecuteFlat Operation IGNORE_NULL LC RC left right result =
      Returned result' /\
    vector_type result' = FLAT_VECTOR /\ size result' = size result /\
    nullmask result' = flat_nullmask LC RC left right /\
    length (data result') = length (data result) /\
    (forall i l r, 0 <= i < size result ->
       array_at (nullmask result') i = Some false ->
       entry LC (data left) i = Some l -> entry RC (data right) i = Some r ->
       array_at (data result') i =
         Some (Operation l r (nullmask result') i)) /\
    (forall i, size result <= i ->
       array_at (data result') i = array_at (data result) i).
Proof.
  intros Hlc Hrc Hsize Hl Hr Hmask.
  destruct (ExecuteFlatLoop_run IGNORE_NULL LC RC (data left) (data right)
              (data result) (size result) (flat_nullmask LC RC left right))
    as (out & Hrun & Hlen & Hrows & Hrest); try assumption.
  exists (mkVector FLAT_VECTOR (flat_nullmask LC RC left right) out
            (size result)).
  split.
  - unfold ExecuteFlat.
    assert (Hnull :
      (if LC then array_get (nullmask left) 0 else Returned false) =
        Returned false).
    { destruct LC; [|reflexivity].
      apply array_get_Returned, Hlc. reflexivity. }
    rewrite Hnull. simpl.
    assert (Hnull' :
      (if RC then array_get (nullmask right) 0 else Returned false) =
        Returned false).
    { destruct RC; [|reflexivity].
      apply array_get_Returned, Hrc. reflexivity. }
    rewrite Hnull'. simpl.
    unfold flat_nullmask in Hrun.
    destruct LC; [|destruct RC]; simpl; rewrite Hrun; reflexivity.
  - simpl. repeat split; try assumption; try reflexivity.
    + intros i l r Hi Hn Hil Hir. apply Hrows; auto.
    + intros i Hi. apply Hrest. left. exact Hi.
Qed.

(** X12: on two flat vectors ExecuteSwitch (and so Execute and
    ExecuteStandard) returns a flat result in which a row is NULL exactly
    when it is NULL in one of the operands, and every other row holds the
    operation on the two entries of the row. *)
Theorem ExecuteSwitch_flat_flat (IGNORE_NULL : bool) (left : Vector L)
    (right : Vector R) (result : Vector T) :
  SameCardinality L R left right = true ->
  SameCardinality L T left result = true ->
  vector_type left = FLAT_VECTOR -> vector_type right = FLAT_VECTOR ->
  0 <= size result <= Z.of_nat (length (data result)) ->
  size result <= Z.of_nat (length (data left)) ->
  size result <= Z.of_nat (length (data right)) ->
  size result <= Z.of_nat (length (nullmask left)) ->
  size result <= Z.of_nat (length (nullmask right)) ->
  exists result',
    ExecuteSwitch SameCardinality Orrify Operation IGNORE_NULL
      left right result = Returned result' /\
    vector_type result' = FLAT_VECTOR /\ size result' = size result /\
    (forall i, 0 <= i < size result ->
       (array_at (nullmask result') i = Some true <->
        array_at (nullmask left) i = Some true \/
        array_at (nullmask right) i = Some true) /\
       (array_at (nullmask result') i = Some false <->
        array_at (nullmask left) i = Some false /\
        array_at (nullmask right) i = Some false)) /\
    (forall i l r, 0 <= i < size result ->
       array_at (nullmask left) i = Some false ->
       array_at (nullmask right) i = Some false ->
       array_at (data left) i = Some l -> array_at (data right) i = Some r ->
       array_at (data result') i =
         Some (Operation l r (nullmask result') i)).
Proof.
  intros Hc1 Hc2 Htl Htr Hsize Hl Hr Hml Hmr.
  destruct (ExecuteFlatLoop_run IGNORE_NULL false false
              (data left) (data right) (data result) (size result)
              (nullmask_or (nullmask left) (nullmask right)))
    as (out & Hrun & Hlen & Hrows & Hrest); try assumption.
  { intros _. rewrite length_nullmask_or. lia. }
  exists (mkVector FLAT_VECTOR
            (nullmask_or (nullmask left) (nullmask right)) out
            (size result)).
  split; [|split; [reflexivity|split; [reflexivity|split]]].
  - unfold ExecuteSwitch. rewrite Hc1, Hc2, Htl, Htr. simpl.
    unfold ExecuteFlat. simpl. rewrite Hrun. reflexivity.
  - intros i Hi. simpl. rewrite array_at_nullmask_or.
    destruct (array_at_Some (nullmask left) i) as [x ->]; [lia|].
    destruct (array_at_Some (nullmask right) i) as [y ->]; [lia|].
    destruct x, y; simpl; intuition discriminate.
  - intros i l r Hi Hnl Hnr Hil Hir. simpl. apply Hrows; auto.
    intros _. rewrite array_at_nullmask_or, Hnl, Hnr. reflexivity.
Qed.

(** X13: a constant operand that is NULL makes the result the constant
    NULL: beside a flat or constant other operand, ExecuteSwitch sets the
    result's type to constant and bit 0 of its nullmask, and neither reads
    the operands' data nor writes the result's. *)
Theorem ExecuteSwitch_constant_NULL (IGNORE_NULL : bool) (left : Vector L)
    (right : Vector R) (result : Vector T) :
  SameCardinality L R left right = true ->
  SameCardinality L T left result = true ->
  (vector_type left = CONSTANT_VECTOR /\
   array_at (nullmask left) 0 = Some true /\
   (vector_type right = FLAT_VECTOR \/
    vector_type right = CONSTANT_VECTOR)) \/
  (vector_type right = CONSTANT_VECTOR /\
   array_at (nullmask right) 0 = Some true /\
   (vector_type left = FLAT_VECTOR \/
    vector_type left = CONSTANT_VECTOR /\
    is_Some (array_at (nullmask left) 0))) ->
  0 < Z.of_nat (length (nullmask result)) ->
  ExecuteSwitch SameCardinality Orrify Operation IGNORE_NULL
    left right result =
  Returned (mkVector CONSTANT_VECTOR (<[0%nat := true]> (nullmask result))
              (data result) (size result)).
Proof.
  intros Hc1 Hc2 Hcase Hres.
  unfold ExecuteSwitch. rewrite Hc1, Hc2. simpl.
  assert (Hset : array_set (nullmask result) 0 true =
                 Returned (<[0%nat := true]> (nullmask result)))
    by (apply (array_set_Returned (nullmask result) 0 true); lia).
  destruct Hcase as [(Htl & Hnl & [Htr|Htr]) | (Htr & Hnr & [Htl|[Htl Hl]])];
    rewrite Htl, Htr; simpl.
  - unfold ExecuteFlat. rewrite (array_get_Returned _ _ _ Hnl). simpl.
    rewrite Hset. reflexivity.
  - unfold ExecuteConstant. rewrite (array_get_Returned _ _ _ Hnl). simpl.
    rewrite Hset. reflexivity.
  - unfold ExecuteFlat. simpl. rewrite (array_get_Returned _ _ _ Hnr). simpl.
    rewrite Hset. reflexivity.
  - unfold ExecuteConstant. destruct Hl as [x Hx].
    rewrite (array_get_Returned _ _ _ Hx). simpl.
    destruct x; simpl.
    + rewrite Hset. reflexivity.
    + rewrite (array_get_Returned _ _ _ Hnr). simpl.
      rewrite Hset. reflexivity.
Qed.

(** X14: on two constant vectors that are not NULL ExecuteSwitch writes the
    operation on the two entries to cell 0 of the result and makes it a
    constant vector; the nullmask of the result is left as it came, bit 0
    included. *)
Theorem ExecuteSwitch_constant_constant (IGNORE_NULL : bool)
    (left : Vector L) (right : Vector R) (result : Vector T) (l : L) (r : R) :
  SameCardinality L R left right = true ->
  SameCardinality L T left result = true ->
  vector_type left = CONSTANT_VECTOR ->
  vector_type right = CONSTANT_VECTOR ->
  array_at (nullmask left) 0 = Some false ->
  array_at (nullmask right) 0 = Some false ->
  array_at (data left) 0 = Some l -> array_at (data right) 0 = Some r ->
  0 < Z.of_nat (length (data result)) ->
  ExecuteSwitch SameCardinality Orrify Operation IGNORE_NULL
    left right result =
  Returned (mkVector CONSTANT_VECTOR (nullmask result)
              (<[0%nat := Operation l r (nullmask result) 0]> (data result))
              (size result)).
Proof.
  intros Hc1 Hc2 Htl Htr Hnl Hnr Hl Hr Hres.
  unfold ExecuteSwitch. rewrite Hc1, Hc2, Htl, Htr. simpl.
  unfold ExecuteConstant.
  rewrite (array_get_Returned _ _ _ Hnl). simpl.
  rewrite (array_get_Returned _ _ _ Hnr). simpl.
  rewrite (array_get_Returned _ _ _ Hl). simpl.
  rewrite (array_get_Returned _ _ _ Hr). simpl.
  rewrite (array_set_Returned (data result) 0) by lia. reflexivity.
Qed.

(** What a flat loop that computes every row has read when it returns. *)
Lemma ExecuteFlatLoop_all_readable (LC RC : bool) (ldata : list L)
    (rdata : list R) (result_data out : list T) (count : Z)
    (nullmask : list bool) :
  0 < count ->
  ExecuteFlatLoop Operation false LC RC ldata rdata result_data count
    nullmask = Returned out ->
  count <= Z.of_nat (length result_data) /\
  readable LC ldata count /\ readable RC rdata count.
Proof.
  intros Hcount. unfold ExecuteFlatLoop. simpl. intros Hrun.
  set (P := fun (j : Z) (out : list T) =>
    length out = length result_data /\
    forall i, 0 <= i < j ->
      i < Z.of_nat (length result_data) /\
      is_Some (entry LC ldata i) /\ is_Some (entry RC rdata i)).
  assert (HP : P count out).
  { eapply (for_loop_Returned_inv _ P); [lia| | |exact Hrun].
    - split; [reflexivity|]. intros; lia.
    - intros j s s' Hj (Hlen & Hdone).
      destruct (array_get ldata (if LC then 0 else j)) as [l| | |] eqn:Hl;
        simpl; try discriminate.
      destruct (array_get rdata (if RC then 0 else j)) as [r| | |] eqn:Hr;
        simpl; try discriminate.
      intros Hset. apply array_set_Returned_inv in Hset as [Hjs ->].
      split; [rewrite length_insert; exact Hlen|].
      intros i Hi. destruct (decide (i = j)) as [->|Hne].
      + apply array_get_Returned_inv in Hl, Hr. unfold entry.
        rewrite Hl, Hr. split; [lia|]. split; eexists; reflexivity.
      + apply Hdone. lia. }
  destruct HP as (_ & Hall).
  destruct (Hall (count - 1)) as (Hlast & [l Hl] & [r Hr]); [lia|].
  destruct (Hall 0) as (_ & [l0 Hl0] & [r0 Hr0]); [lia|].
  unfold entry, readable in *.
  split; [lia|]. split.
  - destruct LC; [apply array_at_lt in Hl0|apply array_at_lt in Hl]; lia.
  - destruct RC; [apply array_at_lt in Hr0|apply array_at_lt in Hr]; lia.
Qed.

Lemma array_at_neg {A} (a : list A) (i : Z) : i < 0 -> array_at a i = None.
Proof.
  intros Hi. unfold array_at.
  destruct (Z.ltb_spec i 0); [reflexivity|lia].
Qed.

Lemma ExecuteFlatLoop_IGNORE_NULL (LC RC : bool) (ldata : list L)
    (rdata : list R) (result_data db : list T) (count : Z)
    (nullmask : list bool) :
  ExecuteFlatLoop Operation false LC RC ldata rdata result_data count
    nullmask = Returned db ->
  count <= Z.of_nat (length nullmask) ->
  exists da,
    ExecuteFlatLoop Operation true LC RC ldata rdata result_data count
      nullmask = Returned da /\
    length da = length db /\
    forall i, array_at nullmask i <> Some true ->
      array_at da i = array_at db i.
Proof.
  intros Hrun Hmask.
  destruct (Z.le_gt_cases count 0) as [Hle|Hgt].
  - exists result_data. revert Hrun. unfold ExecuteFlatLoop, for_loop.
    replace (Z.to_nat count) with 0%nat by lia. simpl.
    destruct (nullmask_any nullmask); simpl; intros [= <-]; auto.
  - destruct (ExecuteFlatLoop_all_readable LC RC ldata rdata result_data db
                count nullmask Hgt Hrun) as (Hres & Hl & Hr).
    destruct (ExecuteFlatLoop_run false LC RC ldata rdata result_data count
                nullmask) as (out & Hout & Hlenb & Hrowsb & Hrestb);
      try assumption; try solve [intros; lia | discriminate].
    rewrite Hrun in Hout. injection Hout as <-.
    destruct (ExecuteFlatLoop_run true LC RC ldata rdata result_data count
                nullmask) as (da & Hda & Hlena & Hrowsa & Hresta);
      try assumption; try solve [intros; lia].
    exists da. split; [exact Hda|]. split; [congruence|].
    intros i Hi.
    destruct (Z.lt_ge_cases i 0) as [Hneg|Hpos];
      [rewrite !array_at_neg by assumption; reflexivity|].
    destruct (Z.lt_ge_cases i count) as [Hlt|Hge].
    + destruct (array_at_Some nullmask i) as [x Hx]; [lia|].
      destruct x; [congruence|].
      destruct (entry_readable LC ldata count i Hl) as [l Hil]; [lia|].
      destruct (entry_readable RC rdata count i Hr) as [r Hir]; [lia|].
      rewrite (Hrowsa i l r), (Hrowsb i l r); auto; try lia.
    + rewrite Hresta, Hrestb by (left; lia). reflexivity.
Qed.

(** X15: IGNORE_NULL spares work and changes no row that counts: whenever
    ExecuteSwitch returns without it, ExecuteSwitch returns with it, a
    result of the same type, size and nullmask, with the same data in every
    row that is not NULL. *)
Theorem ExecuteSwitch_IGNORE_NULL (left : Vector L) (right : Vector R)
    (result b : Vector T) :
  ExecuteSwitch SameCardinality Orrify Operation false left right result =
    Returned b ->
  size result <= Z.of_nat (length (nullmask b)) ->
  exists a,
    ExecuteSwitch SameCardinality Orrify Operation true left right result =
      Returned a /\
    vector_type a = vector_type b /\ size a = size b /\
    nullmask a = nullmask b /\ length (data a) = length (data b) /\
    forall i, array_at (nullmask b) i <> Some true ->
      array_at (data a) i = array_at (data b) i.
Proof.
  assert (Hflat : forall LC RC,
    ExecuteFlat Operation false LC RC left right result = Returned b ->
    size result <= Z.of_nat (length (nullmask b)) ->
    exists a,
      ExecuteFlat Operation true LC RC left right result = Returned a /\
      vector_type a = vector_type b /\ size a = size b /\
      nullmask a = nullmask b /\ length (data a) = length (data b) /\
      forall i, array_at (nullmask b) i <> Some true ->
        array_at (data a) i = array_at (data b) i).
  { intros LC RC. unfold ExecuteFlat.
    destruct (if LC then array_get (nullmask left) 0 else Returned false)
      as [lnull| | |]; simpl; try discriminate.
    destruct (if lnull then Returned true
              else if RC then array_get (nullmask right) 0
              else Returned false) as [null| | |]; simpl; try discriminate.
    destruct null.
    { intros Hb _. exists b. rewrite Hb. auto 10. }
    set (m := nullmask
                (if LC then with_nullmask (with_vector_type result FLAT_VECTOR)
                              (nullmask right)
                 else if RC then
                   with_nullmask (with_vector_type result FLAT_VECTOR)
                     (nullmask left)
                 else with_nullmask (with_vector_type result FLAT_VECTOR)
                        (nullmask_or (nullmask left) (nullmask right)))).
    assert (Hsz : forall (v : Vector T),
      size (if LC then with_nullmask (with_vector_type result FLAT_VECTOR)
                         (nullmask right)
            else if RC then
              with_nullmask (with_vector_type result FLAT_VECTOR)
                (nullmask left)
            else with_nullmask (with_vector_type result FLAT_VECTOR)
                   (nullmask_or (nullmask left) (nullmask right)))
      = size result) by (intros _; destruct LC, RC; reflexivity).
    rewrite (Hsz result).
    destruct (ExecuteFlatLoop Operation false LC RC (data left) (data right)
                (data result) (size result) m) as [db| | |] eqn:Hdb;
      simpl; try discriminate.
    intros [= <-]. simpl. intros Hmask.
    destruct (ExecuteFlatLoop_IGNORE_NULL LC RC (data left) (data right)
                (data result) db (size result) m Hdb)
      as (da & Hda & Hlen & Hrows).
    { subst m. destruct LC, RC; exact Hmask. }
    rewrite Hda. simpl. eexists. split; [reflexivity|]. simpl.
    split; [reflexivity|]. split; [reflexivity|]. split; [reflexivity|].
    split; [exact Hlen|].
    intros i Hi. apply Hrows. subst m. destruct LC, RC; exact Hi. }
  unfold ExecuteSwitch.
  destruct (negb _); [discriminate|].
  repeat (destruct (_ && _); [solve [apply Hflat|
    intros Hb _; exists b; split; [exact Hb|auto 10]]|]).
  intros Hb _. exists b. split; [exact Hb|auto 10].
Qed.

(** X16: the generic loop, over rows whose cells the two selection vectors
    name: a row whose two cells are not NULL gets the operation on the two
    entries and keeps its bit of the result nullmask; a row with a NULL cell
    gets its bit set and keeps its data; rows from [count] on keep both. The
    nullmask the operation is handed for row i is the result nullmask as
    the rows before i left it. *)
Theorem ExecuteGenericLoop_rows (IGNORE_NULL : bool) (ldata : list L)
    (rdata : list R) (result_data : list T) (lsel rsel : list Z)
    (count : Z) (lnullmask rnullmask result_nullmask : list bool) :
  0 <= count <= Z.of_nat (length result_data) ->
  count <= Z.of_nat (length result_nullmask) ->
  (forall i, 0 <= i < count ->
     exists lindex rindex,
       array_at lsel i = Some lindex /\ array_at rsel i = Some rindex /\
       is_Some (array_at lnullmask lindex) /\
       is_Some (array_at rnullmask rindex) /\
       is_Some (array_at ldata lindex) /\
       is_Some (array_at rdata rindex)) ->
  exists d m,
    ExecuteGenericLoop Operation IGNORE_NULL ldata rdata result_data
      lsel rsel count lnullmask rnullmask result_nullmask =
      Returned (d, m) /\
    length d = length result_data /\
    length m = length result_nullmask /\
    (forall i lindex rindex, 0 <= i < count ->
       array_at lsel i = Some lindex -> array_at rsel i = Some rindex ->
       (array_at lnullmask lindex = Some false ->
        array_at rnullmask rindex = Some false ->
        array_at m i = array_at result_nullmask i /\
        forall l r,
          array_at ldata lindex = Some l -> array_at rdata rindex = Some r ->
          exists mi,
            array_at d i = Some (Operation l r mi i) /\
            (forall k, k < i -> array_at mi k = array_at m k) /\
            (forall k, i <= k ->
               array_at mi k = array_at result_nullmask k)) /\
       (array_at lnullmask lindex = Some true \/
        array_at rnullmask rindex = Some true ->
        array_at m i = Some true /\
        array_at d i = array_at result_data i)) /\
    (forall i, count <= i ->
       array_at d i = array_at result_data i /\
       array_at m i = array_at result_nullmask i).
Proof.
  intros Hcount Hmask Hsel.
  set (P := fun (j : Z) (s : list T * list bool) =>
    length s.1 = length result_data /\
    length s.2 = length result_nullmask /\
    (forall i lindex rindex, 0 <= i < j ->
       array_at lsel i = Some lindex -> array_at rsel i = Some rindex ->
       (array_at lnullmask lindex = Some false ->
        array_at rnullmask rindex = Some false ->
        array_at s.2 i = array_at result_nullmask i /\
        forall l r,
          array_at ldata lindex = Some l -> array_at rdata rindex = Some r ->
          exists mi,
            array_at s.1 i = Some (Operation l r mi i) /\
            (forall k, k < i -> array_at mi k = array_at s.2 k) /\
            (forall k, i <= k ->
               array_at mi k = array_at result_nullmask k)) /\
       (array_at lnullmask lindex = Some true \/
        array_at rnullmask rindex = Some true ->
        array_at s.2 i = Some true /\
        array_at s.1 i = array_at result_data i)) /\
    (forall i, j <= i ->
       array_at s.1 i = array_at result_data i /\
       array_at s.2 i = array_at result_nullmask i)).
  assert (HP0 : P 0 (result_data, result_nullmask)).
  { split; [reflexivity|]. split; [reflexivity|].
    split; [intros; lia|]. intros; split; reflexivity. }
  (* a row that is computed *)
  assert (Hvalid : forall j d m li ri l r,
    0 <= j < count -> P j (d, m) ->
    array_at lsel j = Some li -> array_at rsel j = Some ri ->
    array_at lnullmask li = Some false ->
    array_at rnullmask ri = Some false ->
    array_at ldata li = Some l -> array_at rdata ri = Some r ->
    P (j + 1) (<[Z.to_nat j := Operation l r m j]> d, m)).
  { intros j d m li ri l r Hj (Hlen & Hlenm & Hdone & Hrest)
      Hli Hri Hnl Hnr Hl Hr. unfold P. simpl in *.
    split; [rewrite length_insert; exact Hlen|]. split; [exact Hlenm|].
    split.
    - intros i li' ri' Hi Hli' Hri'.
      destruct (decide (i = j)) as [->|Hne].
      + assert (li' = li) as -> by congruence.
        assert (ri' = ri) as -> by congruence.
        split.
        * intros _ _. split; [apply Hrest; lia|].
          intros l' r' Hl' Hr'. exists m.
          rewrite array_at_insert_eq by lia.
          split; [congruence|]. split; [reflexivity|].
          intros k Hk. apply Hrest. lia.
        * intros [Hn|Hn]; congruence.
      + rewrite array_at_insert_ne by lia. apply Hdone; auto. lia.
    - intros i Hi. rewrite array_at_insert_ne by lia. apply Hrest. lia. }
  (* a row with a NULL cell *)
  assert (Hnull : forall j d m li ri,
    0 <= j < count -> P j (d, m) ->
    array_at lsel j = Some li -> array_at rsel j = Some ri ->
    array_at lnullmask li = Some true \/ array_at rnullmask ri = Some true ->
    P (j + 1) (d, <[Z.to_nat j := true]> m)).
  { intros j d m li ri Hj (Hlen & Hlenm & Hdone & Hrest) Hli Hri Hn.
    unfold P. simpl in *.
    split; [exact Hlen|]. split; [rewrite length_insert; exact Hlenm|].
    split.
    - intros i li' ri' Hi Hli' Hri'.
      destruct (decide (i = j)) as [->|Hne].
      + assert (li' = li) as -> by congruence.
        assert (ri' = ri) as -> by congruence.
        split.
        * intros Hnl Hnr. destruct Hn; congruence.
        * intros _. rewrite array_at_insert_eq by lia.
          split; [reflexivity|]. apply Hrest. lia.
      + rewrite array_at_insert_ne by lia.
        destruct (Hdone i li' ri') as [Hv Hn']; [lia|assumption..|].
        split; [|exact Hn'].
        intros Hnl Hnr. destruct (Hv Hnl Hnr) as [Hm Hd].
        split; [exact Hm|].
        intros l r Hl Hr. destruct (Hd l r Hl Hr) as (mi & Hdi & Hlo & Hhi).
        exists mi. split; [exact Hdi|]. split; [|exact Hhi].
        intros k Hk. rewrite array_at_insert_ne by lia. apply Hlo. exact Hk.
    - intros i Hi. rewrite array_at_insert_ne by lia. apply Hrest. lia. }
  assert (Hend : forall s,
    P count s ->
    exists d m, Returned s = Returned (d, m) /\
      length d = length result_data /\ length m = length result_nullmask /\
      (forall i lindex rindex, 0 <= i < count ->
         array_at lsel i = Some lindex -> array_at rsel i = Some rindex ->
         (array_at lnullmask lindex = Some false ->
          array_at rnullmask rindex = Some false ->
          array_at m i = array_at result_nullmask i /\
          forall l r,
            array_at ldata lindex = Some l ->
            array_at rdata rindex = Some r ->
            exists mi,
              array_at d i = Some (Operation l r mi i) /\
              (forall k, k < i -> array_at mi k = array_at m k) /\
              (forall k, i <= k ->
                 array_at mi k = array_at result_nullmask k)) /\
         (array_at lnullmask lindex = Some true \/
          array_at rnullmask rindex = Some true ->
          array_at m i = Some true /\
          array_at d i = array_at result_data i)) /\
      (forall i, count <= i ->
         array_at d i = array_at result_data i /\
         array_at m i = array_at result_nullmask i)).
  { intros [d m] HP. exists d, m. split; [reflexivity|]. exact HP. }
  unfold ExecuteGenericLoop.
  destruct (nullmask_any lnullmask || nullmask_any rnullmask) eqn:Hany.
  - destruct (for_loop_inv
      (fun i '(result_data, result_nullmask) =>
         lindex ← get_index lsel i;
         rindex ← get_index rsel i;
         lnull ← array_get lnullmask lindex;
         valid ← (if negb lnull
                  then rnull ← array_get rnullmask rindex;
                       Returned (negb rnull)
                  else Returned false);
         if valid : bool then
           lentry ← array_get ldata lindex;
           rentry ← array_get rdata rindex;
           d ← array_set result_data i
                 (Operation lentry rentry result_nullmask i);
           mret (d, result_nullmask)
         else
           m ← array_set result_nullmask i true;
           mret (result_data, m))
      P count (result_data, result_nullmask)) as (s & Hrun & HP);
      [lia|exact HP0| |rewrite Hrun; apply Hend; exact HP].
    intros j [d m] Hj HP.
    destruct (Hsel j Hj)
      as (li & ri & Hli & Hri & [nl Hnl] & [nr Hnr] & [l Hl] & [r Hr]).
    unfold get_index.
    rewrite (array_get_Returned _ _ _ Hli). simpl.
    rewrite (array_get_Returned _ _ _ Hri). simpl.
    rewrite (array_get_Returned _ _ _ Hnl). simpl.
    pose proof HP as (Hlen & Hlenm & _). simpl in Hlen, Hlenm.
    destruct nl; simpl.
    + rewrite (array_set_Returned m j) by lia. simpl.
      eexists. split; [reflexivity|]. eapply Hnull; eauto.
    + rewrite (array_get_Returned _ _ _ Hnr). simpl.
      destruct nr; simpl.
      * rewrite (array_set_Returned m j) by lia. simpl.
        eexists. split; [reflexivity|]. eapply Hnull; eauto.
      * rewrite (array_get_Returned _ _ _ Hl). simpl.
        rewrite (array_get_Returned _ _ _ Hr). simpl.
        rewrite (array_set_Returned d j) by lia. simpl.
        eexists. split; [reflexivity|]. eapply Hvalid; eauto.
  - apply orb_false_elim in Hany as [Hanyl Hanyr].
    destruct (for_loop_inv
      (fun i '(result_data, result_nullmask) =>
         lindex ← get_index lsel i;
         lentry ← array_get ldata lindex;
         rindex ← get_index rsel i;
         rentry ← array_get rdata rindex;
         d ← array_set result_data i
               (Operation lentry rentry result_nullmask i);
         mret (d, result_nullmask))
      P count (result_data, result_nullmask)) as (s & Hrun & HP);
      [lia|exact HP0| |rewrite Hrun; apply Hend; exact HP].
    intros j [d m] Hj HP.
    destruct (Hsel j Hj)
      as (li & ri & Hli & Hri & [nl Hnl] & [nr Hnr] & [l Hl] & [r Hr]).
    unfold get_index.
    rewrite (array_get_Returned _ _ _ Hli). simpl.
    rewrite (array_get_Returned _ _ _ Hl). simpl.
    rewrite (array_get_Returned _ _ _ Hri). simpl.
    rewrite (array_get_Returned _ _ _ Hr). simpl.
    pose proof HP as (Hlen & Hlenm & _). simpl in Hlen, Hlenm.
    rewrite (array_set_Returned d j) by lia. simpl.
    eexists. split; [reflexivity|].
    assert (nl = false) as ->
      by exact (nullmask_any_false lnullmask li nl Hanyl Hnl).
    assert (nr = false) as ->
      by exact (nullmask_any_false rnullmask ri nr Hanyr Hnr).
    eapply Hvalid; eauto.
Qed.
End ExecuteFacts.

(** ** Select *)

Lemma selected_rows_succ (selected : Z -> bool) (j : Z) :
  0 <= j ->
  selected_rows selected (j + 1) =
    selected_rows selected j ++ (if selected j then [j] else []).
Proof.
  intros Hj. unfold selected_rows.
  rewrite seqZ_app by lia. rewrite filter_app. f_equal.
  rewrite Z.add_0_l. rewrite seqZ_cons by lia. simpl. rewrite seqZ_nil by lia.
  destruct (selected j) eqn:Hs.
  - rewrite filter_cons_True by assumption. reflexivity.
  - rewrite filter_cons_False by congruence. reflexivity.
Qed.

Lemma length_selected_rows (selected : Z -> bool) (j : Z) :
  0 <= j -> Z.of_nat (length (selected_rows selected j)) <= j.
Proof.
  intros Hj. unfold selected_rows.
  pose proof (length_filter (fun i => selected i = true) (seqZ 0 j)) as H.
  rewrite length_seqZ in H. lia.
Qed.

Lemma elem_of_selected_rows (selected : Z -> bool) (count i : Z) :
  i ∈ selected_rows selected count <->
  0 <= i < count /\ selected i = true.
Proof.
  unfold selected_rows. rewrite list_elem_of_filter, elem_of_seqZ.
  intuition lia.
Qed.

Lemma selected_rows_sorted (selected : Z -> bool) (count : Z) :
  StronglySorted Z.lt (selected_rows selected count).
Proof.
  destruct (Z.le_gt_cases count 0) as [Hle|Hgt].
  { unfold selected_rows. rewrite seqZ_nil by lia. constructor. }
  rewrite <- (Z2Nat.id count) by lia.
  induction (Z.to_nat count) as [|n IH]; [constructor|].
  rewrite Nat2Z.inj_succ, <- Z.add_1_r.
  rewrite selected_rows_succ by lia.
  apply StronglySorted_app. split; [|split; [exact IH|]].
  - intros x1 x2 Hx1 Hx2. apply elem_of_selected_rows in Hx1.
    destruct (selected (Z.of_nat n)); [|inversion Hx2].
    apply list_elem_of_singleton in Hx2. lia.
  - destruct (selected (Z.of_nat n)); repeat constructor.
Qed.

Lemma selected_rows_ext (s1 s2 : Z -> bool) (count : Z) :
  (forall i, 0 <= i < count -> s1 i = s2 i) ->
  selected_rows s1 count = selected_rows s2 count.
Proof.
  destruct (Z.le_gt_cases count 0) as [Hle|Hgt].
  { unfold selected_rows. rewrite seqZ_nil by lia. reflexivity. }
  rewrite <- (Z2Nat.id count) by lia. clear Hgt.
  induction (Z.to_nat count) as [|n IH]; intros H; [reflexivity|].
  rewrite Nat2Z.inj_succ, <- Z.add_1_r in *.
  rewrite !selected_rows_succ by lia.
  rewrite IH by (intros; apply H; lia). rewrite H by lia. reflexivity.
Qed.

(** A loop that takes the rows [selected] holds for: the rows it leaves at
    the front of the selection vector, and their number. *)
Lemma select_loop_run (selected : Z -> bool)
    (body : Z -> list Z * Z -> Outcome (list Z * Z))
    (count : Z) (result : list Z) :
  0 <= count < 2 ^ 64 -> count <= Z.of_nat (length result) ->
  (forall j res n, 0 <= j < count ->
     body j (res, n) =
       if selected j
       then res' ← set_index res n j; mret (res', wrap 64 (n + 1))
       else mret (res, n)) ->
  for_loop count body (result, 0) =
    Returned (selected_rows selected count
                ++ drop (length (selected_rows selected count)) result,
              Z.of_nat (length (selected_rows selected count))).
Proof.
  intros Hcount Hres Hbody.
  set (P := fun (j : Z) (s : list Z * Z) =>
    s = (selected_rows selected j
           ++ drop (length (selected_rows selected j)) result,
         Z.of_nat (length (selected_rows selected j)))).
  destruct (for_loop_inv body P count (result, 0)) as (s & -> & ->);
    [lia| | |reflexivity].
  - unfold P, selected_rows. rewrite seqZ_nil by lia. reflexivity.
  - intros j s Hj ->. rewrite Hbody by assumption.
    pose proof (length_selected_rows selected j) as Hle.
    set (rows := selected_rows selected j) in *.
    unfold P. rewrite selected_rows_succ by lia. fold rows.
    destruct (selected j).
    + unfold set_index.
      assert (Hn : (length rows < length result)%nat) by lia.
      destruct (lookup_lt_is_Some_2 result (length rows) Hn) as [y Hy].
      rewrite array_set_Returned
        by (rewrite length_app, length_drop; lia).
      simpl. eexists. split; [reflexivity|].
      rewrite Nat2Z.id. rewrite wrap_small by (unfold uint_range; lia).
      rewrite insert_app_r_alt by lia. rewrite Nat.sub_diag.
      rewrite (drop_S _ _ _ Hy). simpl.
      rewrite length_app. simpl. rewrite <- app_assoc. simpl.
      f_equal; [|lia]. do 3 f_equal. lia.
    + eexists. split; [reflexivity|]. rewrite app_nil_r. reflexivity.
Qed.

Section SelectFacts.
Variable SameCardinality : forall A B, Vector A -> Vector B -> bool.
Variable Orrify :
  forall A, Vector A -> Outcome (Vector A * list Z * list A).
Context {L R : Type}.
Variable OP : L -> R -> bool.

Lemma SelectFlatLoop_run (LC RC : bool) (ldata : list L) (rdata : list R)
    (result : list Z) (count : Z) (nullmask : list bool) :
  0 <= count < 2 ^ 64 -> count <= Z.of_nat (length result) ->
  readable LC ldata count -> readable RC rdata count ->
  count <= Z.of_nat (length nullmask) ->
  SelectFlatLoop OP LC RC ldata rdata result count nullmask =
    Returned
      (selected_rows (row_selected OP LC RC ldata rdata nullmask) count
         ++ drop (length (selected_rows
                            (row_selected OP LC RC ldata rdata nullmask)
                            count)) result,
       Z.of_nat (length (selected_rows
                           (row_selected OP LC RC ldata rdata nullmask)
                           count))).
Proof.
  intros Hcount Hres Hl Hr Hmask. unfold SelectFlatLoop.
  destruct (nullmask_any nullmask) eqn:Hany;
    apply select_loop_run; try assumption; intros j res n Hj;
    destruct (array_at_Some nullmask j) as [null Hnull]; try lia;
    destruct (entry_readable LC ldata count j Hl Hj) as [l Hjl];
    destruct (entry_readable RC rdata count j Hr Hj) as [r Hjr];
    unfold row_selected; rewrite Hnull, Hjl, Hjr; unfold entry in Hjl, Hjr.
  - rewrite (array_get_Returned _ _ _ Hnull). simpl.
    destruct null; simpl; [reflexivity|].
    rewrite (array_get_Returned _ _ _ Hjl). simpl.
    rewrite (array_get_Returned _ _ _ Hjr). simpl. reflexivity.
  - rewrite (array_get_Returned _ _ _ Hjl). simpl.
    rewrite (array_get_Returned _ _ _ Hjr). simpl.
    rewrite (nullmask_any_false nullmask j null Hany Hnull). reflexivity.
Qed.

(** X17: SelectFlat on operands that are flat or constant and not NULL as
    constants leaves, at the front of the selection vector and in order,
    the rows below left.size() that are not NULL and on whose entries the
    comparison holds (a constant operand giving its one entry to every
    row), keeps the cells behind them, and returns their number. *)
Theorem SelectFlat_rows (LC RC : bool) (left : Vector L) (right : Vector R)
    (result : list Z) :
  (LC = true -> array_at (nullmask left) 0 = Some false) ->
  (RC = true -> array_at (nullmask right) 0 = Some false) ->
  0 <= size left < 2 ^ 64 -> size left <= Z.of_nat (length result) ->
  readable LC (data left) (size left) ->
  readable RC (data right) (size left) ->
  size left <= Z.of_nat (length (flat_nullmask LC RC left right)) ->
  SelectFlat OP LC RC left right result =
    Returned
      (selected_rows
         (row_selected OP LC RC (data left) (data right)
            (flat_nullmask LC RC left right)) (size left)
       ++ drop (length (selected_rows
                  (row_selected OP LC RC (data left) (data right)
                     (flat_nullmask LC RC left right)) (size left))) result,
       Z.of_nat (length (selected_rows
                  (row_selected OP LC RC (data left) (data right)
                     (flat_nullmask LC RC left right)) (size left)))).
Proof.
  intros Hlc Hrc Hsize Hres Hl Hr Hmask.
  rewrite <- (SelectFlatLoop_run LC RC (data left) (data right) result
                (size left) (flat_nullmask LC RC left right))
    by assumption.
  unfold SelectFlat.
  assert (Hnull :
    (if LC then array_get (nullmask left) 0 else Returned false) =
      Returned false).
  { destruct LC; [|reflexivity].
    apply array_get_Returned, Hlc. reflexivity. }
  rewrite Hnull. simpl.
  assert (Hnull' :
    (if RC then array_get (nullmask right) 0 else Returned false) =
      Returned false).
  { destruct RC; [|reflexivity].
    apply array_get_Returned, Hrc. reflexivity. }
  rewrite Hnull'. simpl.
  unfold flat_nullmask. destruct LC; [|destruct RC]; reflexivity.
Qed.

(** X18: on two flat vectors Select returns the number n of rows below
    left.size() that are NULL in neither operand and on whose two entries
    the comparison holds, and leaves exactly these rows, in increasing
    order, in the first n cells of the selection vector; the other cells
    stay. *)
Theorem Select_flat_flat (left : Vector L) (right : Vector R)
    (result : list Z) :
  SameCardinality L R left right = true ->
  vector_type left = FLAT_VECTOR -> vector_type right = FLAT_VECTOR ->
  0 <= size left < 2 ^ 64 -> size left <= Z.of_nat (length result) ->
  size left <= Z.of_nat (length (data left)) ->
  size left <= Z.of_nat (length (data right)) ->
  size left <= Z.of_nat (length (nullmask left)) ->
  size left <= Z.of_nat (length (nullmask right)) ->
  exists sel (n : nat),
    Select SameCardinality Orrify OP left right result =
      Returned (sel, Z.of_nat n) /\
    Z.of_nat n <= size left /\ length sel = length result /\
    StronglySorted Z.lt (take n sel) /\
    drop n sel = drop n result /\
    forall i, i ∈ take n sel <->
      0 <= i < size left /\
      array_at (nullmask left) i = Some false /\
      array_at (nullmask right) i = Some false /\
      exists l r, array_at (data left) i = Some l /\
                  array_at (data right) i = Some r /\ OP l r = true.
Proof.
  intros Hc Htl Htr Hsize Hres Hl Hr Hml Hmr.
  set (mask := nullmask_or (nullmask left) (nullmask right)).
  set (rows := selected_rows
                 (row_selected OP false false (data left) (data right) mask)
                 (size left)).
  pose proof (length_selected_rows
                (row_selected OP false false (data left) (data right) mask)
                (size left) (proj1 Hsize)) as Hle.
  fold rows in Hle.
  exists (rows ++ drop (length rows) result), (length rows).
  split; [|split; [exact Hle|split; [|split; [|split]]]].
  - unfold Select. rewrite Hc, Htl, Htr. simpl.
    unfold SelectFlat. simpl.
    apply SelectFlatLoop_run; try assumption.
    rewrite length_nullmask_or. lia.
  - rewrite length_app, length_drop. lia.
  - rewrite take_app_length. apply selected_rows_sorted.
  - rewrite drop_app_length. reflexivity.
  - intros i. rewrite take_app_length. unfold rows.
    rewrite elem_of_selected_rows. unfold row_selected, entry, mask.
    rewrite array_at_nullmask_or.
    split.
    + intros [Hi Hsel]. split; [exact Hi|].
      destruct (array_at (nullmask left) i) as [[]|];
        destruct (array_at (nullmask right) i) as [[]|];
        simpl in Hsel; try discriminate.
      destruct (array_at (data left) i) as [l|]; [|discriminate].
      destruct (array_at (data right) i) as [r|]; [|discriminate].
      eauto 10.
    + intros (Hi & -> & -> & l & r & -> & -> & Hop). simpl. auto.
Qed.

(** X19: a constant operand that is NULL selects nothing: beside a flat or
    constant other operand Select returns 0 and leaves the selection vector
    as it is, without reading the operands' data. *)
Theorem Select_constant_NULL (left : Vector L) (right : Vector R)
    (result : list Z) :
  SameCardinality L R left right = true ->
  (vector_type left = CONSTANT_VECTOR /\
   array_at (nullmask left) 0 = Some true /\
   (vector_type right = FLAT_VECTOR \/
    vector_type right = CONSTANT_VECTOR)) \/
  (vector_type right = CONSTANT_VECTOR /\
   array_at (nullmask right) 0 = Some true /\
   (vector_type left = FLAT_VECTOR \/
    vector_type left = CONSTANT_VECTOR /\
    is_Some (array_at (nullmask left) 0))) ->
  Select SameCardinality Orrify OP left right result = Returned (result, 0).
Proof.
  intros Hc Hcase. unfold Select. rewrite Hc. simpl.
  destruct Hcase as [(Htl & Hnl & [Htr|Htr]) | (Htr & Hnr & [Htl|[Htl Hl]])];
    rewrite Htl, Htr; simpl.
  - unfold SelectFlat. rewrite (array_get_Returned _ _ _ Hnl). reflexivity.
  - unfold SelectConstant. rewrite (array_get_Returned _ _ _ Hnl).
    reflexivity.
  - unfold SelectFlat. simpl. rewrite (array_get_Returned _ _ _ Hnr).
    reflexivity.
  - unfold SelectConstant. destruct Hl as [x Hx].
    rewrite (array_get_Returned _ _ _ Hx). simpl.
    destruct x; simpl; [reflexivity|].
    rewrite (array_get_Returned _ _ _ Hnr). reflexivity.
Qed.

(** X20: on two constant vectors that are not NULL Select compares the two
    entries once: it returns left.size() when the comparison holds and 0
    when it does not, and in neither case writes a row to the selection
    vector. *)
Theorem Select_constant_constant (left : Vector L) (right : Vector R)
    (result : list Z) (l : L) (r : R) :
  SameCardinality L R left right = true ->
  vector_type left = CONSTANT_VECTOR ->
  vector_type right = CONSTANT_VECTOR ->
  array_at (nullmask left) 0 = Some false ->
  array_at (nullmask right) 0 = Some false ->
  array_at (data left) 0 = Some l -> array_at (data right) 0 = Some r ->
  Select SameCardinality Orrify OP left right result =
    Returned (result, if OP l r then size left else 0).
Proof.
  intros Hc Htl Htr Hnl Hnr Hl Hr.
  unfold Select. rewrite Hc, Htl, Htr. simpl. unfold SelectConstant.
  rewrite (array_get_Returned _ _ _ Hnl). simpl.
  rewrite (array_get_Returned _ _ _ Hnr). simpl.
  rewrite (array_get_Returned _ _ _ Hl). simpl.
  rewrite (array_get_Returned _ _ _ Hr). simpl.
  destruct (OP l r); reflexivity.
Qed.

(** X21: the generic selection loop leaves, at the front of the selection
    vector and in order, the rows below [count] whose two cells, named by
    the operands' selection vectors, are not NULL and satisfy the
    comparison; it keeps the cells behind them and returns their number. *)
Theorem SelectGenericLoop_rows (ldata : list L) (rdata : list R)
    (lsel rsel : list Z) (count : Z) (lnullmask rnullmask : list bool)
    (result : list Z) :
  0 <= count < 2 ^ 64 -> count <= Z.of_nat (length result) ->
  (forall i, 0 <= i < count ->
     exists lindex rindex,
       array_at lsel i = Some lindex /\ array_at rsel i = Some rindex /\
       is_Some (array_at lnullmask lindex) /\
       is_Some (array_at rnullmask rindex) /\
       is_Some (array_at ldata lindex) /\
       is_Some (array_at rdata rindex)) ->
  SelectGenericLoop OP ldata rdata lsel rsel count lnullmask rnullmask
    result =
    Returned
      (selected_rows
         (row_selected_generic OP ldata rdata lsel rsel lnullmask rnullmask)
         count
       ++ drop (length (selected_rows
                  (row_selected_generic OP ldata rdata lsel rsel
                     lnullmask rnullmask) count)) result,
       Z.of_nat (length (selected_rows
                  (row_selected_generic OP ldata rdata lsel rsel
                     lnullmask rnullmask) count))).
Proof.
  intros Hcount Hres Hsel. unfold SelectGenericLoop.
  destruct (nullmask_any lnullmask || nullmask_any rnullmask) eqn:Hany;
    apply select_loop_run; try assumption; intros j res n Hj;
    destruct (Hsel j Hj)
      as (li & ri & Hli & Hri & [nl Hnl] & [nr Hnr] & [l Hl] & [r Hr]);
    unfold row_selected_generic; rewrite Hli, Hri, Hnl, Hnr, Hl, Hr;
    unfold get_index.
  - rewrite (array_get_Returned _ _ _ Hli). simpl.
    rewrite (array_get_Returned _ _ _ Hri). simpl.
    rewrite (array_get_Returned _ _ _ Hnl). simpl.
    destruct nl; simpl; [reflexivity|].
    rewrite (array_get_Returned _ _ _ Hnr). simpl.
    destruct nr; simpl; [reflexivity|].
    rewrite (array_get_Returned _ _ _ Hl). simpl.
    rewrite (array_get_Returned _ _ _ Hr). simpl. reflexivity.
  - apply orb_false_elim in Hany as [Hanyl Hanyr].
    rewrite (array_get_Returned _ _ _ Hli). simpl.
    rewrite (array_get_Returned _ _ _ Hl). simpl.
    rewrite (array_get_Returned _ _ _ Hri). simpl.
    rewrite (array_get_Returned _ _ _ Hr). simpl.
    rewrite (nullmask_any_false lnullmask li nl Hanyl Hnl).
    rewrite (nullmask_any_false rnullmask ri nr Hanyr Hnr). reflexivity.
Qed.

(** X22: Select returns no count for operands that are not both flat or
    constant: SelectGeneric runs its loop and ends without a return
    statement, so whatever the vectors hold the call has no result. *)
Theorem Select_generic_no_result (left : Vector L) (right : Vector R)
    (result : list Z) :
  ~ ((vector_type left = FLAT_VECTOR \/
      vector_type left = CONSTANT_VECTOR) /\
     (vector_type right = FLAT_VECTOR \/
      vector_type right = CONSTANT_VECTOR)) ->
  forall r, Select SameCardinality Orrify OP left right result <> Returned r.
Proof.
  intros Htypes r. unfold Select.
  destruct (negb _); [discriminate|].
  assert (Hgen : SelectGeneric Orrify OP left right result <> Returned r).
  { unfold SelectGeneric.
    destruct (Orrify L left) as [[[left' lsel] ldata]| | |]; simpl;
      try discriminate.
    destruct (Orrify R right) as [[[right' rsel] rdata]| | |]; simpl;
      try discriminate.
    destruct (SelectGenericLoop _ _ _ _ _ _ _ _ _) as [s| | |]; simpl;
      discriminate. }
  destruct (vector_type left) eqn:Htl, (vector_type right) eqn:Htr; simpl;
    try exact Hgen; exfalso; apply Htypes; auto.
Qed.

(** X23: beside a flat left operand, a constant right operand that is not
    NULL selects as the flat vector that repeats its entry in every row
    does. *)
Theorem SelectFlat_right_constant_as_flat (left : Vector L)
    (right : Vector R) (result : list Z) (c : R) :
  array_at (nullmask right) 0 = Some false ->
  array_at (data right) 0 = Some c ->
  0 <= size left < 2 ^ 64 -> size left <= Z.of_nat (length result) ->
  size left <= Z.of_nat (length (data left)) ->
  size left <= Z.of_nat (length (nullmask left)) ->
  SelectFlat OP false true left right result =
  SelectFlat OP false false left
    (mkVector FLAT_VECTOR (replicate (length (nullmask left)) false)
       (replicate (Z.to_nat (size left)) c) (size right)) result.
Proof.
  intros Hnr Hc Hsize Hres Hl Hml.
  unfold SelectFlat. simpl. rewrite (array_get_Returned _ _ _ Hnr). simpl.
  rewrite !SelectFlatLoop_run; try assumption; unfold readable.
  - rewrite (selected_rows_ext _
      (row_selected OP false false (data left)
         (replicate (Z.to_nat (size left)) c)
         (nullmask_or (nullmask left)
            (replicate (length (nullmask left)) false)))); [reflexivity|].
    intros i Hi. unfold row_selected, entry.
    rewrite array_at_nullmask_or, Hc.
    destruct (array_at_Some (nullmask left) i) as [x Hx]; [lia|].
    rewrite Hx.
    assert (Hrep : array_at (replicate (length (nullmask left)) false) i
                   = Some false).
    { unfold array_at. destruct (Z.ltb_spec i 0); [lia|].
      apply lookup_replicate_2. lia. }
    rewrite Hrep, orb_false_r.
    assert (Hrc : array_at (replicate (Z.to_nat (size left)) c) i = Some c).
    { unfold array_at. destruct (Z.ltb_spec i 0); [lia|].
      apply lookup_replicate_2. lia. }
    rewrite Hrc. reflexivity.
  - rewrite length_replicate. lia.
  - rewrite length_nullmask_or, length_replicate. lia.
  - apply array_at_lt in Hc. lia.
Qed.

(** X24: beside a flat right operand, a constant left operand that is not
    NULL selects as the flat vector that repeats its entry in every row
    does. *)
Theorem SelectFlat_left_constant_as_flat (left : Vector L)
    (right : Vector R) (result : list Z) (c : L) :
  array_at (nullmask left) 0 = Some false ->
  array_at (data left) 0 = Some c ->
  0 <= size left < 2 ^ 64 -> size left <= Z.of_nat (length result) ->
  size left <= Z.of_nat (length (data right)) ->
  size left <= Z.of_nat (length (nullmask right)) ->
  SelectFlat OP true false left right result =
  SelectFlat OP false false
    (mkVector FLAT_VECTOR (replicate (length (nullmask right)) false)
       (replicate (Z.to_nat (size left)) c) (size left)) right result.
Proof.
  intros Hnl Hc Hsize Hres Hr Hmr.
  unfold SelectFlat. simpl. rewrite (array_get_Returned _ _ _ Hnl). simpl.
  rewrite !SelectFlatLoop_run; try assumption; unfold readable.
  - rewrite (selected_rows_ext _
      (row_selected OP false false (replicate (Z.to_nat (size left)) c)
         (data right)
         (nullmask_or (replicate (length (nullmask right)) false)
            (nullmask right)))); [reflexivity|].
    intros i Hi. unfold row_selected, entry.
    rewrite array_at_nullmask_or, Hc.
    destruct (array_at_Some (nullmask right) i) as [x Hx]; [lia|].
    rewrite Hx.
    assert (Hrep : array_at (replicate (length (nullmask right)) false) i
                   = Some false).
    { unfold array_at. destruct (Z.ltb_spec i 0); [lia|].
      apply lookup_replicate_2. lia. }
    rewrite Hrep. simpl.
    assert (Hrc : array_at (replicate (Z.to_nat (size left)) c) i = Some c).
    { unfold array_at. destruct (Z.ltb_spec i 0); [lia|].
      apply lookup_replicate_2. lia. }
    rewrite Hrc. reflexivity.
  - rewrite length_replicate. lia.
  - rewrite length_nullmask_or, length_replicate. lia.
  - apply array_at_lt in Hc. lia.
Qed.

Lemma nullmask_or_comm (a b : list bool) :
  nullmask_or a b = nullmask_or b a.
Proof.
  unfold nullmask_or. rewrite <- (zip_with_flip orb b a).
  apply zip_with_ext; [|reflexivity..].
  intros x y. apply orb_comm.
Qed.
End SelectFacts.

(** X25: exchanging two flat operands and the sides of the comparison
    changes nothing: SelectFlat has the same outcome. *)
Theorem SelectFlat_swap {L R} (OP : L -> R -> bool) (left : Vector L)
    (right : Vector R) (result : list Z) :
  size left = size right ->
  SelectFlat OP false false left right result =
  SelectFlat (flip OP) false false right left result.
Proof.
  intros Hsize. unfold SelectFlat. simpl. rewrite <- Hsize.
  rewrite (nullmask_or_comm (nullmask right) (nullmask left)).
  unfold SelectFlatLoop.
  destruct (nullmask_any _); unfold for_loop; apply for_from_ext;
    intros j [res n] _; simpl; unfold array_get.
  - destruct (array_at (nullmask_or (nullmask left) (nullmask right)) j)
      as [[]|]; simpl; try reflexivity.
    destruct (array_at (data left) j) as [l|],
             (array_at (data right) j) as [r|]; reflexivity.
  - destruct (array_at (data left) j) as [l|],
             (array_at (data right) j) as [r|]; reflexivity.
Qed.

(** X26: whenever the flat selection loop returns, whatever the sizes of
    the arrays it was given: the count n it returns is at most [count], the
    first n cells of the selection vector hold rows below [count] in
    strictly increasing order, and the vector has its length and its
    cells from n on as before. *)
Theorem SelectFlatLoop_valid {L R} (OP : L -> R -> bool) (LC RC : bool)
    (ldata : list L) (rdata : list R) (result sel : list Z) (count n : Z)
    (nullmask : list bool) :
  0 <= count < 2 ^ 64 ->
  SelectFlatLoop OP LC RC ldata rdata result count nullmask =
    Returned (sel, n) ->
  0 <= n <= count /\ length sel = length result /\
  StronglySorted Z.lt (take (Z.to_nat n) sel) /\
  Forall (fun row => 0 <= row < count) (take (Z.to_nat n) sel) /\
  drop (Z.to_nat n) sel = drop (Z.to_nat n) result.
Proof.
  intros Hcount.
  set (P := fun (j : Z) (s : list Z * Z) =>
    0 <= s.2 <= j /\ length s.1 = length result /\
    StronglySorted Z.lt (take (Z.to_nat s.2) s.1) /\
    Forall (fun row => 0 <= row < j) (take (Z.to_nat s.2) s.1) /\
    drop (Z.to_nat s.2) s.1 = drop (Z.to_nat s.2) result).
  assert (HP0 : P 0 (result, 0)).
  { unfold P. simpl. repeat split; try lia; constructor. }
  assert (Hskip : forall j s, 0 <= j -> P j s -> P (j + 1) s).
  { intros j s Hj (Hn & Hlen & Hsorted & Hrange & Hrest).
    split; [lia|]. split; [exact Hlen|]. split; [exact Hsorted|].
    split; [|exact Hrest].
    eapply Forall_impl; [exact Hrange|]. simpl. intros; lia. }
  assert (Htake : forall j res m res',
    0 <= j < count -> P j (res, m) ->
    set_index res m j = Returned res' ->
    P (j + 1) (res', wrap 64 (m + 1))).
  { intros j res m res' Hj (Hn & Hlen & Hsorted & Hrange & Hrest) Hset.
    simpl in *. unfold set_index in Hset.
    apply array_set_Returned_inv in Hset as [Hm ->].
    rewrite wrap_small by (unfold uint_range; lia).
    unfold P. simpl.
    replace (Z.to_nat (m + 1)) with (S (Z.to_nat m)) by lia.
    assert (Htk : take (S (Z.to_nat m)) (<[Z.to_nat m := j]> res)
                  = take (Z.to_nat m) res ++ [j]).
    { rewrite (take_S_r _ _ j) by (apply list_lookup_insert_eq; lia).
      rewrite take_insert_ge by lia. reflexivity. }
    rewrite Htk.
    split; [lia|]. split; [rewrite length_insert; exact Hlen|].
    split; [|split].
    - apply StronglySorted_app. split; [|split; [exact Hsorted|]].
      + intros x1 x2 Hx1 Hx2. apply list_elem_of_singleton in Hx2.
        rewrite Forall_forall in Hrange. apply Hrange in Hx1. lia.
      + repeat constructor.
    - apply Forall_app. split.
      + eapply Forall_impl; [exact Hrange|]. simpl. intros; lia.
      + repeat constructor; lia.
    - rewrite drop_insert_lt by lia.
      replace (S (Z.to_nat m)) with (Z.to_nat m + 1)%nat by lia.
      rewrite <- !drop_drop. rewrite Hrest. reflexivity. }
  unfold SelectFlatLoop.
  destruct (nullmask_any nullmask); intros Hrun;
    apply (for_loop_Returned_inv _ P) in Hrun;
    try exact Hrun; try lia; try exact HP0;
    intros j [res m] [res' m'] Hj HP.
  - destruct (array_get nullmask j) as [[]| | |]; simpl; try discriminate.
    + intros [= <- <-]. apply Hskip; [lia|exact HP].
    + destruct (array_get ldata _) as [l| | |]; simpl; try discriminate.
      destruct (array_get rdata _) as [r| | |]; simpl; try discriminate.
      destruct (OP l r).
      * destruct (set_index res m j) as [res1| | |] eqn:Hset; simpl;
          try discriminate.
        intros [= <- <-]. eapply Htake; eauto.
      * intros [= <- <-]. apply Hskip; [lia|exact HP].
  - destruct (array_get ldata _) as [l| | |]; simpl; try discriminate.
    destruct (array_get rdata _) as [r| | |]; simpl; try discriminate.
    destruct (OP l r).
    + destruct (set_index res m j) as [res1| | |] eqn:Hset; simpl;
        try discriminate.
      intros [= <- <-]. eapply Htake; eauto.
    + intros [= <- <-]. apply Hskip; [lia|exact HP].
Qed.

(** X28: Select is the filter of Execute: on two flat vectors the rows
    Select leaves in the selection vector are the rows of the result of
    ExecuteStandard with the same comparison that are not NULL and hold
    true. *)
Theorem Select_filters_Execute {L R}
    (SameCardinality : forall A B, Vector A -> Vector B -> bool)
    (Orrify : forall A, Vector A -> Outcome (Vector A * list Z * list A))
    (OP : L -> R -> bool) (IGNORE_NULL : bool) (left : Vector L)
    (right : Vector R) (result : Vector bool) (sel0 : list Z) :
  SameCardinality L R left right = true ->
  SameCardinality L bool left result = true ->
  vector_type left = FLAT_VECTOR -> vector_type right = FLAT_VECTOR ->
  size result = size left -> 0 <= size left < 2 ^ 64 ->
  size left <= Z.of_nat (length sel0) ->
  size left <= Z.of_nat (length (data result)) ->
  size left <= Z.of_nat (length (data left)) ->
  size left <= Z.of_nat (length (data right)) ->
  size left <= Z.of_nat (length (nullmask left)) ->
  size left <= Z.of_nat (length (nullmask right)) ->
  exists sel (n : nat) result',
    Select SameCardinality Orrify OP left right sel0 =
      Returned (sel, Z.of_nat n) /\
    ExecuteStandard SameCardinality Orrify OP IGNORE_NULL left right result =
      Returned result' /\
    forall i, i ∈ take n sel <->
      0 <= i < size left /\
      array_at (nullmask result') i = Some false /\
      array_at (data result') i = Some true.
Proof.
  intros Hc1 Hc2 Htl Htr Hsz Hsize Hsel Hres Hl Hr Hml Hmr.
  set (mask := nullmask_or (nullmask left) (nullmask right)).
  assert (Hmask : size left <= Z.of_nat (length mask))
    by (unfold mask; rewrite length_nullmask_or; lia).
  set (rows := selected_rows
                 (row_selected OP false false (data left) (data right) mask)
                 (size left)).
  destruct (ExecuteFlatLoop_run (BinaryStandardOperatorWrapper OP false)
              IGNORE_NULL false false (data left) (data right)
              (data result) (size result) mask)
    as (out & Hrun & Hlen & Hrows & Hrest);
    try (rewrite Hsz); try assumption; try lia.
  rewrite Hsz in Hrows.
  exists (rows ++ drop (length rows) sel0), (length rows),
         (mkVector FLAT_VECTOR mask out (size result)).
  split; [|split].
  - unfold Select. rewrite Hc1, Htl, Htr. simpl.
    unfold SelectFlat. simpl.
    apply SelectFlatLoop_run; try assumption.
  - unfold ExecuteStandard, ExecuteSwitch. rewrite Hc1, Hc2, Htl, Htr. simpl.
    unfold ExecuteFlat. simpl. fold mask. rewrite Hrun. reflexivity.
  - intros i. rewrite take_app_length. unfold rows.
    rewrite elem_of_selected_rows. simpl.
    split.
    + intros [Hi Hrow]. split; [exact Hi|]. revert Hrow.
      unfold row_selected.
      destruct (array_at mask i) as [[]|] eqn:Hm; try discriminate.
      destruct (entry false (data left) i) as [l|] eqn:Hil;
        [|discriminate].
      destruct (entry false (data right) i) as [r|] eqn:Hir;
        [|discriminate].
      intros Hop. split; [reflexivity|].
      rewrite (Hrows i l r); auto.
      unfold BinaryStandardOperatorWrapper. rewrite Hop. reflexivity.
    + intros (Hi & Hm & Hd). split; [exact Hi|].
      destruct (entry_readable false (data left) (size left) i) as [l Hil];
        [exact Hl|exact Hi|].
      destruct (entry_readable false (data right) (size left) i)
        as [r Hir]; [exact Hr|exact Hi|].
      unfold row_selected. rewrite Hm, Hil, Hir.
      rewrite (Hrows i l r) in Hd; auto.
      unfold BinaryStandardOperatorWrapper in Hd. congruence.
Qed.
End BinaryExecutorFacts.

(** * Sample runs *)

Module MoreWitnesses.
Import Samples MoreSamples.
Local Open Scope byte_scope.

Lemma PrefixMismatch_window_witness :
  PrefixMismatch art4 ab_node (key_of "xabz") 1 =
  PrefixMismatch art4 ab_Node16 (key_of "yabw") 1.
Proof.
  apply (PrefixMismatch_window art4 ab_node ab_Node16
           (key_of "xabz") (key_of "yabw") 1).
  - reflexivity.
  - intros p Hp. simpl in Hp.
    assert (p = 0 \/ p = 1) as [-> | ->] by lia; reflexivity.
  - intros p Hp. simpl in Hp.
    assert (p = 0 \/ p = 1) as [-> | ->] by lia; reflexivity.
Defined.

Lemma PrefixMismatch_from_depth_witness :
  PrefixMismatch art4 ab_node (key_of "xabz") 1 =
  PrefixMismatch art4 ab_node (drop (Z.to_nat 1) (key_of "xabz")) 0.
Proof.
  apply (PrefixMismatch_from_depth art4 ab_node (key_of "xabz") 1).
  - lia.
  - simpl. lia.
Defined.

Lemma PrefixMismatch_longer_key_witness :
  PrefixMismatch art4 ab_node (key_of "xab" ++ key_of "z") 1 = Returned 2.
Proof.
  apply (PrefixMismatch_longer_key art4 ab_node (key_of "xab") (key_of "z")
           1 2).
  reflexivity.
Defined.

Lemma PrefixMismatch_Returned_inv_witness :
  prefix_length ab_node <= maxPrefix art4 /\
  0 <= 1 <= prefix_length ab_node /\
  (forall i, 0 <= i < 1 ->
     exists b, array_at (key_of "xaz") (wrap 64 (1 + i)) = Some b /\
               array_at (prefix ab_node) i = Some b) /\
  (1 < prefix_length ab_node ->
     exists a b, array_at (key_of "xaz") (wrap 64 (1 + 1)) = Some a /\
                 array_at (prefix ab_node) 1 = Some b /\ a <> b).
Proof.
  apply (PrefixMismatch_Returned_inv art4 ab_node (key_of "xaz") 1 1).
  - unfold Node_typed, uint_range. simpl. lia.
  - reflexivity.
Defined.

Lemma PrefixMismatch_full_match_iff_witness :
  PrefixMismatch art4 ab_node (key_of "xabz") 1 =
    Returned (prefix_length ab_node) <->
  take (Z.to_nat (prefix_length ab_node)) (prefix ab_node)
    `prefix_of` drop (Z.to_nat 1) (key_of "xabz").
Proof.
  apply (PrefixMismatch_full_match_iff art4 ab_node (key_of "xabz") 1).
  - unfold Node_typed, uint_range. simpl. lia.
  - reflexivity.
  - unfold ART_typed, uint_range. simpl. lia.
  - lia.
  - simpl. lia.
  - simpl. lia.
Defined.

Lemma PrefixMismatch_short_key_witness :
  PrefixMismatch art4 ab_node (key_of "xz") 1 = Returned (Z.of_nat 0).
Proof.
  apply (PrefixMismatch_short_key art4 ab_node (key_of "xz") 1 0 "z" "a").
  - unfold Node_typed, uint_range. simpl. lia.
  - reflexivity.
  - unfold ART_typed, uint_range. simpl. lia.
  - lia.
  - simpl. lia.
  - simpl. lia.
  - reflexivity.
  - reflexivity.
  - reflexivity.
  - simpl. lia.
  - discriminate.
Defined.

Lemma CopyPrefix_PrefixMismatch_witness :
  exists h' d',
    CopyPrefix art4 1 2 two_nodes = Returned h' /\
    h' !! 2 = Some d' /\
    forall (key : Key) (depth : Z),
      PrefixMismatch art4 d' key depth = PrefixMismatch art4 ab_node key depth.
Proof.
  apply (CopyPrefix_PrefixMismatch art4 1 2 two_nodes ab_node full_Node4).
  - discriminate.
  - reflexivity.
  - reflexivity.
  - reflexivity.
  - reflexivity.
Defined.

Lemma CopyPrefix_idempotent_witness :
  CopyPrefix art4 1 2 (<[2 := full_Node4_ab]> two_nodes) =
    Returned (<[2 := full_Node4_ab]> two_nodes).
Proof.
  apply (CopyPrefix_idempotent art4 1 2 two_nodes).
  vm_compute. reflexivity.
Defined.

Lemma CopyPrefix_chain_witness :
  exists h1 h2 h3,
    CopyPrefix art4 1 2 three_nodes = Returned h1 /\
    CopyPrefix art4 2 3 h1 = Returned h2 /\
    CopyPrefix art4 1 3 three_nodes = Returned h3 /\
    h2 !! 3 = h3 !! 3 /\ h2 !! 1 = Some ab_node /\
    h3 !! 2 = Some full_Node4.
Proof.
  apply (CopyPrefix_chain art4 1 2 3 three_nodes ab_node full_Node4 odd_node).
  - discriminate.
  - discriminate.
  - discriminate.
  - reflexivity.
  - reflexivity.
  - reflexivity.
  - reflexivity.
  - reflexivity.
  - reflexivity.
Defined.

Lemma CopyPrefix_self_witness :
  CopyPrefix art4 1 1 two_nodes =
    (if 0 <? Z.min (prefix_length ab_node) (maxPrefix art4) then Undefined
     else Returned two_nodes) /\
  CopyPrefix art4 2 2 two_nodes =
    (if 0 <? Z.min (prefix_length full_Node4) (maxPrefix art4) then Undefined
     else Returned two_nodes).
Proof.
  split.
  - apply (CopyPrefix_self art4 1 two_nodes ab_node). reflexivity.
  - apply (CopyPrefix_self art4 2 two_nodes full_Node4). reflexivity.
Defined.

Lemma Node_new_ready_witness :
  Node_typed (Node_new art4 N4 zeroes tt) /\
  Node_allocated art4 (Node_new art4 N4 zeroes tt) /\
  PrefixMismatch_exec art4 (Node_new art4 N4 zeroes tt) (key_of "ab") 1 =
    mkExec [] (Returned 0).
Proof.
  apply (Node_new_ready art4 N4 zeroes tt (key_of "ab") 1).
  unfold ART_typed, uint_range. simpl. lia.
Defined.
End MoreWitnesses.

Module ExecutorWitnesses.
Import BinaryExecutor BinaryExecutorFacts ExecutorSamples.

Lemma ExecuteFlat_rows_witness :
  exists result',
    ExecuteFlat plus true false true left3 constant3 result3 =
      Returned result' /\
    vector_type result' = FLAT_VECTOR /\ size result' = size result3 /\
    nullmask result' = flat_nullmask false true left3 constant3 /\
    length (data result') = length (data result3) /\
    (forall i l r, 0 <= i < size result3 ->
       array_at (nullmask result') i = Some false ->
       entry false (data left3) i = Some l ->
       entry true (data constant3) i = Some r ->
       array_at (data result') i = Some (plus l r (nullmask result') i)) /\
    (forall i, size result3 <= i ->
       array_at (data result') i = array_at (data result3) i).
Proof.
  apply (ExecuteFlat_rows plus true false true left3 constant3 result3).
  - discriminate.
  - reflexivity.
  - simpl. lia.
  - simpl. lia.
  - simpl. lia.
  - simpl. lia.
Defined.

Lemma ExecuteSwitch_flat_flat_witness :
  exists result',
    ExecuteSwitch same_size in_order plus false left3 right3 result3 =
      Returned result' /\
    vector_type result' = FLAT_VECTOR /\ size result' = size result3 /\
    (forall i, 0 <= i < size result3 ->
       (array_at (nullmask result') i = Some true <->
        array_at (nullmask left3) i = Some true \/
        array_at (nullmask right3) i = Some true) /\
       (array_at (nullmask result') i = Some false <->
        array_at (nullmask left3) i = Some false /\
        array_at (nullmask right3) i = Some false)) /\
    (forall i l r, 0 <= i < size result3 ->
       array_at (nullmask left3) i = Some false ->
       array_at (nullmask right3) i = Some false ->
       array_at (data left3) i = Some l ->
       array_at (data right3) i = Some r ->
       array_at (data result') i = Some (plus l r (nullmask result') i)).
Proof.
  apply (ExecuteSwitch_flat_flat same_size in_order plus false
           left3 right3 result3).
  - reflexivity.
  - reflexivity.
  - reflexivity.
  - reflexivity.
  - simpl. lia.
  - simpl. lia.
  - simpl. lia.
  - simpl. lia.
  - simpl. lia.
Defined.

Lemma ExecuteSwitch_constant_NULL_witness :
  ExecuteSwitch same_size in_order plus false left3 constant_NULL result3 =
  Returned (mkVector CONSTANT_VECTOR (<[0%nat := true]> (nullmask result3))
              (data result3) (size result3)).
Proof.
  apply (ExecuteSwitch_constant_NULL same_size in_order plus false
           left3 constant_NULL result3).
  - reflexivity.
  - reflexivity.
  - right. split; [reflexivity|]. split; [reflexivity|].
    left. reflexivity.
  - simpl. lia.
Defined.

Lemma ExecuteSwitch_constant_constant_witness :
  ExecuteSwitch same_size in_order plus false constant3 constant3 result3 =
  Returned (mkVector CONSTANT_VECTOR (nullmask result3)
              (<[0%nat := plus 3 3 (nullmask result3) 0]> (data result3))
              (size result3)).
Proof.
  apply (ExecuteSwitch_constant_constant same_size in_order plus false
           constant3 constant3 result3 3 3).
  - reflexivity.
  - reflexivity.
  - reflexivity.
  - reflexivity.
  - reflexivity.
  - reflexivity.
  - reflexivity.
  - reflexivity.
  - simpl. lia.
Defined.

Lemma ExecuteSwitch_IGNORE_NULL_witness :
  exists a,
    ExecuteSwitch same_size in_order plus true left3 right3 result3 =
      Returned a /\
    vector_type a = FLAT_VECTOR /\ size a = 3 /\
    nullmask a = [false; true; false; false] /\
    length (data a) = 4%nat /\
    forall i, array_at [false; true; false; false] i <> Some true ->
      array_at (data a) i = array_at [6; 16; 6; 0] i.
Proof.
  apply (ExecuteSwitch_IGNORE_NULL same_size in_order plus
           left3 right3 result3
           (mkVector FLAT_VECTOR [false; true; false; false] [6; 16; 6; 0]
              3)).
  - reflexivity.
  - simpl. lia.
Defined.

Lemma ExecuteGenericLoop_rows_witness :
  exists d m,
    ExecuteGenericLoop plus false (data left3) (data right3) (data result3)
      [1; 0] [0; 2] 2 (nullmask left3) (nullmask right3) (nullmask result3) =
      Returned (d, m) /\
    length d = length (data result3) /\
    length m = length (nullmask result3) /\
    (forall i lindex rindex, 0 <= i < 2 ->
       array_at [1; 0] i = Some lindex -> array_at [0; 2] i = Some rindex ->
       (array_at (nullmask left3) lindex = Some false ->
        array_at (nullmask right3) rindex = Some false ->
        array_at m i = array_at (nullmask result3) i /\
        forall l r,
          array_at (data left3) lindex = Some l ->
          array_at (data right3) rindex = Some r ->
          exists mi,
            array_at d i = Some (plus l r mi i) /\
            (forall k, k < i -> array_at mi k = array_at m k) /\
            (forall k, i <= k ->
               array_at mi k = array_at (nullmask result3) k)) /\
       (array_at (nullmask left3) lindex = Some true \/
        array_at (nullmask right3) rindex = Some true ->
        array_at m i = Some true /\
        array_at d i = array_at (data result3) i)) /\
    (forall i, 2 <= i ->
       array_at d i = array_at (data result3) i /\
       array_at m i = array_at (nullmask result3) i).
Proof.
  apply (ExecuteGenericLoop_rows plus false (data left3) (data right3)
           (data result3) [1; 0] [0; 2] 2 (nullmask left3) (nullmask right3)
           (nullmask result3)).
  - simpl. lia.
  - simpl. lia.
  - intros i Hi. assert (i = 0 \/ i = 1) as [-> | ->] by lia.
    + exists 1, 0. repeat split; eexists; reflexivity.
    + exists 0, 2. repeat split; eexists; reflexivity.
Defined.

Lemma SelectFlat_rows_witness :
  SelectFlat Z.ltb true false constant3 right3 sel4 =
    Returned
      (selected_rows
         (row_selected Z.ltb true false (data constant3) (data right3)
            (flat_nullmask true false constant3 right3)) (size constant3)
       ++ drop (length (selected_rows
                  (row_selected Z.ltb true false (data constant3)
                     (data right3)
                     (flat_nullmask true false constant3 right3))
                  (size constant3))) sel4,
       Z.of_nat (length (selected_rows
                  (row_selected Z.ltb true false (data constant3)
                     (data right3)
                     (flat_nullmask true false constant3 right3))
                  (size constant3)))).
Proof.
  apply (SelectFlat_rows Z.ltb true false constant3 right3 sel4).
  - reflexivity.
  - discriminate.
  - simpl. lia.
  - simpl. lia.
  - simpl. lia.
  - simpl. lia.
  - simpl. lia.
Defined.

Lemma Select_flat_flat_witness :
  exists sel (n : nat),
    Select same_size in_order Z.ltb left3 right3 sel4 =
      Returned (sel, Z.of_nat n) /\
    Z.of_nat n <= size left3 /\ length sel = length sel4 /\
    StronglySorted Z.lt (take n sel) /\
    drop n sel = drop n sel4 /\
    forall i, i ∈ take n sel <->
      0 <= i < size left3 /\
      array_at (nullmask left3) i = Some false /\
      array_at (nullmask right3) i = Some false /\
      exists l r, array_at (data left3) i = Some l /\
                  array_at (data right3) i = Some r /\ Z.ltb l r = true.
Proof.
  apply (Select_flat_flat same_size in_order Z.ltb left3 right3 sel4).
  - reflexivity.
  - reflexivity.
  - reflexivity.
  - simpl. lia.
  - simpl. lia.
  - simpl. lia.
  - simpl. lia.
  - simpl. lia.
  - simpl. lia.
Defined.

Lemma Select_constant_NULL_witness :
  Select same_size in_order Z.ltb constant_NULL right3 sel4 =
    Returned (sel4, 0).
Proof.
  apply (Select_constant_NULL same_size in_order Z.ltb
           constant_NULL right3 sel4).
  - reflexivity.
  - left. split; [reflexivity|]. split; [reflexivity|].
    left. reflexivity.
Defined.

Lemma Select_constant_constant_witness :
  Select same_size in_order Z.leb constant3 constant3 sel4 =
    Returned (sel4, if Z.leb 3 3 then size constant3 else 0).
Proof.
  apply (Select_constant_constant same_size in_order Z.leb
           constant3 constant3 sel4 3 3); reflexivity.
Defined.

Lemma SelectGenericLoop_rows_witness :
  SelectGenericLoop Z.ltb (data left3) (data right3) [1; 0] [0; 2] 2
    (nullmask left3) (nullmask right3) sel4 =
    Returned
      (selected_rows
         (row_selected_generic Z.ltb (data left3) (data right3)
            [1; 0] [0; 2] (nullmask left3) (nullmask right3)) 2
       ++ drop (length (selected_rows
                  (row_selected_generic Z.ltb (data left3) (data right3)
                     [1; 0] [0; 2] (nullmask left3) (nullmask right3)) 2))
            sel4,
       Z.of_nat (length (selected_rows
                  (row_selected_generic Z.ltb (data left3) (data right3)
                     [1; 0] [0; 2] (nullmask left3) (nullmask right3)) 2))).
Proof.
  apply (SelectGenericLoop_rows Z.ltb (data left3) (data right3)
           [1; 0] [0; 2] 2 (nullmask left3) (nullmask right3) sel4).
  - lia.
  - simpl. lia.
  - intros i Hi. assert (i = 0 \/ i = 1) as [-> | ->] by lia.
    + exists 1, 0. repeat split; eexists; reflexivity.
    + exists 0, 2. repeat split; eexists; reflexivity.
Defined.

Lemma Select_generic_no_result_witness :
  Select same_size in_order Z.ltb other3 right3 sel4 = Undefined /\
  forall r, Select same_size in_order Z.ltb other3 right3 sel4 <> Returned r.
Proof.
  split; [reflexivity|].
  apply (Select_generic_no_result same_size in_order Z.ltb
           other3 right3 sel4).
  intros [[Hl|Hl] _]; discriminate.
Defined.

Lemma SelectFlat_right_constant_as_flat_witness :
  SelectFlat Z.ltb false true left3 constant3 sel4 =
  SelectFlat Z.ltb false false left3
    (mkVector FLAT_VECTOR (replicate (length (nullmask left3)) false)
       (replicate (Z.to_nat (size left3)) 3) (size constant3)) sel4.
Proof.
  apply (SelectFlat_right_constant_as_flat Z.ltb left3 constant3 sel4 3).
  - reflexivity.
  - reflexivity.
  - simpl. lia.
  - simpl. lia.
  - simpl. lia.
  - simpl. lia.
Defined.

Lemma SelectFlat_left_constant_as_flat_witness :
  SelectFlat Z.ltb true false constant3 right3 sel4 =
  SelectFlat Z.ltb false false
    (mkVector FLAT_VECTOR (replicate (length (nullmask right3)) false)
       (replicate (Z.to_nat (size constant3)) 3) (size constant3))
    right3 sel4.
Proof.
  apply (SelectFlat_left_constant_as_flat Z.ltb constant3 right3 sel4 3).
  - reflexivity.
  - reflexivity.
  - simpl. lia.
  - simpl. lia.
  - simpl. lia.
  - simpl. lia.
Defined.

Lemma SelectFlat_swap_witness :
  SelectFlat Z.ltb false false left3 right3 sel4 =
  SelectFlat (flip Z.ltb) false false right3 left3 sel4.
Proof.
  apply (SelectFlat_swap Z.ltb left3 right3 sel4). reflexivity.
Defined.

Lemma SelectFlatLoop_valid_witness :
  0 <= 1 <= 3 /\ length [2; 0; 0; 0] = length sel4 /\
  StronglySorted Z.lt (take (Z.to_nat 1) [2; 0; 0; 0]) /\
  Forall (fun row => 0 <= row < 3) (take (Z.to_nat 1) [2; 0; 0; 0]) /\
  drop (Z.to_nat 1) [2; 0; 0; 0] = drop (Z.to_nat 1) sel4.
Proof.
  apply (SelectFlatLoop_valid Z.ltb false false (data left3) (data right3)
           sel4 [2; 0; 0; 0] 3 1
           (nullmask_or (nullmask left3) (nullmask right3))).
  - lia.
  - reflexivity.
Defined.

Lemma Select_filters_Execute_witness :
  exists sel (n : nat) result',
    Select same_size in_order Z.ltb left3 right3 sel4 =
      Returned (sel, Z.of_nat n) /\
    ExecuteStandard same_size in_order Z.ltb false left3 right3
      (mkVector FLAT_VECTOR [false; false; false; false]
         [false; false; false; false] 3) = Returned result' /\
    forall i, i ∈ take n sel <->
      0 <= i < size left3 /\
      array_at (nullmask result') i = Some false /\
      array_at (data result') i = Some true.
Proof.
  apply (Select_filters_Execute same_size in_order Z.ltb false left3 right3
           (mkVector FLAT_VECTOR [false; false; false; false]
              [false; false; false; false] 3) sel4).
  - reflexivity.
  - reflexivity.
  - reflexivity.
  - reflexivity.
  - reflexivity.
  - simpl. lia.
  - simpl. lia.
  - simpl. lia.
  - simpl. lia.
  - simpl. lia.
  - simpl. lia.
  - simpl. lia.
Defined.
End ExecutorWitnesses.
